(** * Contact-form API: validation, spam filter, rate limiter and handler

    A shallow embedding of [src/shared/validation.ts] and of the request
    handler [src/functions/contact-form/index.ts], with the statements of
    the specification proved, corrected or refuted against it.

    JavaScript data is modelled as the language has it: a string is its
    sequence of UTF-16 code units, [Date.now()] is an integer number of
    milliseconds, the limiter's [Map<string, number[]>] is a finite map,
    a thrown exception is an abrupt completion. *)

From Stdlib Require Import ZArith NArith Bool Ascii String DecimalString.
From stdpp Require Import base tactics option list numbers countable gmap.

Open Scope Z_scope.
Set Warnings "-register-all".

(* ===================================================================== *)
(** ** JavaScript strings *)
(* ===================================================================== *)

(** A JavaScript string: the list of its UTF-16 code units. *)
Definition jsstring : Type := list N.

(** The literal with the given ASCII text. *)
Definition js (s : string) : jsstring :=
  map N_of_ascii (list_ascii_of_string s).

(** The double quote, U+0022. *)
Definition dquote : N := 34%N.

Module JS.

Definition in_range (lo hi c : N) : bool := ((lo <=? c) && (c <=? hi))%N.

Definition is_upper (c : N) : bool := in_range 65 90 c.
Definition is_lower (c : N) : bool := in_range 97 122 c.
Definition is_digit (c : N) : bool := in_range 48 57 c.
Definition is_alpha (c : N) : bool := is_upper c || is_lower c.

(** WhiteSpace and LineTerminator of ECMAScript: what [\s] matches and
    what [String.prototype.trim] removes. *)
Definition is_space (c : N) : bool :=
  (in_range 9 13 c || (c =? 32) || (c =? 160) || (c =? 5760)
   || in_range 8192 8202 c || (c =? 8232) || (c =? 8233) || (c =? 8239)
   || (c =? 8287) || (c =? 12288) || (c =? 65279))%N.

(** LineTerminator: what [.] does not match. *)
Definition is_line_terminator (c : N) : bool :=
  ((c =? 10) || (c =? 13) || (c =? 8232) || (c =? 8233))%N.

(** [\w]. *)
Definition is_word (c : N) : bool :=
  (is_alpha c || is_digit c || (c =? 95))%N.

Definition lower_unit (c : N) : N := if is_upper c then (c + 32)%N else c.
Definition upper_unit (c : N) : N := if is_lower c then (c - 32)%N else c.

(** [String.prototype.toLowerCase]. The ASCII letters are mapped; the
    Unicode case tables for code units above U+007F are not tabulated
    here and such units are kept as they are. *)
Definition toLowerCase (s : jsstring) : jsstring := map lower_unit s.

Fixpoint trimStart (s : jsstring) : jsstring :=
  match s with
  | c :: s' => if is_space c then trimStart s' else s
  | [] => []
  end.

Definition trimEnd (s : jsstring) : jsstring := rev (trimStart (rev s)).

(** [String.prototype.trim]. *)
Definition trim (s : jsstring) : jsstring := trimEnd (trimStart s).

Fixpoint eqb (a b : jsstring) : bool :=
  match a, b with
  | [], [] => true
  | x :: a', y :: b' => (x =? y)%N && eqb a' b'
  | _, _ => false
  end.

Fixpoint startsWith (p s : jsstring) : bool :=
  match p, s with
  | [], _ => true
  | x :: p', y :: s' => (x =? y)%N && startsWith p' s'
  | _ :: _, [] => false
  end.

(** [s.includes(p)], that is [s.indexOf(p) !== -1]. *)
Fixpoint includes (p s : jsstring) : bool :=
  startsWith p s ||
  match s with
  | [] => false
  | _ :: s' => includes p s'
  end.

(** [s.length]. *)
Definition length (s : jsstring) : Z := Z.of_nat (List.length s).

(** [parts.join(sep)]. *)
Fixpoint join (sep : jsstring) (parts : list jsstring) : jsstring :=
  match parts with
  | [] => []
  | [p] => p
  | p :: rest => p ++ sep ++ join sep rest
  end.

(** [s.split(sep)] for a one-unit separator. *)
Fixpoint split (sep : N) (s : jsstring) : list jsstring :=
  match s with
  | [] => [[]]
  | c :: s' =>
      if (c =? sep)%N then [] :: split sep s'
      else match split sep s' with
           | p :: ps => (c :: p) :: ps
           | [] => [[c]]
           end
  end.

End JS.

(* ===================================================================== *)
(** ** Regular expressions *)
(* ===================================================================== *)

(** The fragment of ECMAScript regular expressions the sources use, with
    the backtracking semantics of the language specification (greedy
    quantifiers, ordered alternation, capture groups, backreferences,
    the assertions [^], [$] and [\b], and the [i] flag). *)
Module Regex.

(** A member of a character class. *)
Inductive citem : Type :=
| IUnit (c : N)
| IRange (lo hi : N)
| ISpace
| IWord.

Inductive regex : Type :=
| Eps
| Chr (c : N)
| Cls (negated : bool) (items : list citem)
| Any
| Seq (r1 r2 : regex)
| Alt (r1 r2 : regex)
| Rep (lo : nat) (hi : option nat) (r : regex)
| Grp (i : nat) (r : regex)
| Ref (i : nat)
| Bol
| Eol
| WordB.

(** A literal sequence of code units. *)
Fixpoint lit (s : jsstring) : regex :=
  match s with
  | [] => Eps
  | [c] => Chr c
  | c :: s' => Seq (Chr c) (lit s')
  end.

(** An ordered alternation. *)
Fixpoint alts (rs : list regex) : regex :=
  match rs with
  | [] => Eps
  | [r] => r
  | r :: rs' => Alt r (alts rs')
  end.

Definition item_mem (it : citem) (c : N) : bool :=
  match it with
  | IUnit d => (c =? d)%N
  | IRange lo hi => JS.in_range lo hi c
  | ISpace => JS.is_space c
  | IWord => JS.is_word c
  end.

(** Membership of a class. Under the [i] flag a unit matches when some
    unit with the same canonical form is a member; for the ASCII letters
    these are the unit and its other case. *)
Definition cls_mem (icase : bool) (items : list citem) (c : N) : bool :=
  existsb (fun it =>
    item_mem it c ||
    (icase && (item_mem it (JS.upper_unit c) || item_mem it (JS.lower_unit c))))
    items.

Definition unit_eq (icase : bool) (a b : N) : bool :=
  if icase then (JS.upper_unit a =? JS.upper_unit b)%N else (a =? b)%N.

(** The matcher's state: the input before the current position (nearest
    unit first), the input from the current position on, and the
    captures. *)
Record mstate : Type := MState {
  before : jsstring;
  after : jsstring;
  caps : list (nat * jsstring)
}.

Definition cap_get (i : nat) (cs : list (nat * jsstring)) : option jsstring :=
  snd <$> List.find (fun p => Nat.eqb (fst p) i) cs.

Definition cap_clear (ids : list nat) (cs : list (nat * jsstring))
  : list (nat * jsstring) :=
  List.filter (fun p => negb (existsb (Nat.eqb (fst p)) ids)) cs.

(** The capture groups inside a pattern. *)
Fixpoint groups (r : regex) : list nat :=
  match r with
  | Seq a b | Alt a b => groups a ++ groups b
  | Rep _ _ a => groups a
  | Grp i a => i :: groups a
  | _ => []
  end.

(** Consume [n] units. *)
Fixpoint advance (n : nat) (st : mstate) : mstate :=
  match n, after st with
  | S n', c :: rest => advance n' (MState (c :: before st) rest (caps st))
  | _, _ => st
  end.

Definition at_word (s : jsstring) : bool :=
  match s with
  | c :: _ => JS.is_word c
  | [] => false
  end.

Fixpoint prefix_eq (icase : bool) (p s : jsstring) : bool :=
  match p, s with
  | [], _ => true
  | x :: p', y :: s' => unit_eq icase x y && prefix_eq icase p' s'
  | _ :: _, [] => false
  end.

(** RepeatMatcher of the language specification: [m] matches the
    quantified atom, [budget] bounds the number of iterations (every
    iteration past the first [lo] must consume input, so
    [lo + |input| + 1] is never reached). *)
Fixpoint repeat_match (budget : nat) (inner : list nat)
    (m : mstate -> (mstate -> bool) -> bool)
    (lo : nat) (hi : option nat) (st : mstate) (k : mstate -> bool) : bool :=
  match budget with
  | O => match lo with O => k st | S _ => false end
  | S budget' =>
      match hi with
      | Some O => k st
      | _ =>
          let again (st' : mstate) : bool :=
            if Nat.eqb lo 0 && Nat.eqb (List.length (after st')) (List.length (after st))
            then false
            else repeat_match budget' inner m (Nat.pred lo) (Nat.pred <$> hi) st' k in
          let st0 := MState (before st) (after st) (cap_clear inner (caps st)) in
          match lo with
          | S _ => m st0 again
          | O => m st0 again || k st
          end
      end
  end.

(** [rmatch icase r st k]: [r] matches at [st] and the continuation [k]
    accepts the state reached. *)
Fixpoint rmatch (icase : bool) (r : regex) (st : mstate)
    (k : mstate -> bool) : bool :=
  match r with
  | Eps => k st
  | Chr c =>
      match after st with
      | x :: _ => if unit_eq icase x c then k (advance 1 st) else false
      | [] => false
      end
  | Cls negated items =>
      match after st with
      | x :: _ =>
          if xorb negated (cls_mem icase items x) then k (advance 1 st) else false
      | [] => false
      end
  | Any =>
      match after st with
      | x :: _ => if JS.is_line_terminator x then false else k (advance 1 st)
      | [] => false
      end
  | Seq r1 r2 => rmatch icase r1 st (fun st' => rmatch icase r2 st' k)
  | Alt r1 r2 => rmatch icase r1 st k || rmatch icase r2 st k
  | Rep lo hi r' =>
      repeat_match (lo + List.length (after st) + 1) (groups r')
        (rmatch icase r') lo hi st k
  | Grp i r' =>
      rmatch icase r' st (fun st' =>
        let n := (List.length (after st) - List.length (after st'))%nat in
        k (MState (before st') (after st')
             ((i, take n (after st)) :: cap_clear [i] (caps st'))))
  | Ref i =>
      match cap_get i (caps st) with
      | None => k st
      | Some s =>
          if prefix_eq icase s (after st) then k (advance (List.length s) st)
          else false
      end
  | Bol => match before st with [] => k st | _ :: _ => false end
  | Eol => match after st with [] => k st | _ :: _ => false end
  | WordB => if xorb (at_word (before st)) (at_word (after st)) then k st else false
  end.

(** A match of [r] starting at some position at or after the current
    one, tried from left to right. *)
Fixpoint search (fuel : nat) (icase : bool) (r : regex) (st : mstate) : bool :=
  rmatch icase r st (fun _ => true) ||
  match fuel, after st with
  | S fuel', _ :: _ => search fuel' icase r (advance 1 st)
  | _, _ => false
  end.

(** A regular expression literal [/source/flags]. *)
Record RegExp : Type := { source : regex; ignoreCase : bool }.

(** [RegExp.prototype.test] of a pattern without the [g] or [y] flag. *)
Definition test (re : RegExp) (s : jsstring) : bool :=
  search (List.length s) (ignoreCase re) (source re) (MState [] s []).

End Regex.

(* ===================================================================== *)
(** ** Values, completions *)
(* ===================================================================== *)

(** An untrusted value, as a request body can carry it ([unknown] in the
    source). *)
Inductive JSValue : Type :=
| JUndefined
| JNull
| JBool (b : bool)
| JNumber (n : Z)
| JString (s : jsstring)
| JArray (items : list JSValue)
| JObject (props : list (jsstring * JSValue)).

(** [obj[key]]: the property, [undefined] when the object has none. *)
Fixpoint getProp (props : list (jsstring * JSValue)) (key : jsstring) : JSValue :=
  match props with
  | [] => JUndefined
  | (k, v) :: rest => if JS.eqb k key then v else getProp rest key
  end.

Inductive JsError : Type :=
| TypeError (msg : jsstring)
| Error (msg : jsstring).

(** How an evaluation ends: with a value, or by throwing. *)
Inductive completion (A : Type) : Type :=
| Normal (a : A)
| Throw (e : JsError).

Arguments Normal {A} a.
Arguments Throw {A} e.

(* ===================================================================== *)
(** ** The schema validator (Joi) *)
(* ===================================================================== *)

(** The part of Joi that [contactFormSchema] uses: an object schema whose
    keys are string schemas, validated with [abortEarly: false] and
    [stripUnknown: true] (and Joi's default [convert: true]). *)
Module Joi.

Inductive Presence : Type := Required | Optional.

Inductive StringRule : Type :=
| Trim
| Min (limit : Z)
| Max (limit : Z)
| Pattern (re : Regex.RegExp)
| Email.

Record StringSchema : Type := {
  rules : list StringRule;
  presence : Presence;
  allowed : list jsstring;                    (* [.allow(...)] *)
  messages : list (jsstring * jsstring)       (* [.messages({...})] *)
}.

Definition ObjectSchema : Type := list (jsstring * StringSchema).

(** One entry of [error.details]. *)
Record Detail : Type := {
  path : list jsstring;
  type : jsstring;
  message : jsstring
}.

(** What [schema.validate] returns: [error] is absent exactly when no
    rule failed; [value] is the converted object, [None] standing for
    [undefined]. Every key of the object schema is a string schema, so
    the properties of a value are strings. *)
Record Result : Type := {
  error : option (list Detail);
  value : option (list (jsstring * jsstring))
}.

Definition decimal (n : Z) : jsstring :=
  js (NilEmpty.string_of_uint (N.to_uint (Z.to_N n))).

(** Joi's message templates, [label] being the quoted key. The schema of
    the contact form overrides most of them. *)
Definition template (code label : jsstring) (limit : Z) : jsstring :=
  if JS.eqb code (js "any.required") then label ++ js " is required"
  else if JS.eqb code (js "object.base") then label ++ js " must be of type object"
  else if JS.eqb code (js "string.base") then label ++ js " must be a string"
  else if JS.eqb code (js "string.empty") then label ++ js " is not allowed to be empty"
  else if JS.eqb code (js "string.min") then
    label ++ js " length must be at least " ++ decimal limit ++ js " characters long"
  else if JS.eqb code (js "string.max") then
    label ++ js " length must be less than or equal to " ++ decimal limit
          ++ js " characters long"
  else if JS.eqb code (js "string.email") then label ++ js " must be a valid email"
  else label ++ js " fails to match the required pattern".

Definition quoted (key : jsstring) : jsstring := dquote :: key ++ [dquote].

Fixpoint custom (code : jsstring) (ms : list (jsstring * jsstring)) : option jsstring :=
  match ms with
  | [] => None
  | (c, m) :: rest => if JS.eqb c code then Some m else custom code rest
  end.

Definition report (sch : StringSchema) (key code : jsstring) (limit : Z) : Detail :=
  {| path := [key];
     type := code;
     message := default (template code (quoted key) limit) (custom code (messages sch)) |}.

Definition has_trim (sch : StringSchema) : bool :=
  existsb (fun r => match r with Trim => true | _ => false end) (rules sch).

Definition has_min0 (sch : StringSchema) : bool :=
  existsb (fun r => match r with Min l => l =? 0 | _ => false end) (rules sch).

Section Rules.

(** The address check behind [Joi.string().email(...)]; it is the
    [@sideway/address] package configured by the schema's options. *)
Variable isEmail : jsstring -> bool.

(** The error a rule raises on a string, if any. [Trim] converts and
    never fails under [convert: true]. *)
Definition check (sch : StringSchema) (key : jsstring) (s : jsstring) (r : StringRule)
  : list Detail :=
  match r with
  | Trim => []
  | Min l => if JS.length s <? l then [report sch key (js "string.min") l] else []
  | Max l => if l <? JS.length s then [report sch key (js "string.max") l] else []
  | Pattern re =>
      if Regex.test re s then [] else [report sch key (js "string.pattern.base") 0]
  | Email => if isEmail s then [] else [report sch key (js "string.email") 0]
  end.

(** A key's value against its string schema: the errors, and the
    converted value ([None] for [undefined]). With [abortEarly: false]
    every failing rule reports; a value that is absent, not a string or
    empty reports once and its rules are not run. *)
Definition validateString (key : jsstring) (sch : StringSchema) (item : JSValue)
  : list Detail * option jsstring :=
  match item with
  | JUndefined =>
      match presence sch with
      | Required => ([report sch key (js "any.required") 0], None)
      | Optional => ([], None)
      end
  | JString s =>
      let s' := if has_trim sch then JS.trim s else s in
      if existsb (JS.eqb s') (allowed sch) then ([], Some s')
      else match s' with
           | [] =>
               if has_min0 sch then ([], Some s')
               else ([report sch key (js "string.empty") 0], Some s')
           | _ :: _ => (flat_map (check sch key s') (rules sch), Some s')
           end
  | _ => ([report sch key (js "string.base") 0], None)
  end.

(** The keys of the schema in order, each against its property;
    properties the schema does not name are dropped. *)
Fixpoint validateKeys (schema : ObjectSchema) (props : list (jsstring * JSValue))
  : list Detail * list (jsstring * jsstring) :=
  match schema with
  | [] => ([], [])
  | (key, sch) :: rest =>
      let '(errs, v) := validateString key sch (getProp props key) in
      let '(errs', vs) := validateKeys rest props in
      (errs ++ errs', match v with Some s => (key, s) :: vs | None => vs end)
  end.

(** [Joi.object(schema).validate(data, {abortEarly: false, stripUnknown:
    true})]. An object schema is optional unless made required, so
    [undefined] passes and is returned as it is. *)
Definition validate (schema : ObjectSchema) (data : JSValue) : Result :=
  match data with
  | JUndefined => {| error := None; value := None |}
  | JObject props =>
      let '(errs, vs) := validateKeys schema props in
      {| error := match errs with [] => None | _ :: _ => Some errs end;
         value := Some vs |}
  | _ =>
      {| error := Some [ {| path := [];
                            type := js "object.base";
                            message := template (js "object.base") (quoted (js "value")) 0 |} ];
         value := None |}
  end.

End Rules.

End Joi.

(** [value[key]] on a validated object. *)
Fixpoint field (vs : list (jsstring * jsstring)) (key : jsstring) : option jsstring :=
  match vs with
  | [] => None
  | (k, v) :: rest => if JS.eqb k key then Some v else field rest key
  end.

(* ===================================================================== *)
(** ** The sanitizer (DOMPurify over an HTML parser) *)
(* ===================================================================== *)

(** The sources call [purify.sanitize], the third-party DOMPurify
    library bound to a DOM window. This is a model of what the library
    does to a string: parse it as an HTML document, walk the body
    removing what the configuration does not allow, and serialize the
    body again ([innerHTML]); the output is not parsed a second time.

    The tree constructor covers the in-body rules for ordinary, void and
    raw-text elements, the elements that belong to the document head,
    paragraph closing and element scopes. Tables, [select], templates,
    foreign (SVG, MathML) content, list-item closing and the
    reconstruction of misnested formatting elements are outside the
    model, and so are character references beyond the five that the
    serializer writes. *)
Module HTML.

Inductive node : Type :=
| Text (data : jsstring)
| Comment (data : jsstring)
| Element (tag : jsstring) (attrs : list (jsstring * jsstring)) (children : list node).

Inductive token : Type :=
| TText (data : jsstring)
| TComment (data : jsstring)
| TStart (tag : jsstring) (attrs : list (jsstring * jsstring))
| TEnd (tag : jsstring).

Definition LT : N := 60%N.
Definition GT : N := 62%N.
Definition SLASH : N := 47%N.
Definition AMP : N := 38%N.
Definition NBSP : N := 160%N.

Definition is_ws (c : N) : bool :=
  ((c =? 9) || (c =? 10) || (c =? 12) || (c =? 13) || (c =? 32))%N.

Definition mem (tag : jsstring) (tags : list jsstring) : bool :=
  existsb (JS.eqb tag) tags.

Fixpoint span (p : N -> bool) (s : jsstring) : jsstring * jsstring :=
  match s with
  | c :: s' => if p c then let '(a, b) := span p s' in (c :: a, b) else ([], s)
  | [] => ([], [])
  end.

(** The text before the first occurrence of [stop], and what follows
    that occurrence; [None] when there is none. *)
Fixpoint until (stop : jsstring) (s : jsstring) : option (jsstring * jsstring) :=
  if JS.startsWith stop s then Some ([], drop (List.length stop) s)
  else match s with
       | [] => None
       | c :: s' =>
           match until stop s' with
           | Some (a, b) => Some (c :: a, b)
           | None => None
           end
       end.

(** Character references: [&amp;], [&lt;], [&gt;], [&quot;], [&nbsp;]. *)
Fixpoint decode_fuel (fuel : nat) (s : jsstring) : jsstring :=
  match fuel, s with
  | O, _ | _, [] => []
  | S fuel', c :: s' =>
      if (c =? AMP)%N then
        if JS.startsWith (js "amp;") s' then AMP :: decode_fuel fuel' (drop 4 s')
        else if JS.startsWith (js "lt;") s' then LT :: decode_fuel fuel' (drop 3 s')
        else if JS.startsWith (js "gt;") s' then GT :: decode_fuel fuel' (drop 3 s')
        else if JS.startsWith (js "quot;") s' then dquote :: decode_fuel fuel' (drop 5 s')
        else if JS.startsWith (js "nbsp;") s' then NBSP :: decode_fuel fuel' (drop 5 s')
        else c :: decode_fuel fuel' s'
      else c :: decode_fuel fuel' s'
  end.

Definition decode (s : jsstring) : jsstring := decode_fuel (List.length s) s.

Definition tag_unit (c : N) : bool :=
  negb (is_ws c || (c =? SLASH) || (c =? GT))%N.

Definition attr_name_unit (c : N) : bool :=
  negb (is_ws c || (c =? SLASH) || (c =? GT) || (c =? 61))%N.

Definition add_attr (name value : jsstring) (acc : list (jsstring * jsstring))
  : list (jsstring * jsstring) :=
  if existsb (fun p => JS.eqb (fst p) name) acc then acc else acc ++ [(name, value)].

(** The attributes of a tag up to its closing [>], and the input after
    it; [None] when the input ends inside the tag. *)
Fixpoint attributes (fuel : nat) (s : jsstring) (acc : list (jsstring * jsstring))
  : option (list (jsstring * jsstring) * jsstring) :=
  match fuel, s with
  | O, _ | _, [] => None
  | S fuel', c :: s' =>
      if is_ws c || (c =? SLASH)%N then attributes fuel' s' acc
      else if (c =? GT)%N then Some (acc, s')
      else
        let '(name1, r1) := span attr_name_unit s' in
        let name := JS.toLowerCase (c :: name1) in
        let r2 := snd (span is_ws r1) in
        match r2 with
        | e :: r3 =>
            if (e =? 61)%N then
              let r4 := snd (span is_ws r3) in
              match r4 with
              | q :: r5 =>
                  if (q =? dquote)%N || (q =? 39)%N then
                    match until [q] r5 with
                    | Some (v, r6) => attributes fuel' r6 (add_attr name (decode v) acc)
                    | None => None
                    end
                  else if (q =? GT)%N then attributes fuel' r4 (add_attr name [] acc)
                  else
                    let '(v, r6) := span (fun x => negb (is_ws x || (x =? GT)%N)) r4 in
                    attributes fuel' r6 (add_attr name (decode v) acc)
              | [] => None
              end
            else attributes fuel' r2 (add_attr name [] acc)
        | [] => None
        end
  end.

(** Elements whose content the tokenizer reads as text up to their end
    tag. *)
Definition raw_text_tags : list jsstring :=
  map js ["script"; "style"; "xmp"; "iframe"; "noembed"; "noframes"]%string.
Definition rcdata_tags : list jsstring := map js ["textarea"; "title"]%string.

(** The raw text up to the end tag of [tag], the input after that end
    tag, and whether the end tag was found. *)
Fixpoint raw_until (fuel : nat) (tag : jsstring) (s : jsstring)
  : jsstring * jsstring * bool :=
  match fuel, s with
  | O, _ | _, [] => ([], [], false)
  | S fuel', c :: s' =>
      let close := LT :: SLASH :: tag in
      let rest := drop (List.length close) s in
      if JS.startsWith close (JS.toLowerCase (take (List.length close) s))
         && match rest with
            | d :: _ => is_ws d || (d =? SLASH)%N || (d =? GT)%N
            | [] => false
            end
      then match attributes (List.length rest) rest [] with
           | Some (_, r) => ([], r, true)
           | None => ([], [], false)
           end
      else let '(a, b, found) := raw_until fuel' tag s' in (c :: a, b, found)
  end.

Fixpoint tokenize (fuel : nat) (s : jsstring) : list token :=
  match fuel, s with
  | O, _ | _, [] => []
  | S fuel', c :: rest =>
      if negb (c =? LT)%N then
        let '(txt, r) := span (fun x => negb (x =? LT)%N) s in
        TText (decode txt) :: tokenize fuel' r
      else
        match rest with
        | d :: rest' =>
            if JS.is_alpha d then
              let '(name, r1) := span tag_unit rest in
              let tag := JS.toLowerCase name in
              match attributes (List.length r1) r1 [] with
              | None => []
              | Some (attrs, r2) =>
                  if mem tag raw_text_tags || mem tag rcdata_tags then
                    let '(txt, r3, found) := raw_until (List.length r2) tag r2 in
                    let txt' := if mem tag rcdata_tags then decode txt else txt in
                    TStart tag attrs ::
                    (match txt' with [] => [] | _ :: _ => [TText txt'] end) ++
                    (if found then [TEnd tag] else []) ++ tokenize fuel' r3
                  else TStart tag attrs :: tokenize fuel' r2
              end
            else if (d =? SLASH)%N then
              match rest' with
              | [] => [TText [LT; SLASH]]
              | e :: rest'' =>
                  if JS.is_alpha e then
                    let '(name, r1) := span tag_unit rest' in
                    match attributes (List.length r1) r1 [] with
                    | None => []
                    | Some (_, r2) => TEnd (JS.toLowerCase name) :: tokenize fuel' r2
                    end
                  else if (e =? GT)%N then tokenize fuel' rest''
                  else match until [GT] rest' with
                       | Some (data, r) => TComment data :: tokenize fuel' r
                       | None => [TComment rest']
                       end
              end
            else if (d =? 33)%N then
              if JS.startsWith (js "--") rest' then
                let body := drop 2 rest' in
                if JS.startsWith [GT] body then TComment [] :: tokenize fuel' (drop 1 body)
                else if JS.startsWith (js "->") body then
                  TComment [] :: tokenize fuel' (drop 2 body)
                else match until (js "-->") body with
                     | Some (data, r) => TComment data :: tokenize fuel' r
                     | None => [TComment body]
                     end
              else match until [GT] rest' with
                   | Some (data, r) => TComment data :: tokenize fuel' r
                   | None => [TComment rest']
                   end
            else if (d =? 63)%N then
              match until [GT] rest with
              | Some (data, r) => TComment data :: tokenize fuel' r
              | None => [TComment rest]
              end
            else TText [LT] :: tokenize fuel' rest
        | [] => [TText [LT]]
        end
  end.

(** *** Tree construction *)

(** An open element: its tag, attributes and the children inserted so
    far, latest first. *)
Definition frame : Type := (jsstring * list (jsstring * jsstring) * list node)%type.

Definition void_tags : list jsstring :=
  map js ["area"; "base"; "basefont"; "bgsound"; "br"; "col"; "embed"; "hr"; "img";
          "input"; "keygen"; "link"; "meta"; "param"; "source"; "track"; "wbr"]%string.

(** Start tags that first close an open [p]. *)
Definition closes_p : list jsstring :=
  map js ["address"; "article"; "aside"; "blockquote"; "center"; "details";
          "dialog"; "dir"; "div"; "dl"; "fieldset"; "figcaption"; "figure";
          "footer"; "header"; "hgroup"; "main"; "menu"; "nav"; "ol"; "p";
          "search"; "section"; "summary"; "ul"; "h1"; "h2"; "h3"; "h4"; "h5";
          "h6"; "pre"; "listing"; "form"; "hr"; "xmp"]%string.

Definition headings : list jsstring :=
  map js ["h1"; "h2"; "h3"; "h4"; "h5"; "h6"]%string.

(** The elements that bound a scope. *)
Definition scope_markers : list jsstring :=
  map js ["applet"; "caption"; "html"; "table"; "td"; "th"; "marquee"; "object";
          "template"]%string.
Definition button_scope_markers : list jsstring := js "button" :: scope_markers.

Definition push_node (n : node) (kids : list node) : list node :=
  match n, kids with
  | Text s, Text t :: kids' => Text (t ++ s) :: kids'
  | _, _ => n :: kids
  end.

Definition add_child (n : node) (st : list frame) : list frame :=
  match st with
  | (t, a, kids) :: below => (t, a, push_node n kids) :: below
  | [] => []
  end.

(** The stack has an element [tag] in the scope bounded by [markers]. *)
Fixpoint in_scope (markers : list jsstring) (tag : jsstring) (st : list frame) : bool :=
  match st with
  | (t, _, _) :: ((_ :: _) as below) =>
      if JS.eqb t tag then true
      else if mem t markers then false
      else in_scope markers tag below
  | _ => false
  end.

(** Pop elements up to and including the nearest [tag]; the bottom frame
    (the body) stays. *)
Fixpoint pop_until (fuel : nat) (tag : jsstring) (st : list frame) : list frame :=
  match fuel, st with
  | S fuel', (t, a, kids) :: ((_ :: _) as below) =>
      let st' := add_child (Element t a (rev kids)) below in
      if JS.eqb t tag then st' else pop_until fuel' tag st'
  | _, _ => st
  end.

Definition top_is (tags : list jsstring) (st : list frame) : bool :=
  match st with
  | (t, _, _) :: _ :: _ => mem t tags
  | _ => false
  end.

Definition start_tag (tag : jsstring) (attrs : list (jsstring * jsstring))
    (st : list frame) : list frame :=
  if mem tag (map js ["html"; "head"; "body"; "frame"; "frameset"]%string) then st
  else
    let st1 := if mem tag closes_p && in_scope button_scope_markers (js "p") st
               then pop_until (List.length st) (js "p") st else st in
    let st2 := if mem tag headings && top_is headings st1
               then pop_until 1 (fst (fst (List.hd (tag, [], []) st1))) st1 else st1 in
    if mem tag void_tags then add_child (Element tag attrs []) st2
    else (tag, attrs, []) :: st2.

Definition end_tag (tag : jsstring) (st : list frame) : list frame :=
  if JS.eqb tag (js "p") then
    if in_scope button_scope_markers tag st then pop_until (List.length st) tag st
    else add_child (Element tag [] []) st
  else if JS.eqb tag (js "br") then add_child (Element tag [] []) st
  else if mem tag (map js ["html"; "head"; "body"]%string) then st
  else if in_scope scope_markers tag st then pop_until (List.length st) tag st
  else st.

Definition step (st : list frame) (t : token) : list frame :=
  match t with
  | TText s => add_child (Text s) st
  | TComment s => add_child (Comment s) st
  | TStart tag attrs => start_tag tag attrs st
  | TEnd tag => end_tag tag st
  end.

(** Close every element still open and return the children of the body. *)
Fixpoint finish (fuel : nat) (st : list frame) : list node :=
  match fuel, st with
  | S fuel', (t, a, kids) :: ((_ :: _) as below) =>
      finish fuel' (add_child (Element t a (rev kids)) below)
  | _, [(_, _, kids)] => rev kids
  | _, _ => []
  end.

(** What precedes the body: comments, white space and the elements of
    the document head are not children of the body. *)
Definition head_void : list jsstring :=
  map js ["base"; "basefont"; "bgsound"; "link"; "meta"]%string.
Definition head_raw : list jsstring :=
  map js ["script"; "style"; "title"; "noframes"]%string.

Fixpoint skip_head (ts : list token) : list token :=
  match ts with
  | TComment _ :: rest => skip_head rest
  | TText s :: rest =>
      match snd (span is_ws s) with
      | [] => skip_head rest
      | s' => TText s' :: rest
      end
  | TStart tag attrs :: rest =>
      if mem tag head_void then skip_head rest
      else if mem tag head_raw then
        skip_head match rest with
                  | TText _ :: TEnd _ :: rest' => rest'
                  | TText _ :: rest' => rest'
                  | TEnd _ :: rest' => rest'
                  | _ => rest
                  end
      else if mem tag (map js ["html"; "head"]%string) then skip_head rest
      else ts
  | TEnd tag :: rest =>
      if mem tag (map js ["body"; "html"; "br"]%string) then ts else skip_head rest
  | [] => []
  end.

(** The children of the body of the document parsed from [s]. *)
Definition parse (s : jsstring) : list node :=
  let ts := skip_head (tokenize (S (List.length s)) s) in
  let st := fold_left step ts [(js "body", [], [])] in
  finish (List.length st) st.

(** *** Serialization ([innerHTML]) *)

Fixpoint escape_text (s : jsstring) : jsstring :=
  match s with
  | [] => []
  | c :: s' =>
      (if (c =? AMP)%N then js "&amp;"
       else if (c =? LT)%N then js "&lt;"
       else if (c =? GT)%N then js "&gt;"
       else if (c =? NBSP)%N then js "&nbsp;"
       else [c]) ++ escape_text s'
  end.

Fixpoint escape_attr (s : jsstring) : jsstring :=
  match s with
  | [] => []
  | c :: s' =>
      (if (c =? AMP)%N then js "&amp;"
       else if (c =? dquote)%N then js "&quot;"
       else if (c =? NBSP)%N then js "&nbsp;"
       else [c]) ++ escape_attr s'
  end.

Definition serialize_attr (a : jsstring * jsstring) : jsstring :=
  js " " ++ fst a ++ js "=" ++ [dquote] ++ escape_attr (snd a) ++ [dquote].

Fixpoint serialize_node (raw : bool) (n : node) : jsstring :=
  match n with
  | Text s => if raw then s else escape_text s
  | Comment s => js "<!--" ++ s ++ js "-->"
  | Element tag attrs kids =>
      [LT] ++ tag ++ flat_map serialize_attr attrs ++ [GT] ++
      (if mem tag void_tags then []
       else flat_map (serialize_node (mem tag raw_text_tags)) kids
            ++ [LT; SLASH] ++ tag ++ [GT])
  end.

Definition serialize (ns : list node) : jsstring := flat_map (serialize_node false) ns.

(** [textContent]. *)
Fixpoint text_content (n : node) : jsstring :=
  match n with
  | Text s => s
  | Comment _ => []
  | Element _ _ kids => flat_map text_content kids
  end.

End HTML.

Module DOMPurify.

Import Regex.

(** The two options the sources set; an option left out keeps the
    library's default. *)
Record Config : Type := {
  ALLOWED_TAGS : option (list jsstring);
  ALLOWED_ATTR : option (list jsstring)
}.

Definition no_config : Config := {| ALLOWED_TAGS := None; ALLOWED_ATTR := None |}.

(** The library's HTML profile. By default the library also allows the
    elements of its SVG and MathML profiles; foreign content is outside
    the model (see [HTML]), in which such elements count as not
    allowed. *)
Definition DEFAULT_ALLOWED_TAGS : list jsstring :=
  map js ["a"; "abbr"; "acronym"; "address"; "area"; "article"; "aside"; "audio";
          "b"; "bdi"; "bdo"; "big"; "blink"; "blockquote"; "body"; "br"; "button";
          "canvas"; "caption"; "center"; "cite"; "code"; "col"; "colgroup";
          "content"; "data"; "datalist"; "dd"; "decorator"; "del"; "details";
          "dfn"; "dialog"; "dir"; "div"; "dl"; "dt"; "element"; "em"; "fieldset";
          "figcaption"; "figure"; "font"; "footer"; "form"; "h1"; "h2"; "h3";
          "h4"; "h5"; "h6"; "head"; "header"; "hgroup"; "hr"; "html"; "i"; "img";
          "input"; "ins"; "kbd"; "label"; "legend"; "li"; "main"; "map"; "mark";
          "marquee"; "menu"; "menuitem"; "meter"; "nav"; "nobr"; "ol"; "optgroup";
          "option"; "output"; "p"; "picture"; "pre"; "progress"; "q"; "rp"; "rt";
          "ruby"; "s"; "samp"; "section"; "select"; "shadow"; "small"; "source";
          "spacer"; "span"; "strike"; "strong"; "style"; "sub"; "summary"; "sup";
          "table"; "tbody"; "td"; "template"; "textarea"; "tfoot"; "th"; "thead";
          "time"; "tr"; "track"; "tt"; "u"; "ul"; "var"; "video"; "wbr"]%string.

Definition DEFAULT_ALLOWED_ATTR : list jsstring :=
  map js ["accept"; "action"; "align"; "alt"; "autocapitalize"; "autocomplete";
          "autopictureinpicture"; "autoplay"; "background"; "bgcolor"; "border";
          "capture"; "cellpadding"; "cellspacing"; "checked"; "cite"; "class";
          "clear"; "color"; "cols"; "colspan"; "controls"; "controlslist";
          "coords"; "crossorigin"; "datetime"; "decoding"; "default"; "dir";
          "disabled"; "disablepictureinpicture"; "disableremoteplayback";
          "download"; "draggable"; "enctype"; "enterkeyhint"; "face"; "for";
          "headers"; "height"; "hidden"; "high"; "href"; "hreflang"; "id";
          "inputmode"; "integrity"; "ismap"; "kind"; "label"; "lang"; "list";
          "loading"; "loop"; "low"; "max"; "maxlength"; "media"; "method"; "min";
          "minlength"; "multiple"; "muted"; "name"; "nonce"; "noshade";
          "novalidate"; "nowrap"; "open"; "optimum"; "pattern"; "placeholder";
          "playsinline"; "popover"; "popovertarget"; "popovertargetaction";
          "poster"; "preload"; "pubdate"; "radiogroup"; "readonly"; "rel";
          "required"; "rev"; "reversed"; "role"; "rows"; "rowspan"; "spellcheck";
          "scope"; "selected"; "shape"; "size"; "sizes"; "span"; "srclang";
          "start"; "src"; "srcset"; "step"; "style"; "summary"; "tabindex";
          "title"; "translate"; "type"; "usemap"; "valign"; "value"; "width";
          "wrap"; "xmlns"; "slot"]%string.

(** Elements removed together with their content. *)
Definition FORBID_CONTENTS : list jsstring :=
  map js ["annotation-xml"; "audio"; "colgroup"; "desc"; "foreignobject"; "head";
          "iframe"; "math"; "mi"; "mn"; "mo"; "ms"; "mtext"; "noembed";
          "noframes"; "noscript"; "plaintext"; "script"; "style"; "svg";
          "template"; "thead"; "title"; "video"; "xmp"]%string.

Definition URI_SAFE_ATTRIBUTES : list jsstring :=
  map js ["alt"; "class"; "for"; "id"; "label"; "name"; "pattern"; "placeholder";
          "role"; "summary"; "title"; "value"; "style"; "xmlns"]%string.

Definition DATA_URI_TAGS : list jsstring :=
  map js ["image"; "img"; "source"; "video"; "audio"; "track"]%string.

Definition letters : citem := IRange 97 122.
Definition scheme_units : list citem := [letters; IUnit 43; IUnit 46; IUnit 45].

(** [/^(?:(?:(?:f|ht)tps?|mailto|tel|callto|sms|cid|xmpp|matrix):|[^a-z]|[a-z+.\-]+(?:[^a-z+.\-:]|$))/i] *)
Definition IS_ALLOWED_URI : RegExp :=
  {| source :=
       Seq Bol
         (alts [ Seq (alts [ Seq (Alt (lit (js "f")) (lit (js "ht")))
                                 (Seq (lit (js "tp")) (Rep 0 (Some 1%nat) (lit (js "s"))));
                             lit (js "mailto"); lit (js "tel"); lit (js "callto");
                             lit (js "sms"); lit (js "cid"); lit (js "xmpp");
                             lit (js "matrix") ])
                     (lit (js ":"));
                 Cls true [letters];
                 Seq (Rep 1 None (Cls false scheme_units))
                     (Alt (Cls true (scheme_units ++ [IUnit 58])) Eol) ]);
     ignoreCase := true |}.

(** [/^data-[\-\w.\u00B7-\uFFFF]+$/] *)
Definition DATA_ATTR : RegExp :=
  {| source := Seq Bol (Seq (lit (js "data-"))
                 (Seq (Rep 1 None (Cls false [IUnit 45; IWord; IUnit 46; IRange 183 65535])) Eol));
     ignoreCase := false |}.

(** [/^aria-[\-\w]+$/] *)
Definition ARIA_ATTR : RegExp :=
  {| source := Seq Bol (Seq (lit (js "aria-"))
                 (Seq (Rep 1 None (Cls false [IUnit 45; IWord])) Eol));
     ignoreCase := false |}.

(** [/<[/\w!]/], the markup test of the mutation check. *)
Definition MARKUP : RegExp :=
  {| source := Seq (Chr HTML.LT) (Cls false [IUnit 47; IWord; IUnit 33]);
     ignoreCase := false |}.

(** [/[\u0000-\u0020\u00A0\u1680\u180E\u2000-\u2029\u205F\u3000]/] *)
Definition attr_whitespace (c : N) : bool :=
  (JS.in_range 0 32 c || (c =? 160) || (c =? 5760) || (c =? 6158)
   || JS.in_range 8192 8233 c || (c =? 8287) || (c =? 12288))%N.

Definition allowed_tags (cfg : Config) : list jsstring :=
  match ALLOWED_TAGS cfg with
  | Some tags => map JS.toLowerCase tags
  | None => DEFAULT_ALLOWED_TAGS
  end.

Definition allowed_attr (cfg : Config) : list jsstring :=
  match ALLOWED_ATTR cfg with
  | Some names => map JS.toLowerCase names
  | None => DEFAULT_ALLOWED_ATTR
  end.

Definition isValidAttribute (cfg : Config) (lcTag lcName value : jsstring) : bool :=
  if test DATA_ATTR lcName then true
  else if test ARIA_ATTR lcName then true
  else if negb (HTML.mem lcName (allowed_attr cfg)) then false
  else if HTML.mem lcName URI_SAFE_ATTRIBUTES then true
  else if test IS_ALLOWED_URI (List.filter (fun c => negb (attr_whitespace c)) value) then true
  else if HTML.mem lcName (map js ["src"; "xlink:href"; "href"]%string)
          && negb (JS.eqb lcTag (js "script"))
          && JS.startsWith (js "data:") value
          && HTML.mem lcTag DATA_URI_TAGS then true
  else match value with [] => true | _ :: _ => false end.

(** The attributes that stay, each with its value trimmed (the [value]
    attribute apart). *)
Definition sanitizeAttributes (cfg : Config) (tag : jsstring)
    (attrs : list (jsstring * jsstring)) : list (jsstring * jsstring) :=
  flat_map (fun a =>
    let name := fst a in
    let value := if JS.eqb name (js "value") then snd a else JS.trim (snd a) in
    if JS.includes (js "/>") value then []
    else if isValidAttribute cfg tag (JS.toLowerCase name) value then [(name, value)]
    else []) attrs.

Definition is_element (n : HTML.node) : bool :=
  match n with HTML.Element _ _ _ => true | _ => false end.

(** An element without element children whose markup and text both
    still read as markup is removed whole. *)
Definition mutation_suspect (tag : jsstring) (kids : list HTML.node) : bool :=
  match kids with
  | [] => false
  | _ :: _ =>
      negb (existsb is_element kids)
      && test MARKUP (flat_map (HTML.serialize_node (HTML.mem tag HTML.raw_text_tags)) kids)
      && test MARKUP (flat_map HTML.text_content kids)
  end.

(** What a node leaves in the tree: a comment nothing; an element that
    is not allowed its sanitized children ([KEEP_CONTENT]), or nothing
    when its content is forbidden too; an allowed element itself, with
    the attributes that stay. *)
Fixpoint sanitizeNode (cfg : Config) (n : HTML.node) : list HTML.node :=
  match n with
  | HTML.Text s => [HTML.Text s]
  | HTML.Comment _ => []
  | HTML.Element tag attrs kids =>
      if mutation_suspect tag kids then []
      else
        let kids' := flat_map (sanitizeNode cfg) kids in
        if HTML.mem tag (allowed_tags cfg) then
          [HTML.Element tag (sanitizeAttributes cfg tag attrs) kids']
        else if HTML.mem tag FORBID_CONTENTS then []
        else kids'
  end.

(** The white space [/^[\r\n\t ]+/] the library puts back in front. *)
Definition leading_whitespace (s : jsstring) : jsstring :=
  fst (HTML.span (fun c => ((c =? 13) || (c =? 10) || (c =? 9) || (c =? 32))%N) s).

(** [DOMPurify.sanitize(dirty, cfg)] on a string. Input without a [<]
    is returned as it is, before any parsing. *)
Definition sanitize (cfg : Config) (dirty : jsstring) : jsstring :=
  match dirty with
  | [] => []
  | _ :: _ =>
      if negb (JS.includes [HTML.LT] dirty) then dirty
      else leading_whitespace dirty
           ++ HTML.serialize (flat_map (sanitizeNode cfg) (HTML.parse dirty))
  end.

End DOMPurify.

(* ===================================================================== *)
(** ** The address check behind Joi's [email] rule *)
(* ===================================================================== *)

(** A model of the [@sideway/address] analysis for ASCII addresses: one
    [@], a dot-separated local part of atoms, and a domain of at least
    [minDomainSegments] labels ending in an allowed top-level domain.
    Addresses with units above U+007F are outside the model and are
    rejected by it. *)
Module Address.

Import Regex.

(** [/^[\w!#\$%&'\*\+\-/=\?\^`\{\|\}~]+$/] *)
Definition atextRx : RegExp :=
  {| source := Seq Bol (Seq (Rep 1 None
       (Cls false [IWord; IUnit 33; IUnit 35; IUnit 36; IUnit 37; IUnit 38; IUnit 39;
                   IUnit 42; IUnit 43; IUnit 45; IUnit 47; IUnit 61; IUnit 63;
                   IUnit 94; IUnit 96; IUnit 123; IUnit 124; IUnit 125; IUnit 126])) Eol);
     ignoreCase := false |}.

Definition alnum : list citem := [IRange 97 122; IRange 65 90; IRange 48 57].

(** [/^[a-zA-Z0-9](?:[a-zA-Z0-9\-]*[a-zA-Z0-9])?$/] *)
Definition domainSegmentRx : RegExp :=
  {| source := Seq Bol (Seq (Cls false alnum)
       (Seq (Rep 0 (Some 1%nat)
               (Seq (Rep 0 None (Cls false (alnum ++ [IUnit 45]))) (Cls false alnum)))
            Eol));
     ignoreCase := false |}.

(** [/^[a-zA-Z](?:[a-zA-Z0-9\-]*[a-zA-Z0-9])?$/] *)
Definition tldSegmentRx : RegExp :=
  {| source := Seq Bol (Seq (Cls false [IRange 97 122; IRange 65 90])
       (Seq (Rep 0 (Some 1%nat)
               (Seq (Rep 0 None (Cls false (alnum ++ [IUnit 45]))) (Cls false alnum)))
            Eol));
     ignoreCase := false |}.

Fixpoint domain_segments (tlds : list jsstring) (segs : list jsstring) : bool :=
  match segs with
  | [] => true
  | [tld] =>
      (0 <? JS.length tld) && (JS.length tld <=? 63) && test tldSegmentRx tld
      && HTML.mem (JS.toLowerCase tld) tlds
  | seg :: rest =>
      (0 <? JS.length seg) && (JS.length seg <=? 63) && test domainSegmentRx seg
      && domain_segments tlds rest
  end.

Definition isValid (minDomainSegments : nat) (tlds : list jsstring) (email : jsstring)
  : bool :=
  forallb (fun c => (c <=? 127)%N) email &&
  match JS.split 64 email with
  | [local; domain] =>
      (0 <? JS.length local) && (JS.length email <=? 254) && (JS.length local <=? 64)
      && forallb (fun seg => (0 <? JS.length seg) && test atextRx seg) (JS.split 46 local)
      && (0 <? JS.length domain) && (JS.length domain <=? 256)
      && (minDomainSegments <=? List.length (JS.split 46 domain))%nat
      && domain_segments tlds (JS.split 46 domain)
  | _ => false
  end.

(** A few entries of the IANA list that [tlds: { allow: true }] selects. *)
Definition tlds : list jsstring :=
  map js ["com"; "org"; "net"; "edu"; "gov"; "io"; "dev"; "me"; "uk"; "de"]%string.

End Address.


(* ===================================================================== *)
(** ** [src/shared/types.ts] *)
(* ===================================================================== *)

Module ContactFormRequest.
Record t : Type := mk {
  name : jsstring;
  email : jsstring;
  subject : option jsstring;
  message : jsstring
}.
End ContactFormRequest.

Module ValidationError.
Record t : Type := mk { field : jsstring; message : jsstring }.
End ValidationError.

Module ContactFormResponse.
Record t : Type := mk { success : bool; message : jsstring; id : option jsstring }.
End ContactFormResponse.

Module ApiError.
Record t : Type := mk {
  code : jsstring;
  message : jsstring;
  details : option (list ValidationError.t);
  timestamp : jsstring
}.
End ApiError.

Inductive LogLevel : Type := DEBUG | INFO | WARN | ERROR.

(* ===================================================================== *)
(** ** [src/shared/validation.ts] *)
(* ===================================================================== *)

Import Regex.

(** [/^[a-zA-Z\s\-'\.]+$/] *)
Definition namePattern : RegExp :=
  {| source := Seq Bol (Seq (Rep 1 None
       (Cls false [IRange 97 122; IRange 65 90; ISpace; IUnit 45; IUnit 39; IUnit 46]))
       Eol);
     ignoreCase := false |}.

(** The four keys of [contactFormSchema]. *)
Definition nameSchema : Joi.StringSchema :=
  {| Joi.rules := [Joi.Trim; Joi.Min 1; Joi.Max 100; Joi.Pattern namePattern];
     Joi.presence := Joi.Required;
     Joi.allowed := [];
     Joi.messages :=
       [ (js "string.empty", js "Name is required");
         (js "string.min", js "Name must be at least 1 character long");
         (js "string.max", js "Name must be less than 100 characters");
         (js "string.pattern.base", js "Name contains invalid characters") ] |}.

Definition emailSchema : Joi.StringSchema :=
  {| Joi.rules := [Joi.Email; Joi.Max 254];
     Joi.presence := Joi.Required;
     Joi.allowed := [];
     Joi.messages :=
       [ (js "string.email", js "Please provide a valid email address");
         (js "string.empty", js "Email is required");
         (js "string.max", js "Email must be less than 254 characters") ] |}.

Definition subjectSchema : Joi.StringSchema :=
  {| Joi.rules := [Joi.Trim; Joi.Max 200];
     Joi.presence := Joi.Optional;
     Joi.allowed := [ [] ];
     Joi.messages :=
       [ (js "string.max", js "Subject must be less than 200 characters") ] |}.

Definition messageSchema : Joi.StringSchema :=
  {| Joi.rules := [Joi.Trim; Joi.Min 10; Joi.Max 5000];
     Joi.presence := Joi.Required;
     Joi.allowed := [];
     Joi.messages :=
       [ (js "string.empty", js "Message is required");
         (js "string.min", js "Message must be at least 10 characters long");
         (js "string.max", js "Message must be less than 5000 characters") ] |}.

Definition contactFormSchema : Joi.ObjectSchema :=
  [ (js "name", nameSchema);
    (js "email", emailSchema);
    (js "subject", subjectSchema);
    (js "message", messageSchema) ].

(** What [validateContactForm] returns: [{ isValid, sanitizedData?,
    errors? }]. *)
Record Validation : Type := {
  isValid : bool;
  sanitizedData : option ContactFormRequest.t;
  errors : option (list ValidationError.t)
}.

(** The sanitizer's two modes in the sources: [purify.sanitize(x)] with
    no configuration, and [sanitizeHtml]'s allow-list. *)
Definition htmlConfig : DOMPurify.Config :=
  {| DOMPurify.ALLOWED_TAGS := Some (map js ["p"; "br"; "strong"; "em"; "u"]%string);
     DOMPurify.ALLOWED_ATTR := Some [] |}.

(** [/\b(?:viagra|cialis|casino|poker|lottery|winner|congratulations)\b/i],
    [/\b(?:click here|free money|make money fast|work from home)\b/i],
    [/(?:https?:\/\/[^\s]+){3,}/i], [/(.)\1{10,}/], [/[^\x00-\x7F]{20,}/]. *)
Definition spamPatterns : list RegExp :=
  [ {| source := Seq WordB (Seq (alts (map (fun w => lit (js w))
         ["viagra"; "cialis"; "casino"; "poker"; "lottery"; "winner";
          "congratulations"]%string)) WordB);
       ignoreCase := true |};
    {| source := Seq WordB (Seq (alts (map (fun w => lit (js w))
         ["click here"; "free money"; "make money fast"; "work from home"]%string))
         WordB);
       ignoreCase := true |};
    {| source := Rep 3 None
         (Seq (lit (js "http"))
            (Seq (Rep 0 (Some 1%nat) (Chr 115))
               (Seq (lit (js "://")) (Rep 1 None (Cls true [ISpace])))));
       ignoreCase := true |};
    {| source := Seq (Grp 1 Any) (Rep 10 None (Ref 1)); ignoreCase := false |};
    {| source := Rep 20 None (Cls true [IRange 0 127]); ignoreCase := false |} ].

(** [isSpam]: some pattern matches the lower-cased content. *)
Definition isSpam (content : jsstring) : bool :=
  let cleanContent := JS.toLowerCase content in
  existsb (fun pattern => test pattern cleanContent) spamPatterns.

(** The [RateLimiter] class: its [requests] map is the state, passed in
    and out; [now] is what [Date.now()] returns at the call. *)
Module RateLimiter.

Definition maxRequests : Z := 5.
Definition windowMs : Z := 15 * 60 * 1000.

Definition isRateLimited (identifier : jsstring) (now : Z)
    (requests : gmap jsstring (list Z)) : bool * gmap jsstring (list Z) :=
  let windowStart := now - windowMs in
  let requestTimes := default [] (requests !! identifier) in
  let validRequests := filter (fun time => windowStart < time) requestTimes in
  if maxRequests <=? Z.of_nat (length validRequests) then (true, requests)
  else (false, <[identifier := validRequests ++ [now]]> requests).

Definition getRemainingRequests (identifier : jsstring) (now : Z)
    (requests : gmap jsstring (list Z)) : Z * gmap jsstring (list Z) :=
  let windowStart := now - windowMs in
  let requestTimes := default [] (requests !! identifier) in
  let validRequests := filter (fun time => windowStart < time) requestTimes in
  (Z.max 0 (maxRequests - Z.of_nat (length validRequests)), requests).

End RateLimiter.

(** [/^[a-zA-Z0-9.!#$%&'*+/=?^_`{|}~-]+@[a-zA-Z0-9](?:[a-zA-Z0-9-]{0,61}[a-zA-Z0-9])?(?:\.[a-zA-Z0-9](?:[a-zA-Z0-9-]{0,61}[a-zA-Z0-9])?)*$/] *)
Definition emailRegex : RegExp :=
  let alnum := [IRange 97 122; IRange 65 90; IRange 48 57] in
  let label := Seq (Cls false alnum)
                 (Rep 0 (Some 1%nat)
                    (Seq (Rep 0 (Some 61%nat) (Cls false (alnum ++ [IUnit 45])))
                         (Cls false alnum))) in
  {| source :=
       Seq Bol (Seq (Rep 1 None (Cls false (alnum ++ map IUnit
                  [46; 33; 35; 36; 37; 38; 39; 42; 43; 47; 61; 63; 94; 95; 96; 123;
                   124; 125; 126; 45]%N)))
         (Seq (Chr 64) (Seq label (Seq (Rep 0 None (Seq (Chr 46) label)) Eol))));
     ignoreCase := false |}.

Definition isValidEmail (email : jsstring) : bool := test emailRegex email.

Section Validation.

(** The two libraries the module binds: Joi's address check as the
    schema configures it ([minDomainSegments: 2], [tlds: { allow: true }])
    and [purify.sanitize]. *)
Variable isEmail : jsstring -> bool.
Variable purify : DOMPurify.Config -> jsstring -> jsstring.

(** [purify.sanitize(x)] where [x] may be [undefined]: empty input
    yields the empty string. *)
Definition sanitizeValue (x : option jsstring) : jsstring :=
  match x with
  | Some s => purify DOMPurify.no_config s
  | None => []
  end.

(** [validateContactForm]. Reading [value.name] off an [undefined]
    value throws. *)
Definition validateContactForm (data : JSValue) : completion Validation :=
  let r := Joi.validate isEmail contactFormSchema data in
  match Joi.error r with
  | Some details =>
      let validationErrors :=
        map (fun detail =>
               ValidationError.mk (JS.join (js ".") (Joi.path detail)) (Joi.message detail))
            details in
      Normal {| isValid := false; sanitizedData := None; errors := Some validationErrors |}
  | None =>
      match Joi.value r with
      | None =>
          Throw (TypeError (js "Cannot read properties of undefined (reading 'name')"))
      | Some value =>
          let sanitizedData :=
            ContactFormRequest.mk
              (sanitizeValue (field value (js "name")))
              (sanitizeValue (field value (js "email")))
              (match field value (js "subject") with
               | Some (c :: s) => Some (purify DOMPurify.no_config (c :: s))
               | _ => None
               end)
              (sanitizeValue (field value (js "message"))) in
          Normal {| isValid := true; sanitizedData := Some sanitizedData; errors := None |}
      end
  end.

(** [sanitizeHtml]. *)
Definition sanitizeHtml (html : jsstring) : jsstring := purify htmlConfig html.

End Validation.

(* ===================================================================== *)
(** ** The request handler, [src/functions/contact-form/index.ts] *)
(* ===================================================================== *)

(** A response's headers: an object used as a map. *)
Definition Headers : Type := gmap jsstring jsstring.

(** [{ ...a, ...b }]: the later spread wins. *)
Definition spread (a b : Headers) : Headers := b ∪ a.

Record HttpRequest : Type := {
  method : jsstring;
  headers : Headers;
  body : JSValue
}.

Inductive ResponseBody : Type :=
| BodyNull
| BodyError (e : ApiError.t)
| BodySuccess (r : ContactFormResponse.t).

(** [context.res]. *)
Record Response : Type := {
  status : Z;
  resHeaders : Headers;
  resBody : ResponseBody
}.

(** What one invocation reads from its environment: the identifier
    [generateRequestId()] returns, [Date.now()] and
    [new Date().toISOString()]. *)
Record Invocation : Type := {
  requestId : jsstring;
  now : Z;
  isoNow : jsstring
}.

(** The process state the handler works on: the rate limiter's map, the
    calls of [sendContactEmail] so far and the log. *)
Record World : Type := {
  requests : gmap jsstring (list Z);
  sent : list (ContactFormRequest.t * jsstring);
  logged : list (LogLevel * jsstring)
}.

(** A computation on the world that returns or throws. *)
Definition Eff (A : Type) : Type := World -> completion A * World.

#[global] Instance Eff_ret : MRet Eff := fun A a w => (Normal a, w).
#[global] Instance Eff_bind : MBind Eff := fun A B f m w =>
  match m w with
  | (Normal a, w') => f a w'
  | (Throw e, w') => (Throw e, w')
  end.

Definition throw {A : Type} (e : JsError) : Eff A := fun w => (Throw e, w).

(** [try { body } catch (error) { handler }]. *)
Definition try_catch {A : Type} (body : Eff A) (handler : JsError -> Eff A) : Eff A :=
  fun w =>
    match body w with
    | (Normal a, w') => (Normal a, w')
    | (Throw e, w') => handler e w'
    end.

(** A pure evaluation that may throw. *)
Definition lift {A : Type} (c : completion A) : Eff A := fun w => (c, w).

(** The [logger] of [src/shared/logger.ts]: an entry is written out;
    the world keeps its level and message. *)
Definition log (level : LogLevel) (msg : jsstring) (w : World) : World :=
  {| requests := requests w; sent := sent w; logged := logged w ++ [(level, msg)] |}.

Definition logger (level : LogLevel) (msg : jsstring) : Eff unit := fun w =>
  (Normal tt, log level msg w).

(** [rateLimiter.isRateLimited(identifier)] on the shared limiter. *)
Definition rateLimiter_isRateLimited (identifier : jsstring) (now : Z) : Eff bool :=
  fun w =>
    let '(limited, requests') := RateLimiter.isRateLimited identifier now (requests w) in
    (Normal limited, {| requests := requests'; sent := sent w; logged := logged w |}).

Definition rateLimiter_getRemainingRequests (identifier : jsstring) (now : Z) : Eff Z :=
  fun w =>
    let '(n, requests') := RateLimiter.getRemainingRequests identifier now (requests w) in
    (Normal n, {| requests := requests'; sent := sent w; logged := logged w |}).

Definition thanks : jsstring :=
  js "Thank you for your message. We will get back to you soon.".

(** The text the handler classifies: [`${name} ${subject || ''} ${message}`]. *)
Definition messageContent (formData : ContactFormRequest.t) : jsstring :=
  ContactFormRequest.name formData ++ js " "
  ++ default [] (ContactFormRequest.subject formData) ++ js " "
  ++ ContactFormRequest.message formData.

Section Handler.

Variable isEmail : jsstring -> bool.
Variable purify : DOMPurify.Config -> jsstring -> jsstring.

(** What the handler imports from [src/shared/security.ts]. *)
Variable SECURITY_HEADERS : Headers.
Variable getCorsHeaders : option jsstring -> Headers.
Variable getClientIp : Headers -> jsstring.

(** The mail transport with its configuration (nodemailer, the secret
    store): whether handing over a message succeeds or throws. *)
Variable transport : ContactFormRequest.t -> jsstring -> completion unit.

(** [sendContactEmail] of [src/shared/email-service.ts]: any failure is
    logged and rethrown as [Error('Failed to send email')]. *)
Definition sendContactEmail (formData : ContactFormRequest.t) (requestId : jsstring)
  : Eff unit :=
  fun w =>
    let w1 := {| requests := requests w; sent := sent w ++ [(formData, requestId)];
                 logged := logged w |} in
    try_catch
      (lift (transport formData requestId) ;;
       logger INFO (js "Contact email sent successfully"))
      (fun _ =>
         logger ERROR (js "Failed to send contact email") ;;
         throw (Error (js "Failed to send email")))
      w1.

Definition jsonHeaders (origin : option jsstring) : Headers :=
  <[js "Content-Type" := js "application/json"]>
    (spread SECURITY_HEADERS (getCorsHeaders origin)).

Definition errorResponse (st : Z) (origin : option jsstring) (extra : Headers)
    (code msg : jsstring) (details : option (list ValidationError.t))
    (iso : jsstring) : Response :=
  {| status := st;
     resHeaders := spread (jsonHeaders origin) extra;
     resBody := BodyError (ApiError.mk code msg details iso) |}.

Definition successResponse (origin : option jsstring) (requestId : jsstring) : Response :=
  {| status := 200;
     resHeaders := jsonHeaders origin;
     resBody := BodySuccess (ContactFormResponse.mk true thanks (Some requestId)) |}.

(** The body of the handler's [try] block. *)
Definition pipeline (inv : Invocation) (req : HttpRequest) : Eff Response :=
  let origin := headers req !! js "origin" in
  let clientIp := getClientIp (headers req) in
  if JS.eqb (method req) (js "OPTIONS") then
    mret {| status := 200;
            resHeaders := spread SECURITY_HEADERS (getCorsHeaders origin);
            resBody := BodyNull |}
  else if negb (JS.eqb (method req) (js "POST")) then
    mret (errorResponse 405 origin ∅ (js "METHOD_NOT_ALLOWED")
            (js "Only POST requests are allowed") None (isoNow inv))
  else
    limited ← rateLimiter_isRateLimited clientIp (now inv);
    if (limited : bool) then
      logger WARN (js "Rate limit exceeded") ;;
      mret (errorResponse 429 origin {[ js "Retry-After" := js "900" ]}
              (js "RATE_LIMIT_EXCEEDED")
              (js "Too many requests. Please try again later.") None (isoNow inv))
    else
      validationResult ← lift (validateContactForm isEmail purify (body req));
      match isValid validationResult, sanitizedData validationResult with
      | true, Some formData =>
          if isSpam (messageContent formData) then
            logger WARN (js "Spam detected") ;;
            mret (successResponse origin (requestId inv))
          else
            sendContactEmail formData (requestId inv) ;;
            rateLimiter_getRemainingRequests clientIp (now inv) ;;
            logger INFO (js "Contact form processed successfully") ;;
            mret (successResponse origin (requestId inv))
      | _, _ =>
          logger WARN (js "Validation failed") ;;
          mret (errorResponse 400 origin ∅ (js "VALIDATION_ERROR")
                  (js "Invalid input data") (errors validationResult) (isoNow inv))
      end.

(** [contactFormFunction]: the response it leaves in [context.res] and
    the world after it. Whatever the [try] block throws is logged and
    answered with the fixed 500 response. *)
Definition contactFormFunction (inv : Invocation) (req : HttpRequest) (w : World)
  : Response * World :=
  let origin := headers req !! js "origin" in
  match pipeline inv req (log INFO (js "Contact form request received") w) with
  | (Normal res, w') => (res, w')
  | (Throw _, w') =>
      (errorResponse 500 origin ∅ (js "INTERNAL_SERVER_ERROR")
         (js "An unexpected error occurred. Please try again later.") None (isoNow inv),
       log ERROR (js "Unexpected error in contact form function") w')
  end.

(** Requests served one after the other by one process, with one
    [transport] for all of them: the answer of the mail service is taken
    as a function of the submission and the request identifier (see
    [serveEach] for answers that change from request to request). *)
Fixpoint serve (reqs : list (Invocation * HttpRequest)) (w : World)
  : list Response * World :=
  match reqs with
  | [] => ([], w)
  | (inv, req) :: rest =>
      let '(res, w1) := contactFormFunction inv req w in
      let '(ress, w2) := serve rest w1 in
      (res :: ress, w2)
  end.

End Handler.

(** A fresh process: an empty limiter, nothing sent, nothing logged. *)
Definition initial : World := {| requests := ∅; sent := []; logged := [] |}.

(* ===================================================================== *)
(** ** Runs of the rate limiter and sample collaborators *)
(* ===================================================================== *)

(** A call of one of the limiter's two methods. *)
Inductive call : Type :=
| IsRateLimited (identifier : jsstring) (now : Z)
| GetRemainingRequests (identifier : jsstring) (now : Z).

Definition call_step (requests : gmap jsstring (list Z)) (c : call)
  : gmap jsstring (list Z) :=
  match c with
  | IsRateLimited identifier now => snd (RateLimiter.isRateLimited identifier now requests)
  | GetRemainingRequests identifier now =>
      snd (RateLimiter.getRemainingRequests identifier now requests)
  end.

(** The limiter's map after a sequence of calls. *)
Definition calls (cs : list call) (requests : gmap jsstring (list Z))
  : gmap jsstring (list Z) :=
  fold_left call_step cs requests.

(** [isRateLimited] called for one identifier at each of the given
    times: the answers, and the map afterwards. *)
Fixpoint isRateLimited_each (identifier : jsstring) (times : list Z)
    (requests : gmap jsstring (list Z)) : list bool * gmap jsstring (list Z) :=
  match times with
  | [] => ([], requests)
  | t :: ts =>
      let '(b, requests1) := RateLimiter.isRateLimited identifier t requests in
      let '(bs, requests2) := isRateLimited_each identifier ts requests1 in
      (b :: bs, requests2)
  end.

(** The timestamps of a list that lie inside the window trailing [now]. *)
Definition in_window (now : Z) (times : list Z) : list Z :=
  filter (fun time => now - time < RateLimiter.windowMs) times.

(** Concrete collaborators to run the validator and the handler with. *)
Module Sample.

(** The schema's address check: [minDomainSegments: 2] and the built-in
    list of top-level domains. *)
Definition isEmail : jsstring -> bool := Address.isValid 2 Address.tlds.

(** Modelled from the spec: the fixed security headers that
    [src/shared/security.ts] puts on every response. *)
Definition SECURITY_HEADERS : Headers :=
  {[ js "X-Content-Type-Options" := js "nosniff" ]}.

(** Modelled from the spec: [getCorsHeaders] of [src/shared/security.ts];
    CORS headers are attached only when the request's origin is on the
    allow-list. *)
Definition getCorsHeaders (origin : option jsstring) : Headers :=
  match origin with
  | Some o =>
      if JS.eqb o (js "https://yourdomain.com")
      then {[ js "Access-Control-Allow-Origin" := o ]}
      else ∅
  | None => ∅
  end.

(** Modelled from the spec: [getClientIp] of [src/shared/security.ts];
    the client identifier is the source address the headers carry. *)
Definition getClientIp (hs : Headers) : jsstring :=
  default (js "unknown") (hs !! js "x-forwarded-for").

(** A transport that delivers, and one that fails. *)
Definition delivers : ContactFormRequest.t -> jsstring -> completion unit :=
  fun _ _ => Normal tt.

Definition fails : ContactFormRequest.t -> jsstring -> completion unit :=
  fun _ _ => Throw (Error (js "Email service error")).

(** A request body [{ name, email, message }]. *)
Definition form (name email message : string) : JSValue :=
  JObject [ (js "name", JString (js name));
            (js "email", JString (js email));
            (js "message", JString (js message)) ].

Definition post (payload : JSValue) : HttpRequest :=
  {| method := js "POST";
     headers := {[ js "origin" := js "https://yourdomain.com";
                   js "x-forwarded-for" := js "203.0.113.7" ]};
     body := payload |}.

Definition at_time (t : Z) : Invocation :=
  {| requestId := js "req_1"; now := t; isoNow := js "2024-01-15T10:30:00.000Z" |}.

Definition handler : Invocation -> HttpRequest -> World -> Response * World :=
  contactFormFunction isEmail DOMPurify.sanitize SECURITY_HEADERS getCorsHeaders
    getClientIp delivers.

(** Six submissions of one client, one a minute. *)
Definition six : list (Invocation * HttpRequest) :=
  map (fun t => (at_time t,
                 post (form "John Doe" "john@example.com" "This is a test message.")))
      [0; 60000; 120000; 180000; 240000; 300000].

Definition spam : HttpRequest :=
  post (form "John Doe" "john@example.com"
             "Click here for free money and casino winnings!").

End Sample.

(** Every stored list holds at most [maxRequests] timestamps. *)
Definition bounded (requests : gmap jsstring (list Z)) : Prop :=
  forall identifier times, requests !! identifier = Some times ->
    Z.of_nat (length times) <= RateLimiter.maxRequests.

(* ===================================================================== *)
(** ** What a pattern matches *)
(* ===================================================================== *)

(** The strings a pattern matches, read off its syntax, for patterns
    without capture groups and backreferences. *)
Module Matches.

Import Regex.

(** No capture group, no backreference, and every quantifier's lower
    bound is at most its upper bound. *)
Fixpoint plain (r : regex) : bool :=
  match r with
  | Seq a b | Alt a b => plain a && plain b
  | Rep lo hi a =>
      plain a && match hi with Some h => (lo <=? h)%nat | None => true end
  | Grp _ _ | Ref _ => false
  | _ => true
  end.

(** [accepts icase r b u a]: between the input [b] before it (nearest
    unit first) and the input [a] after it, [r] matches the units [u].
    A quantifier matches a sequence of pieces; past the required number
    of repetitions a piece is not empty. *)
Fixpoint accepts (icase : bool) (r : regex) (b u a : jsstring) : Prop :=
  match r with
  | Eps => u = []
  | Chr c => exists x, u = [x] /\ unit_eq icase x c = true
  | Cls negated items =>
      exists x, u = [x] /\ xorb negated (cls_mem icase items x) = true
  | Any => exists x, u = [x] /\ JS.is_line_terminator x = false
  | Seq r1 r2 =>
      exists u1 u2, u = u1 ++ u2
        /\ accepts icase r1 b u1 (u2 ++ a)
        /\ accepts icase r2 (rev u1 ++ b) u2 a
  | Alt r1 r2 => accepts icase r1 b u a \/ accepts icase r2 b u a
  | Rep lo hi r' =>
      exists us, u = concat us
        /\ (lo <= length us)%nat
        /\ (forall h, hi = Some h -> (length us <= h)%nat)
        /\ Forall (fun p => p <> []) (drop lo us)
        /\ (fix pieces (b : jsstring) (us : list jsstring) : Prop :=
              match us with
              | [] => True
              | p :: ps =>
                  accepts icase r' b p (concat ps ++ a) /\ pieces (rev p ++ b) ps
              end) b us
  | Grp _ r' => accepts icase r' b u a
  | Ref _ => True
  | Bol => u = [] /\ b = []
  | Eol => u = [] /\ a = []
  | WordB => u = [] /\ xorb (at_word b) (at_word a) = true
  end.

(** The pieces of a quantified pattern, one after the other. *)
Fixpoint pieces (icase : bool) (r : regex) (b : jsstring) (us : list jsstring)
    (a : jsstring) : Prop :=
  match us with
  | [] => True
  | p :: ps => accepts icase r b p (concat ps ++ a) /\ pieces icase r (rev p ++ b) ps a
  end.

(** [s] holds a match of the pattern. *)
Definition found (re : RegExp) (s : jsstring) : Prop :=
  exists p u a, s = p ++ u ++ a /\ accepts (ignoreCase re) (source re) (rev p) u a.

End Matches.

(** The identifier a call of the limiter is made for. *)
Definition call_identifier (c : call) : jsstring :=
  match c with
  | IsRateLimited identifier _ | GetRemainingRequests identifier _ => identifier
  end.

(* ===================================================================== *)
(** ** What the patterns of the sources accept, in words *)
(* ===================================================================== *)

(** A unit a name may hold: a letter, white space, a hyphen, an
    apostrophe or a full stop. *)
Definition name_unit (c : N) : bool :=
  JS.is_alpha c || JS.is_space c || (c =? 45)%N || (c =? 39)%N || (c =? 46)%N.

Definition is_alnum (c : N) : bool := JS.is_alpha c || JS.is_digit c.

(** A unit of the local part of an address, for [isValidEmail]. *)
Definition local_unit (c : N) : bool :=
  is_alnum c
  || existsb (N.eqb c) [46; 33; 35; 36; 37; 38; 39; 42; 43; 47; 61; 63; 94; 95; 96; 123;
                        124; 125; 126; 45]%N.

(** A label of the domain, for [isValidEmail]: 1 to 63 letters, digits
    and hyphens, the first and the last not a hyphen. *)
Definition domain_label (l : jsstring) : bool :=
  match l with
  | [] => false
  | c :: rest =>
      is_alnum c && (List.length rest <=? 62)%nat
      && forallb (fun x => is_alnum x || (x =? 45)%N) rest
      && match last rest with Some z => is_alnum z | None => true end
  end.

(** The words and phrases of the first two spam patterns. *)
Definition spam_words : list jsstring :=
  map js ["viagra"; "cialis"; "casino"; "poker"; "lottery"; "winner"; "congratulations";
          "click here"; "free money"; "make money fast"; "work from home"]%string.

(** A URL as the third spam pattern reads it: [http://] or [https://]
    and at least one unit, none of them white space. *)
Definition url (u : jsstring) : Prop :=
  exists rest, (u = js "http://" ++ rest \/ u = js "https://" ++ rest)
    /\ rest <> [] /\ Forall (fun x => JS.is_space x = false) rest.

(** A tree in which every element is one of the five formatting
    elements of [sanitizeHtml] and carries no attribute besides
    [data-*] and [aria-*] ones (the library keeps these whatever
    [ALLOWED_ATTR] says), and which holds no comment. *)
Fixpoint formatting_only (n : HTML.node) : bool :=
  match n with
  | HTML.Text _ => true
  | HTML.Comment _ => false
  | HTML.Element tag attrs kids =>
      HTML.mem tag (map js ["p"; "br"; "strong"; "em"; "u"]%string)
      && forallb (fun a => Regex.test DOMPurify.DATA_ATTR (JS.toLowerCase (fst a))
                           || Regex.test DOMPurify.ARIA_ATTR (JS.toLowerCase (fst a))) attrs
      && forallb formatting_only kids
  end.

(* ===================================================================== *)
(** ** The mail service, [src/shared/email-service.ts] *)
(* ===================================================================== *)

(** [EmailConfig], [EmailTemplate] and [KeyVaultSecrets] of
    [src/shared/types.ts]; the objects [smtp], [from] and [to] of a
    configuration are records of their own. *)
Module Smtp.
Record t : Type := mk {
  host : jsstring;
  port : Z;
  secure : bool;
  user : jsstring;
  password : jsstring
}.
End Smtp.

Module Sender.
Record t : Type := mk { name : jsstring; email : jsstring }.
End Sender.

Module Recipient.
Record t : Type := mk { name : option jsstring; email : jsstring }.
End Recipient.

Module EmailConfig.
Record t : Type := mk { smtp : Smtp.t; from : Sender.t; to : Recipient.t }.
End EmailConfig.

Module EmailTemplate.
Record t : Type := mk { subject : jsstring; html : jsstring; text : jsstring }.
End EmailTemplate.

Module KeyVaultSecrets.
Record t : Type := mk {
  emailSmtpUser : jsstring;
  emailSmtpPassword : jsstring;
  recipientEmailAddress : jsstring
}.
End KeyVaultSecrets.

(** The class [EmailService] and the singleton [emailService]. The
    object's three fields are the state; what lies outside the process
    (the environment variables, the Key Vault, the SMTP server behind
    nodemailer) is a record of answers, one per call of a method, so
    that it may differ from call to call. Calls are taken one at a time:
    no two invocations interleave at an [await]. *)
Module EmailService.

(** The options handed to [nodemailer.createTransporter]; they stand for
    the transporter made from them. *)
Record TransportOptions : Type := {
  host : jsstring;
  port : Z;
  secure : bool;
  auth_user : jsstring;
  auth_pass : jsstring;
  tls_ciphers : jsstring;
  tls_rejectUnauthorized : bool;
  pool : bool;
  maxConnections : Z;
  maxMessages : Z
}.

(** [mailOptions]. *)
Record MailOptions : Type := {
  from : jsstring;
  to : jsstring;
  replyTo : jsstring;
  subject : jsstring;
  text : jsstring;
  html : jsstring;
  headers : list (jsstring * jsstring)
}.

(** What is outside the process when a method is called:
    [process.env], [new SecretClient(url, new DefaultAzureCredential())],
    [client.getSecret(name)] (the secret's [value], or a rejection),
    [nodemailer.createTransporter(options)], [transporter.verify()] and
    [transporter.sendMail(mailOptions)]. *)
Record Outside : Type := {
  env : jsstring -> option jsstring;
  newSecretClient : jsstring -> completion unit;
  getSecret : jsstring -> jsstring -> completion (option jsstring);
  createTransporter : TransportOptions -> completion unit;
  verify : TransportOptions -> completion unit;
  sendMail : TransportOptions -> MailOptions -> completion unit
}.

(** The object: [config], [transporter] and [secretClient] (the vault's
    URL stands for the client), with the messages handed to [sendMail]
    so far and the log. *)
Record State : Type := {
  config : option EmailConfig.t;
  transporter : option TransportOptions;
  secretClient : option jsstring;
  outbox : list (TransportOptions * MailOptions);
  logged : list (LogLevel * jsstring)
}.

(** A method: it returns or throws, and leaves the object changed. *)
Definition Svc (A : Type) : Type := State -> completion A * State.

#[local] Instance Svc_ret : MRet Svc := fun A a s => (Normal a, s).
#[local] Instance Svc_bind : MBind Svc := fun A B f m s =>
  match m s with
  | (Normal a, s') => f a s'
  | (Throw e, s') => (Throw e, s')
  end.

Definition throw {A : Type} (e : JsError) : Svc A := fun s => (Throw e, s).

Definition try_catch {A : Type} (body : Svc A) (handler : JsError -> Svc A) : Svc A :=
  fun s =>
    match body s with
    | (Normal a, s') => (Normal a, s')
    | (Throw e, s') => handler e s'
    end.

Definition lift {A : Type} (c : completion A) : Svc A := fun s => (c, s).

Definition logger (level : LogLevel) (msg : jsstring) : Svc unit := fun s =>
  (Normal tt,
   {| config := config s; transporter := transporter s; secretClient := secretClient s;
      outbox := outbox s; logged := logged s ++ [(level, msg)] |}).

Definition set_config (c : EmailConfig.t) : Svc unit := fun s =>
  (Normal tt,
   {| config := Some c; transporter := transporter s; secretClient := secretClient s;
      outbox := outbox s; logged := logged s |}).

Definition set_transporter (t : TransportOptions) : Svc unit := fun s =>
  (Normal tt,
   {| config := config s; transporter := Some t; secretClient := secretClient s;
      outbox := outbox s; logged := logged s |}).

Definition set_secretClient (url : jsstring) : Svc unit := fun s =>
  (Normal tt,
   {| config := config s; transporter := transporter s; secretClient := Some url;
      outbox := outbox s; logged := logged s |}).

(** [x || ''] for a string that may be [undefined]. *)
Definition or_empty (x : option jsstring) : jsstring := default [] x.

Section Methods.

Variable o : Outside.

(** [generateEmailTemplate], whose text is taken as given. *)
Variable generateEmailTemplate : ContactFormRequest.t -> jsstring -> EmailTemplate.t.

Definition initializeKeyVaultClient : Svc unit :=
  try_catch
    (match env o (js "AZURE_KEYVAULT_URL") with
     | Some (c :: url) =>
         lift (newSecretClient o (c :: url)) ;;
         set_secretClient (c :: url) ;;
         logger INFO (js "Key Vault client initialized")
     | _ =>
         logger WARN
           (js "AZURE_KEYVAULT_URL not configured, using environment variables for email config")
     end)
    (fun _ => logger ERROR (js "Failed to initialize Key Vault client")).

(** [new EmailService()]. *)
Definition create : State :=
  snd (initializeKeyVaultClient
         {| config := None; transporter := None; secretClient := None;
            outbox := []; logged := [] |}).

(** The three secrets are asked for together ([Promise.all]); a
    rejection of any of them is the rejection of all. *)
Definition loadSecrets : Svc KeyVaultSecrets.t := fun s =>
  match secretClient s with
  | Some client =>
      (userSecret ← lift (getSecret o client (js "email-smtp-user"));
       passwordSecret ← lift (getSecret o client (js "email-smtp-password"));
       recipientSecret ← lift (getSecret o client (js "recipient-email-address"));
       logger INFO (js "Email configuration loaded from Key Vault") ;;
       mret (KeyVaultSecrets.mk (or_empty userSecret) (or_empty passwordSecret)
               (or_empty recipientSecret))) s
  | None =>
      (logger INFO (js "Email configuration loaded from environment variables") ;;
       mret (KeyVaultSecrets.mk (or_empty (env o (js "EMAIL_SMTP_USER")))
               (or_empty (env o (js "EMAIL_SMTP_PASSWORD")))
               (or_empty (env o (js "RECIPIENT_EMAIL_ADDRESS"))))) s
  end.

Definition configOf (secrets : KeyVaultSecrets.t) : EmailConfig.t :=
  EmailConfig.mk
    (Smtp.mk (js "mail.proton.me") 587 false
       (KeyVaultSecrets.emailSmtpUser secrets) (KeyVaultSecrets.emailSmtpPassword secrets))
    (Sender.mk (js "Contact Form") (KeyVaultSecrets.emailSmtpUser secrets))
    (Recipient.mk None (KeyVaultSecrets.recipientEmailAddress secrets)).

Definition loadEmailConfig : Svc EmailConfig.t := fun s =>
  match config s with
  | Some c => (Normal c, s)
  | None =>
      (secrets ← try_catch loadSecrets
                   (fun _ =>
                      logger ERROR (js "Failed to load email configuration") ;;
                      throw (Error (js "Email configuration unavailable")));
       match KeyVaultSecrets.emailSmtpUser secrets,
             KeyVaultSecrets.emailSmtpPassword secrets,
             KeyVaultSecrets.recipientEmailAddress secrets with
       | _ :: _, _ :: _, _ :: _ =>
           set_config (configOf secrets) ;;
           mret (configOf secrets)
       | _, _, _ => throw (Error (js "Missing required email configuration"))
       end) s
  end.

Definition optionsOf (c : EmailConfig.t) : TransportOptions :=
  {| host := Smtp.host (EmailConfig.smtp c);
     port := Smtp.port (EmailConfig.smtp c);
     secure := Smtp.secure (EmailConfig.smtp c);
     auth_user := Smtp.user (EmailConfig.smtp c);
     auth_pass := Smtp.password (EmailConfig.smtp c);
     tls_ciphers := js "SSLv3";
     tls_rejectUnauthorized := true;
     pool := true;
     maxConnections := 1;
     maxMessages := 10 |}.

(** The transporter is stored before the connection is verified. *)
Definition getTransporter : Svc TransportOptions := fun s =>
  match transporter s with
  | Some t => (Normal t, s)
  | None =>
      (c ← loadEmailConfig;
       lift (createTransporter o (optionsOf c)) ;;
       set_transporter (optionsOf c) ;;
       try_catch
         (lift (verify o (optionsOf c)) ;;
          logger INFO (js "SMTP connection verified successfully"))
         (fun _ =>
            logger ERROR (js "SMTP connection verification failed") ;;
            throw (Error (js "Failed to verify SMTP connection"))) ;;
       mret (optionsOf c)) s
  end.

Definition mailOptionsOf (c : EmailConfig.t) (formData : ContactFormRequest.t)
    (requestId : jsstring) : MailOptions :=
  let template := generateEmailTemplate formData requestId in
  {| from := [dquote] ++ Sender.name (EmailConfig.from c) ++ [dquote] ++ js " <"
             ++ Sender.email (EmailConfig.from c) ++ js ">";
     to := Recipient.email (EmailConfig.to c);
     replyTo := ContactFormRequest.email formData;
     subject := EmailTemplate.subject template;
     text := EmailTemplate.text template;
     html := EmailTemplate.html template;
     headers := [ (js "X-Request-ID", requestId); (js "X-Contact-Form", js "true") ] |}.

(** [transporter.sendMail(mailOptions)]; the message is noted in the
    outbox. *)
Definition send (t : TransportOptions) (m : MailOptions) : Svc unit := fun s =>
  (sendMail o t m,
   {| config := config s; transporter := transporter s; secretClient := secretClient s;
      outbox := outbox s ++ [(t, m)]; logged := logged s |}).

(** [emailService.sendContactEmail], and the exported [sendContactEmail]
    that calls it. *)
Definition sendContactEmail (formData : ContactFormRequest.t) (requestId : jsstring)
  : Svc unit :=
  try_catch
    (t ← getTransporter;
     c ← loadEmailConfig;
     send t (mailOptionsOf c formData requestId) ;;
     logger INFO (js "Contact email sent successfully"))
    (fun _ =>
       logger ERROR (js "Failed to send contact email") ;;
       throw (Error (js "Failed to send email"))).

(** [emailService.testConfiguration], and the exported
    [testEmailConfiguration]. *)
Definition testConfiguration : Svc bool :=
  try_catch (getTransporter ;; mret true)
    (fun _ => logger ERROR (js "Email configuration test failed") ;; mret false).

End Methods.

(** A call of one of the two exported functions. *)
Inductive call : Type :=
| SendContactEmail (formData : ContactFormRequest.t) (requestId : jsstring)
| TestEmailConfiguration.

Section Runs.

Variable generateEmailTemplate : ContactFormRequest.t -> jsstring -> EmailTemplate.t.

Definition step (s : State) (oc : Outside * call) : State :=
  match snd oc with
  | SendContactEmail formData requestId =>
      snd (sendContactEmail (fst oc) generateEmailTemplate formData requestId s)
  | TestEmailConfiguration => snd (testConfiguration (fst oc) s)
  end.

(** The object after a sequence of calls, each with the outside of its
    time. *)
Definition run (calls : list (Outside * call)) (s : State) : State :=
  fold_left step calls s.

End Runs.

(** The object holds no incomplete configuration, and no transporter
    that was not made from its configuration. *)
Definition complete (s : State) : Prop :=
  (forall c, config s = Some c ->
     exists secrets, c = configOf secrets
       /\ KeyVaultSecrets.emailSmtpUser secrets <> []
       /\ KeyVaultSecrets.emailSmtpPassword secrets <> []
       /\ KeyVaultSecrets.recipientEmailAddress secrets <> [])
  /\ (forall t, transporter s = Some t -> exists c, config s = Some c /\ t = optionsOf c).

End EmailService.

(** Concrete surroundings to run the mail service in. *)
Module SampleMail.

(** Credentials in the environment variables, no Key Vault. *)
Definition env (key : jsstring) : option jsstring :=
  if JS.eqb key (js "EMAIL_SMTP_USER") then Some (js "forms@proton.me")
  else if JS.eqb key (js "EMAIL_SMTP_PASSWORD") then Some (js "secret")
  else if JS.eqb key (js "RECIPIENT_EMAIL_ADDRESS") then Some (js "owner@example.com")
  else None.

(** An SMTP server that answers, and one whose verification fails. *)
Definition working : EmailService.Outside :=
  {| EmailService.env := env;
     EmailService.newSecretClient := fun _ => Normal tt;
     EmailService.getSecret := fun _ _ => Normal None;
     EmailService.createTransporter := fun _ => Normal tt;
     EmailService.verify := fun _ => Normal tt;
     EmailService.sendMail := fun _ _ => Normal tt |}.

Definition unverifiable : EmailService.Outside :=
  {| EmailService.env := env;
     EmailService.newSecretClient := fun _ => Normal tt;
     EmailService.getSecret := fun _ _ => Normal None;
     EmailService.createTransporter := fun _ => Normal tt;
     EmailService.verify := fun _ => Throw (Error (js "connect ETIMEDOUT"));
     EmailService.sendMail := fun _ _ => Normal tt |}.

(** The same server after the environment variables were cleared. *)
Definition cleared : EmailService.Outside :=
  {| EmailService.env := fun _ => None;
     EmailService.newSecretClient := fun _ => Normal tt;
     EmailService.getSecret := fun _ _ => Normal None;
     EmailService.createTransporter := fun _ => Normal tt;
     EmailService.verify := fun _ => Normal tt;
     EmailService.sendMail := fun _ _ => Normal tt |}.

(** A template with the subject line of the source and the message as
    its text. *)
Definition template (formData : ContactFormRequest.t) (requestId : jsstring)
  : EmailTemplate.t :=
  EmailTemplate.mk
    (match ContactFormRequest.subject formData with
     | Some (c :: s) => js "Contact Form: " ++ c :: s
     | _ => js "New Contact Form Submission"
     end)
    (ContactFormRequest.message formData)
    (ContactFormRequest.message formData).

Definition submission : ContactFormRequest.t :=
  ContactFormRequest.mk (js "John Doe") (js "john@example.com") None
    (js "This is a test message.").

End SampleMail.

(* ===================================================================== *)
(** ** What the validator can report *)
(* ===================================================================== *)

(** Every error [validateContactForm] can return: the validator's own
    messages for a value that is not an object and for a property that
    is missing or not a string, and the messages the schema sets. *)
Definition error_catalogue : list ValidationError.t :=
  [ ValidationError.mk [] (dquote :: js "value" ++ dquote :: js " must be of type object");
    ValidationError.mk (js "name") (dquote :: js "name" ++ dquote :: js " is required");
    ValidationError.mk (js "name") (dquote :: js "name" ++ dquote :: js " must be a string");
    ValidationError.mk (js "name") (js "Name is required");
    ValidationError.mk (js "name") (js "Name must be less than 100 characters");
    ValidationError.mk (js "name") (js "Name contains invalid characters");
    ValidationError.mk (js "email") (dquote :: js "email" ++ dquote :: js " is required");
    ValidationError.mk (js "email") (dquote :: js "email" ++ dquote :: js " must be a string");
    ValidationError.mk (js "email") (js "Email is required");
    ValidationError.mk (js "email") (js "Please provide a valid email address");
    ValidationError.mk (js "email") (js "Email must be less than 254 characters");
    ValidationError.mk (js "subject")
      (dquote :: js "subject" ++ dquote :: js " must be a string");
    ValidationError.mk (js "subject") (js "Subject must be less than 200 characters");
    ValidationError.mk (js "message") (dquote :: js "message" ++ dquote :: js " is required");
    ValidationError.mk (js "message")
      (dquote :: js "message" ++ dquote :: js " must be a string");
    ValidationError.mk (js "message") (js "Message is required");
    ValidationError.mk (js "message") (js "Message must be at least 10 characters long");
    ValidationError.mk (js "message") (js "Message must be less than 5000 characters") ].

Definition same_error (a b : ValidationError.t) : bool :=
  JS.eqb (ValidationError.field a) (ValidationError.field b)
  && JS.eqb (ValidationError.message a) (ValidationError.message b).

(* ===================================================================== *)
(** ** Shapes the tree constructor keeps *)
(* ===================================================================== *)

Module Shape.

Import HTML.









End Shape.

(* ===================================================================== *)
(** ** Requests served in turn by one process *)
(* ===================================================================== *)

(** Requests served one after the other by one process, each with what
    the mail service answers at that time: the service is one object for
    all requests and keeps its configuration and transporter between
    them, so its answer to a submission is not a function of the
    submission alone. *)
Fixpoint serveEach (isEmail : jsstring -> bool)
    (purify : DOMPurify.Config -> jsstring -> jsstring)
    (SECURITY_HEADERS : Headers) (getCorsHeaders : option jsstring -> Headers)
    (getClientIp : Headers -> jsstring)
    (reqs : list (Invocation * HttpRequest
                  * (ContactFormRequest.t -> jsstring -> completion unit)))
    (w : World) : list Response * World :=
  match reqs with
  | [] => ([], w)
  | (inv, req, transport) :: rest =>
      let '(res, w1) :=
        contactFormFunction isEmail purify SECURITY_HEADERS getCorsHeaders getClientIp
          transport inv req w in
      let '(ress, w2) :=
        serveEach isEmail purify SECURITY_HEADERS getCorsHeaders getClientIp rest w1 in
      (res :: ress, w2)
  end.

(* ===================================================================== *)
(** * Properties *)
(* ===================================================================== *)

(** ** Strings and patterns *)

Lemma eqb_eq (a b : jsstring) : JS.eqb a b = true <-> a = b.
Proof.
  revert b. induction a as [|x a IH]; intros [|y b]; simpl; try done.
  rewrite andb_true_iff, N.eqb_eq, IH. split; [by intros [-> ->]|by intros [= -> ->]].
Qed.

Lemma trimStart_head (s : jsstring) :
  JS.trimStart s = [] \/ exists c r, JS.trimStart s = c :: r /\ JS.is_space c = false.
Proof.
  induction s as [|c s IH]; simpl; [by left|].
  destruct (JS.is_space c) eqn:E; [done|]. right. by exists c, s.
Qed.

Lemma trimStart_fixed (c : N) (r : jsstring) :
  JS.is_space c = false -> JS.trimStart (c :: r) = c :: r.
Proof. intros H. simpl. by rewrite H. Qed.

Lemma trimStart_idem (s : jsstring) : JS.trimStart (JS.trimStart s) = JS.trimStart s.
Proof.
  destruct (trimStart_head s) as [->|(c & r & -> & Hc)]; [done|]. by apply trimStart_fixed.
Qed.

Lemma trimStart_snoc (l : jsstring) (c : N) :
  JS.is_space c = false -> exists l', JS.trimStart (l ++ [c]) = l' ++ [c].
Proof.
  intros Hc. induction l as [|d l IH]; simpl.
  - rewrite Hc. by exists [].
  - destruct (JS.is_space d); [done|]. by exists (d :: l).
Qed.

Lemma trimEnd_idem (s : jsstring) : JS.trimEnd (JS.trimEnd s) = JS.trimEnd s.
Proof. unfold JS.trimEnd. by rewrite rev_involutive, trimStart_idem. Qed.

Lemma trimStart_trimEnd (s : jsstring) :
  JS.trimStart s = s -> JS.trimStart (JS.trimEnd s) = JS.trimEnd s.
Proof.
  intros Hs. destruct (trimStart_head s) as [E|(c & r & E & Hc)]; rewrite Hs in E; subst s.
  - done.
  - unfold JS.trimEnd. simpl rev.
    destruct (trimStart_snoc (rev r) c Hc) as [l' ->].
    rewrite rev_app_distr. simpl. by rewrite Hc.
Qed.

(** [trim] leaves a trimmed string as it is. *)
Lemma trim_idem (s : jsstring) : JS.trim (JS.trim s) = JS.trim s.
Proof.
  unfold JS.trim. rewrite trimStart_trimEnd by apply trimStart_idem. apply trimEnd_idem.
Qed.

Section SearchFacts.

Import Regex.

(** A match at a later position is found by the search. *)
Lemma search_skips (icase : bool) (r : regex) (p : jsstring) :
  forall (fuel : nat) (b s : jsstring) (cs : list (nat * jsstring)),
    (length p <= fuel)%nat ->
    rmatch icase r (MState (rev p ++ b) s cs) (fun _ => true) = true ->
    search fuel icase r (MState b (p ++ s) cs) = true.
Proof.
  induction p as [|c p IH]; intros fuel b s cs Hfuel Hm.
  - destruct fuel; simpl in *; by rewrite Hm.
  - destruct fuel as [|fuel]; [simpl in Hfuel; lia|].
    cbn [search]. apply orb_true_iff. right. cbn [after app advance before caps].
    apply IH; [simpl in Hfuel; lia|].
    simpl rev in Hm. by rewrite <- app_assoc in Hm.
Qed.

Lemma test_after_prefix (re : RegExp) (p s : jsstring) :
  rmatch (ignoreCase re) (source re) (MState (rev p) s []) (fun _ => true) = true ->
  test re (p ++ s) = true.
Proof.
  intros H. unfold test. apply search_skips.
  - rewrite length_app. lia.
  - by rewrite app_nil_r.
Qed.

End SearchFacts.

(** ** The spam classifier *)

(** Three patterns of the sources at work: a keyword as a whole word in
    any case, a unit repeated eleven times, twenty units above U+007F. *)
Example isSpam_heuristics :
  isSpam (js "You are a WINNER today") = true
  /\ isSpam (js "winners only") = false
  /\ isSpam (js "aaaaaaaaaaa") = true
  /\ isSpam (js "aaaaaaaaaa") = false
  /\ isSpam (flat_map (fun _ => [233; 232]%N) (seq 0 10)) = true
  /\ isSpam (js "Hello, I'd like to know more about your services.") = false.
Proof. vm_compute. repeat split; reflexivity. Qed.

(** C4, at the failing input: content with three URLs separated by
    spaces is not classified as spam; the URL pattern only matches three
    URLs that follow one another without white space. *)
Theorem three_separate_urls_not_spam :
  isSpam (js "See http://a.example http://b.example http://c.example") = false
  /\ isSpam (js "See http://a.examplehttp://b.examplehttp://c.example") = true.
Proof. vm_compute. split; reflexivity. Qed.

(** Whatever the name and the subject, a message with this text makes
    the content the handler classifies spam. *)
Lemma click_here_is_spam (formData : ContactFormRequest.t) :
  ContactFormRequest.message formData
    = js "Click here for free money and casino winnings!" ->
  isSpam (messageContent formData) = true.
Proof.
  intros Hm. unfold isSpam, messageContent. rewrite Hm.
  set (pre := ContactFormRequest.name formData ++ js " "
              ++ default [] (ContactFormRequest.subject formData)).
  replace (_ ++ _ ++ _ ++ _ ++ _)
    with ((pre ++ js " ") ++ js "Click here for free money and casino winnings!")
    by (unfold pre; by rewrite <- !app_assoc).
  unfold JS.toLowerCase. rewrite !map_app.
  unfold spamPatterns. cbn [existsb]. apply orb_true_iff. right.
  apply orb_true_iff. left.
  apply test_after_prefix. rewrite rev_app_distr. reflexivity.
Qed.

(** ** The sanitizer *)

(** Input without markup is returned as it is. *)
Lemma sanitize_plain (cfg : DOMPurify.Config) (s : jsstring) :
  JS.includes [HTML.LT] s = false -> DOMPurify.sanitize cfg s = s.
Proof.
  intros H. unfold DOMPurify.sanitize. destruct s; [done|]. by rewrite H.
Qed.

(** The script element of the specification's example is removed with
    its content, in both modes. *)
Example script_removed :
  DOMPurify.sanitize DOMPurify.no_config (js "<script>alert(1)</script>John") = js "John"
  /\ sanitizeHtml DOMPurify.sanitize (js "<script>alert(1)</script>John") = js "John".
Proof. vm_compute. split; reflexivity. Qed.

(** C6, at the failing input (the message of the repository's own test
    'should sanitize HTML in input'): the contact-form fields are
    sanitized with the library's default configuration, not a no-tag
    mode, so the [img] element stays and only its [onerror] attribute is
    removed; formatting markup stays as well. *)
Theorem img_survives_sanitization :
  let message :=
    js "Message with <img src=" ++ [dquote] ++ js "x" ++ [dquote] ++ js " onerror="
    ++ [dquote] ++ js "alert(1)" ++ [dquote] ++ js "> harmful content." in
  let kept :=
    js "Message with <img src=" ++ [dquote] ++ js "x" ++ [dquote]
    ++ js "> harmful content." in
  validateContactForm Sample.isEmail DOMPurify.sanitize
    (JObject [ (js "name", JString (js "John Doe"));
               (js "email", JString (js "john@example.com"));
               (js "message", JString message) ])
  = Normal {| isValid := true;
              sanitizedData := Some (ContactFormRequest.mk (js "John Doe")
                                       (js "john@example.com") None kept);
              errors := None |}
  /\ JS.includes (js "<img") kept = true
  /\ DOMPurify.sanitize DOMPurify.no_config (js "<b>bold</b>") = js "<b>bold</b>".
Proof. vm_compute. repeat split; reflexivity. Qed.


(** The same in the mode of the contact-form fields, where [button] is
    allowed and [object] is not. *)
Example sanitize_default_twice_differs :
  DOMPurify.sanitize DOMPurify.no_config (js "<p><object><p>a</p></object></p>")
    = js "<p><p>a</p></p>"
  /\ DOMPurify.sanitize DOMPurify.no_config (js "<p><p>a</p></p>")
     = js "<p></p><p>a</p><p></p>".
Proof. vm_compute. split; reflexivity. Qed.


(** ** The validator *)

Section ValidationFacts.

Variable isEmail : jsstring -> bool.
Variable purify : DOMPurify.Config -> jsstring -> jsstring.

(** What a key's value is when its schema reports nothing. *)
Lemma validateString_passes (key : jsstring) (sch : Joi.StringSchema) (item : JSValue)
    (out : option jsstring) :
  Joi.validateString isEmail key sch item = ([], out) ->
  (item = JUndefined /\ Joi.presence sch = Joi.Optional /\ out = None)
  \/ exists raw s,
       item = JString raw /\ out = Some s
       /\ s = (if Joi.has_trim sch then JS.trim raw else raw)
       /\ (existsb (JS.eqb s) (Joi.allowed sch) = true
           \/ (s = [] /\ Joi.has_min0 sch = true)
           \/ (s <> [] /\ flat_map (Joi.check isEmail sch key s) (Joi.rules sch) = [])).
Proof.
  unfold Joi.validateString. destruct item as [| | | |raw| |]; try discriminate.
  - destruct (Joi.presence sch); [discriminate|]. intros [= <-]. by left.
  - intros H. right. exists raw. set (s := if Joi.has_trim sch then _ else _) in *.
    exists s. destruct (existsb _ _) eqn:Ha.
    + injection H as <-. repeat split. by left.
    + destruct s as [|c s'] eqn:Es.
      * destruct (Joi.has_min0 sch) eqn:Hm; [|discriminate].
        injection H as <-. repeat split. right. by left.
      * injection H as Hc <-. repeat split. right. right. done.
Qed.

Lemma name_passes (item : JSValue) (out : option jsstring) :
  Joi.validateString isEmail (js "name") nameSchema item = ([], out) ->
  exists raw, item = JString raw /\ out = Some (JS.trim raw)
    /\ 1 <= JS.length (JS.trim raw) <= 100
    /\ Regex.test namePattern (JS.trim raw) = true.
Proof.
  intros H. apply validateString_passes in H
    as [(_ & Hp & _)|(raw & s & -> & -> & Hs & [Ha|[[_ Hm]|[Hne Hc]]])]; try discriminate.
  change (Joi.has_trim nameSchema) with true in Hs. cbv iota in Hs. subst s.
  exists raw. split; [done|]. split; [done|].
  cbn [flat_map Joi.rules nameSchema Joi.check app] in Hc.
  destruct (JS.length (JS.trim raw) <? 1) eqn:E1; [discriminate|].
  destruct (100 <? JS.length (JS.trim raw)) eqn:E2; [discriminate|].
  destruct (Regex.test namePattern (JS.trim raw)) eqn:E3; [|discriminate].
  apply Z.ltb_ge in E1, E2. done.
Qed.

Lemma email_passes (item : JSValue) (out : option jsstring) :
  Joi.validateString isEmail (js "email") emailSchema item = ([], out) ->
  exists raw, item = JString raw /\ out = Some raw
    /\ isEmail raw = true /\ 1 <= JS.length raw <= 254.
Proof.
  intros H. apply validateString_passes in H
    as [(_ & Hp & _)|(raw & s & -> & -> & Hs & [Ha|[[_ Hm]|[Hne Hc]]])]; try discriminate.
  change (Joi.has_trim emailSchema) with false in Hs. cbv iota in Hs. subst s.
  exists raw. split; [done|]. split; [done|].
  cbn [flat_map Joi.rules emailSchema Joi.check app] in Hc.
  destruct (isEmail raw) eqn:E1; [|discriminate].
  destruct (254 <? JS.length raw) eqn:E2; [discriminate|].
  apply Z.ltb_ge in E2. split; [done|]. split; [|done].
  destruct raw; [done|]. unfold JS.length. simpl. lia.
Qed.

Lemma subject_passes (item : JSValue) (out : option jsstring) :
  Joi.validateString isEmail (js "subject") subjectSchema item = ([], out) ->
  (item = JUndefined /\ out = None)
  \/ exists raw, item = JString raw /\ out = Some (JS.trim raw)
       /\ JS.length (JS.trim raw) <= 200.
Proof.
  intros H. apply validateString_passes in H
    as [(-> & _ & ->)|(raw & s & -> & -> & Hs & H)]; [by left|right].
  change (Joi.has_trim subjectSchema) with true in Hs. cbv iota in Hs. subst s.
  exists raw. split; [done|]. split; [done|].
  destruct H as [Ha|[[-> _]|[Hne Hc]]].
  - cbn [existsb Joi.allowed subjectSchema] in Ha. rewrite orb_false_r in Ha.
    destruct (JS.trim raw); [done|discriminate].
  - done.
  - cbn [flat_map Joi.rules subjectSchema Joi.check app] in Hc.
    destruct (200 <? JS.length (JS.trim raw)) eqn:E2; [discriminate|].
    by apply Z.ltb_ge in E2.
Qed.

Lemma message_passes (item : JSValue) (out : option jsstring) :
  Joi.validateString isEmail (js "message") messageSchema item = ([], out) ->
  exists raw, item = JString raw /\ out = Some (JS.trim raw)
    /\ 10 <= JS.length (JS.trim raw) <= 5000.
Proof.
  intros H. apply validateString_passes in H
    as [(_ & Hp & _)|(raw & s & -> & -> & Hs & [Ha|[[_ Hm]|[Hne Hc]]])]; try discriminate.
  change (Joi.has_trim messageSchema) with true in Hs. cbv iota in Hs. subst s.
  exists raw. split; [done|]. split; [done|].
  cbn [flat_map Joi.rules messageSchema Joi.check app] in Hc.
  destruct (JS.length (JS.trim raw) <? 10) eqn:E1; [discriminate|].
  destruct (5000 <? JS.length (JS.trim raw)) eqn:E2; [discriminate|].
  apply Z.ltb_ge in E1, E2. done.
Qed.

(** The answer on an object: the four keys are validated in order, and
    the errors of all of them are reported together. *)
Lemma validate_object (props : list (jsstring * JSValue)) :
  Joi.validate isEmail contactFormSchema (JObject props) =
    let n := Joi.validateString isEmail (js "name") nameSchema (getProp props (js "name")) in
    let e := Joi.validateString isEmail (js "email") emailSchema (getProp props (js "email")) in
    let s := Joi.validateString isEmail (js "subject") subjectSchema
               (getProp props (js "subject")) in
    let m := Joi.validateString isEmail (js "message") messageSchema
               (getProp props (js "message")) in
    {| Joi.error := match n.1 ++ e.1 ++ s.1 ++ m.1 with [] => None | errs => Some errs end;
       Joi.value := Some (omap (fun kv => pair kv.1 <$> kv.2)
                            [ (js "name", n.2); (js "email", e.2);
                              (js "subject", s.2); (js "message", m.2) ]) |}.
Proof.
  unfold Joi.validate, contactFormSchema. cbn [Joi.validateKeys].
  destruct (Joi.validateString _ (js "name") _ _) as [e1 [o1|]];
  destruct (Joi.validateString _ (js "email") _ _) as [e2 [o2|]];
  destruct (Joi.validateString _ (js "subject") _ _) as [e3 [o3|]];
  destruct (Joi.validateString _ (js "message") _ _) as [e4 [o4|]];
  cbn [fst snd]; rewrite ?app_nil_r; by destruct (e1 ++ e2 ++ e3 ++ e4).
Qed.

(** C1, at the failing input: on [undefined] (a request without a body)
    the schema reports no error and returns [undefined], and reading
    [value.name] throws; the validator returns neither a sanitized
    submission nor a list of errors. *)
Theorem validateContactForm_undefined_throws :
  validateContactForm isEmail purify JUndefined
  = Throw (TypeError (js "Cannot read properties of undefined (reading 'name')")).
Proof. reflexivity. Qed.

(** On every value other than [undefined] the validator returns, with
    a sanitized submission or with a non-empty list of errors. *)
Lemma validateContactForm_defined (data : JSValue) :
  data <> JUndefined ->
  exists v, validateContactForm isEmail purify data = Normal v
    /\ ((isValid v = true /\ errors v = None /\ exists fd, sanitizedData v = Some fd)
        \/ (isValid v = false /\ sanitizedData v = None
            /\ exists e es, errors v = Some (e :: es))).
Proof.
  intros Hd. unfold validateContactForm.
  destruct (Joi.validate isEmail contactFormSchema data) as [[ds|] val] eqn:E;
    cbn [Joi.error Joi.value].
  - eexists. split; [done|]. right. cbn. repeat split.
    destruct ds as [|d ds]; [|by eexists _, _].
    destruct data; try done; try discriminate.
    rewrite validate_object in E. cbv zeta in E. injection E as E _.
    by destruct (_ ++ _).
  - destruct val as [vs|].
    + eexists. split; [done|]. left. cbn. repeat split. by eexists.
    + destruct data; try done; try discriminate.
      rewrite validate_object in E. discriminate.
Qed.

(** A value that is not an object is answered with one error, on the
    empty path. *)
Lemma validateContactForm_not_object (data : JSValue) :
  data <> JUndefined -> (forall props, data <> JObject props) ->
  validateContactForm isEmail purify data
  = Normal {| isValid := false; sanitizedData := None;
              errors := Some [ValidationError.mk []
                                (dquote :: js "value" ++ dquote :: js " must be of type object")] |}.
Proof. intros Hu Ho. destruct data; try done. by destruct (Ho props). Qed.

(** The specification's example: an empty name, an address without [@]
    and a five-letter message are reported together, one error each. *)
Lemma three_errors :
  isEmail (js "bad") = false ->
  validateContactForm isEmail purify (Sample.form "" "bad" "short")
  = Normal {| isValid := false; sanitizedData := None;
              errors := Some
                [ ValidationError.mk (js "name") (js "Name is required");
                  ValidationError.mk (js "email") (js "Please provide a valid email address");
                  ValidationError.mk (js "message")
                    (js "Message must be at least 10 characters long") ] |}.
Proof.
  intros Hbad. unfold validateContactForm, Sample.form. rewrite validate_object.
  cbv zeta. change (getProp _ (js "name")) with (JString []).
  change (getProp _ (js "email")) with (JString (js "bad")).
  change (getProp _ (js "subject")) with JUndefined.
  change (getProp _ (js "message")) with (JString (js "short")).
  unfold Joi.validateString at 2.
  change (Joi.has_trim emailSchema) with false. cbv iota.
  change (existsb (JS.eqb (js "bad")) (Joi.allowed emailSchema)) with false. cbv iota.
  change (js "bad") with ([98; 97; 100]%N) at 1. cbv iota.
  cbn [flat_map Joi.rules emailSchema Joi.check]. rewrite Hbad.
  vm_compute. reflexivity.
Qed.

(** Several failing rules of one key report one error each. *)
Example two_errors_on_one_field :
  errors <$> (match validateContactForm Sample.isEmail DOMPurify.sanitize
                      (Sample.form "4" "john@example.com" "This is a test message.")
              with Normal v => Some v | Throw _ => None end)
  = Some (Some [ValidationError.mk (js "name") (js "Name contains invalid characters")])
  /\ length <$> (match validateContactForm Sample.isEmail DOMPurify.sanitize
                    (JObject [ (js "name", JString (repeat 52%N 101));
                               (js "email", JString (js "john@example.com"));
                               (js "message", JString (js "This is a test message.")) ])
                 with Normal v => errors v | Throw _ => None end)
    = Some 2%nat.
Proof. vm_compute. split; reflexivity. Qed.

(** C2, amended: a sanitized submission is returned only for an object
    whose name, email, subject and message pass every constraint of the
    schema (after trimming), and it is fully populated: each field is
    the sanitizer's output on the validated value, the subject being
    left out when it is absent or empty. The constraints are those of
    the values handed to the sanitizer; its output is not validated
    again. *)
Theorem validated_fields_then_sanitized (data : JSValue) (v : Validation) :
  validateContactForm isEmail purify data = Normal v ->
  isValid v = true ->
  exists (props : list (jsstring * JSValue)) (name email message : jsstring)
         (subject : option jsstring),
    data = JObject props
    /\ (exists raw, getProp props (js "name") = JString raw /\ name = JS.trim raw)
    /\ getProp props (js "email") = JString email
    /\ match subject with
       | Some s => exists raw, getProp props (js "subject") = JString raw /\ s = JS.trim raw
       | None => getProp props (js "subject") = JUndefined
       end
    /\ (exists raw, getProp props (js "message") = JString raw /\ message = JS.trim raw)
    /\ (JS.trim name = name /\ 1 <= JS.length name <= 100
        /\ Regex.test namePattern name = true)
    /\ (isEmail email = true /\ 1 <= JS.length email <= 254)
    /\ (forall s, subject = Some s -> JS.trim s = s /\ JS.length s <= 200)
    /\ (JS.trim message = message /\ 10 <= JS.length message <= 5000)
    /\ errors v = None
    /\ sanitizedData v = Some
         {| ContactFormRequest.name := purify DOMPurify.no_config name;
            ContactFormRequest.email := purify DOMPurify.no_config email;
            ContactFormRequest.subject :=
              match subject with
              | Some (c :: s) => Some (purify DOMPurify.no_config (c :: s))
              | _ => None
              end;
            ContactFormRequest.message := purify DOMPurify.no_config message |}.
Proof.
  intros Hv Hvalid. unfold validateContactForm in Hv.
  destruct data as [| | | | | |props];
    try (injection Hv as <-; discriminate); try discriminate.
  rewrite validate_object in Hv. cbv zeta in Hv. cbn [Joi.error Joi.value] in Hv.
  destruct (Joi.validateString isEmail (js "name") _ _) as [e1 o1] eqn:E1.
  destruct (Joi.validateString isEmail (js "email") _ _) as [e2 o2] eqn:E2.
  destruct (Joi.validateString isEmail (js "subject") _ _) as [e3 o3] eqn:E3.
  destruct (Joi.validateString isEmail (js "message") _ _) as [e4 o4] eqn:E4.
  cbn [fst snd] in Hv.
  destruct (e1 ++ e2 ++ e3 ++ e4) as [|d ds] eqn:Eerr;
    [|injection Hv as <-; discriminate].
  apply app_eq_nil in Eerr as [-> Eerr]. apply app_eq_nil in Eerr as [-> Eerr].
  apply app_eq_nil in Eerr as [-> ->].
  apply name_passes in E1 as (name & Hn & -> & Hnl & Hnp).
  apply email_passes in E2 as (email & He & -> & Hem & Hel).
  apply message_passes in E4 as (message & Hm & -> & Hml).
  injection Hv as <-.
  apply subject_passes in E3 as [[Hs ->]|(subject & Hs & -> & Hsl)].
  - exists props, (JS.trim name), email, (JS.trim message), None.
    repeat split; eauto using trim_idem; try done; lia.
  - exists props, (JS.trim name), email, (JS.trim message), (Some (JS.trim subject)).
    repeat split; eauto using trim_idem; try done; try lia.
    + match goal with H : Some _ = Some _ |- _ => injection H as <- end. apply trim_idem.
    + by match goal with H : Some _ = Some _ |- _ => injection H as <- end.
Qed.

End ValidationFacts.

(** A submission whose name needs trimming. *)
Lemma validated_fields_then_sanitized_witness :
  let data := Sample.form "  John Doe " "john@example.com" "This is a test message." in
  let v := {| isValid := true;
              sanitizedData := Some (ContactFormRequest.mk (js "John Doe")
                                       (js "john@example.com") None
                                       (js "This is a test message."));
              errors := None |} in
  validateContactForm Sample.isEmail DOMPurify.sanitize data = Normal v
  /\ isValid v = true
  /\ errors v = None.
Proof.
  intros data v. split; [vm_compute; reflexivity|]. split; [reflexivity|].
  destruct (validated_fields_then_sanitized Sample.isEmail DOMPurify.sanitize data v
              ltac:(vm_compute; reflexivity) ltac:(reflexivity))
    as (props & name & email & message & subject & H).
  decompose [and] H. assumption.
Defined.

(** C2, counterexample: a message that is one script element passes the
    length rule (25 units) and is returned sanitized to the empty
    string, which the schema would reject. *)
Lemma script_only_message_sanitized_to_empty :
  validateContactForm Sample.isEmail DOMPurify.sanitize
    (Sample.form "John Doe" "john@example.com" "<script>alert(1)</script>")
  = Normal {| isValid := true;
              sanitizedData := Some (ContactFormRequest.mk (js "John Doe")
                                       (js "john@example.com") None []);
              errors := None |}.
Proof. vm_compute. reflexivity. Qed.

(** ** The rate limiter *)

Section RateLimiterFacts.

Implicit Types (requests : gmap jsstring (list Z)) (identifier : jsstring).

(** The timestamps [isRateLimited] keeps are those inside the window. *)
Lemma valid_in_window (now : Z) (times : list Z) :
  filter (fun time => now - RateLimiter.windowMs < time) times = in_window now times.
Proof. apply list_filter_iff. intros t. lia. Qed.

Lemma in_window_length (now : Z) (times : list Z) :
  (length (in_window now times) <= length times)%nat.
Proof. apply length_filter. Qed.

Lemma in_window_all (now : Z) (times : list Z) :
  Forall (fun t => now - t < RateLimiter.windowMs) times -> in_window now times = times.
Proof.
  induction 1 as [|t ts Ht _ IH]; [done|].
  unfold in_window in *. rewrite filter_cons_True by done. by rewrite IH.
Qed.

Lemma isRateLimited_limited identifier now requests :
  RateLimiter.maxRequests <=
    Z.of_nat (length (in_window now (default [] (requests !! identifier)))) ->
  RateLimiter.isRateLimited identifier now requests = (true, requests).
Proof.
  intros H. unfold RateLimiter.isRateLimited. rewrite valid_in_window.
  by rewrite (proj2 (Z.leb_le _ _) H).
Qed.

Lemma isRateLimited_admitted identifier now requests :
  Z.of_nat (length (in_window now (default [] (requests !! identifier))))
    < RateLimiter.maxRequests ->
  RateLimiter.isRateLimited identifier now requests =
    (false, <[identifier := in_window now (default [] (requests !! identifier)) ++ [now]]>
              requests).
Proof.
  intros H. unfold RateLimiter.isRateLimited. rewrite valid_in_window.
  by rewrite (proj2 (Z.leb_gt _ _) H).
Qed.

Lemma bounded_empty : bounded ∅.
Proof. intros i ts H. by rewrite lookup_empty in H. Qed.

Lemma bounded_step requests (c : call) : bounded requests -> bounded (call_step requests c).
Proof.
  intros Hb. destruct c as [i t|i t]; simpl; [|done].
  destruct (Z_lt_le_dec
    (Z.of_nat (length (in_window t (default [] (requests !! i))))) RateLimiter.maxRequests)
    as [Hlt|Hge].
  - rewrite isRateLimited_admitted by done. simpl.
    intros j ts Hj. destruct (decide (i = j)) as [->|Hne].
    + rewrite lookup_insert_eq in Hj. injection Hj as <-.
      rewrite length_app. simpl. lia.
    + rewrite lookup_insert_ne in Hj by done. by eapply Hb.
  - by rewrite isRateLimited_limited.
Qed.

Lemma bounded_calls (cs : list call) requests : bounded requests -> bounded (calls cs requests).
Proof.
  revert requests. induction cs as [|c cs IH]; intros requests Hb; [done|].
  simpl. apply IH. by apply bounded_step.
Qed.

(** C9: [getRemainingRequests] returns [max(0, 5 - n)], [n] being the
    number of the identifier's recorded timestamps inside the trailing
    window of 15 minutes, and leaves the limiter's map as it was; the
    answer lies between 0 and 5 and no later call is affected. *)
Theorem getRemainingRequests_reads_only identifier (now : Z) requests :
  let n := Z.of_nat (length (filter (fun time => now - time < 15 * 60 * 1000)
                               (default [] (requests !! identifier)))) in
  RateLimiter.getRemainingRequests identifier now requests = (Z.max 0 (5 - n), requests)
  /\ 0 <= fst (RateLimiter.getRemainingRequests identifier now requests) <= 5
  /\ (forall other t,
        RateLimiter.isRateLimited other t
          (snd (RateLimiter.getRemainingRequests identifier now requests))
        = RateLimiter.isRateLimited other t requests).
Proof.
  intros n. unfold RateLimiter.getRemainingRequests. rewrite valid_in_window.
  change (in_window now (default [] (requests !! identifier)))
    with (filter (fun time => now - time < 15 * 60 * 1000)
            (default [] (requests !! identifier))).
  fold n. unfold RateLimiter.maxRequests. simpl. repeat split; lia.
Qed.

(** C10: after any sequence of calls on a fresh limiter, an identifier's
    stored timestamps inside a trailing window number at most five (the
    whole stored list does); a call of [isRateLimited] is admitted
    exactly when fewer than five are inside its window, it then stores
    the pruned list with the new timestamp, and a rejected call leaves
    the map as it was. *)
Theorem limiter_window_bounded (cs : list call) identifier (now : Z) :
  let requests := calls cs ∅ in
  (length (in_window now (default [] (requests !! identifier))) <= 5)%nat
  /\ (length (default [] (requests !! identifier)) <= 5)%nat
  /\ (forall t,
        fst (RateLimiter.isRateLimited identifier t requests) = false <->
        Z.of_nat (length (in_window t (default [] (requests !! identifier)))) < 5)
  /\ (forall t,
        fst (RateLimiter.isRateLimited identifier t requests) = false ->
        snd (RateLimiter.isRateLimited identifier t requests) !! identifier
        = Some (in_window t (default [] (requests !! identifier)) ++ [t]))
  /\ (forall t,
        fst (RateLimiter.isRateLimited identifier t requests) = true ->
        snd (RateLimiter.isRateLimited identifier t requests) = requests).
Proof.
  intros requests.
  assert (Hb : bounded requests) by (apply bounded_calls, bounded_empty).
  assert (Hcase : forall t,
    (Z.of_nat (length (in_window t (default [] (requests !! identifier)))) < 5
     /\ RateLimiter.isRateLimited identifier t requests =
        (false, <[identifier := in_window t (default [] (requests !! identifier)) ++ [t]]>
                  requests))
    \/ (5 <= Z.of_nat (length (in_window t (default [] (requests !! identifier))))
        /\ RateLimiter.isRateLimited identifier t requests = (true, requests))).
  { intros t.
    destruct (Z_lt_le_dec
      (Z.of_nat (length (in_window t (default [] (requests !! identifier))))) 5) as [H|H].
    - left. split; [done|]. by apply isRateLimited_admitted.
    - right. split; [done|]. by apply isRateLimited_limited. }
  assert (Hlen : (length (default [] (requests !! identifier)) <= 5)%nat).
  { destruct (requests !! identifier) as [times|] eqn:E; simpl; [|lia].
    specialize (Hb _ _ E). unfold RateLimiter.maxRequests in Hb. lia. }
  split; [|split; [done|split; [|split]]].
  - pose proof (in_window_length now (default [] (requests !! identifier))). lia.
  - intros t. destruct (Hcase t) as [[Hn ->]|[Hn ->]]; simpl; split; intros; try done; lia.
  - intros t. destruct (Hcase t) as [[Hn ->]|[Hn ->]]; simpl; [|done].
    intros _. apply lookup_insert_eq.
  - intros t. by destruct (Hcase t) as [[Hn ->]|[Hn ->]].
Qed.

Lemma isRateLimited_each_app identifier (ts1 ts2 : list Z) requests :
  isRateLimited_each identifier (ts1 ++ ts2) requests =
    let '(bs1, r1) := isRateLimited_each identifier ts1 requests in
    let '(bs2, r2) := isRateLimited_each identifier ts2 r1 in
    (bs1 ++ bs2, r2).
Proof.
  revert requests. induction ts1 as [|t ts1 IH]; intros requests; simpl.
  - by destruct (isRateLimited_each identifier ts2 requests).
  - destruct (RateLimiter.isRateLimited identifier t requests) as [b r0].
    rewrite IH. destruct (isRateLimited_each identifier ts1 r0) as [bs1 r1].
    by destruct (isRateLimited_each identifier ts2 r1).
Qed.

(** While fewer than five timestamps are recorded and every recorded
    one is inside the window of each later call, every call is admitted
    and recorded. *)
Lemma isRateLimited_each_admitted identifier (times acc : list Z) requests :
  default [] (requests !! identifier) = acc ->
  (length acc + length times <= 5)%nat ->
  Forall (fun t => Forall (fun t' => t - t' < RateLimiter.windowMs) (acc ++ times)) times ->
  fst (isRateLimited_each identifier times requests) = replicate (length times) false
  /\ default [] (snd (isRateLimited_each identifier times requests) !! identifier)
     = acc ++ times.
Proof.
  revert acc requests. induction times as [|t ts IH]; intros acc requests Hacc Hlen Hwin.
  - simpl. by rewrite app_nil_r.
  - simpl in *. inversion Hwin as [|? ? Ht Hts]; subst.
    apply Forall_app in Ht as [Hin _].
    rewrite isRateLimited_admitted; rewrite in_window_all by done;
      [|unfold RateLimiter.maxRequests; lia].
    destruct (IH (default [] (requests !! identifier) ++ [t])
                (<[identifier := default [] (requests !! identifier) ++ [t]]> requests))
      as [Hb Hr].
    + by rewrite lookup_insert_eq.
    + rewrite length_app. simpl. lia.
    + by rewrite <- app_assoc.
    + destruct (isRateLimited_each identifier ts _) as [bs r2]. simpl in *.
      split; [by rewrite Hb|]. by rewrite Hr, <- app_assoc.
Qed.

(** Six calls for a client without a record, pairwise less than the
    window apart: five are admitted, the sixth is rejected. *)
Lemma six_calls identifier (times : list Z) requests :
  length times = 6%nat ->
  default [] (requests !! identifier) = [] ->
  Forall (fun t => Forall (fun t' => t - t' < RateLimiter.windowMs) times) times ->
  fst (isRateLimited_each identifier times requests) = [false; false; false; false; false; true].
Proof.
  intros Hlen Hfresh Hwin.
  destruct times as [|t1 [|t2 [|t3 [|t4 [|t5 [|t6 [|]]]]]]]; try done.
  change [t1; t2; t3; t4; t5; t6] with ([t1; t2; t3; t4; t5] ++ [t6]) in *.
  rewrite isRateLimited_each_app.
  apply Forall_app in Hwin as [Hfive Hsix].
  destruct (isRateLimited_each_admitted identifier [t1; t2; t3; t4; t5] [] requests)
    as [Hb Hr]; [done|simpl; lia| |].
  { eapply Forall_impl; [exact Hfive|]. intros t Ht.
    change (Forall (fun t' => t - t' < RateLimiter.windowMs)
              ([t1; t2; t3; t4; t5] ++ [t6])) in Ht.
    by apply Forall_app in Ht as [? _]. }
  destruct (isRateLimited_each identifier [t1; t2; t3; t4; t5] requests) as [bs r1].
  simpl in Hb, Hr. subst bs. simpl.
  rewrite isRateLimited_limited; [done|].
  rewrite Hr. rewrite in_window_all.
  - unfold RateLimiter.maxRequests. simpl. lia.
  - inversion Hsix as [|? ? Ht6 _]; subst.
    change (Forall (fun t' => t6 - t' < RateLimiter.windowMs)
              ([t1; t2; t3; t4; t5] ++ [t6])) in Ht6.
    by apply Forall_app in Ht6 as [? _].
Qed.

End RateLimiterFacts.

(** ** The request handler *)

Section HandlerFacts.

Variable isEmail : jsstring -> bool.
Variable purify : DOMPurify.Config -> jsstring -> jsstring.
Variable SECURITY_HEADERS : Headers.
Variable getCorsHeaders : option jsstring -> Headers.
Variable getClientIp : Headers -> jsstring.
Variable transport : ContactFormRequest.t -> jsstring -> completion unit.

Local Abbreviation handler :=
  (contactFormFunction isEmail purify SECURITY_HEADERS getCorsHeaders getClientIp transport).
Local Abbreviation served :=
  (serve isEmail purify SECURITY_HEADERS getCorsHeaders getClientIp transport).
Local Abbreviation respond := (errorResponse SECURITY_HEADERS getCorsHeaders).
Local Abbreviation accepted := (successResponse SECURITY_HEADERS getCorsHeaders).
Local Abbreviation tooMany req inv :=
  (respond 429 (headers req !! js "origin") {[ js "Retry-After" := js "900" ]}
     (js "RATE_LIMIT_EXCEEDED") (js "Too many requests. Please try again later.")
     None (isoNow inv)).
Local Abbreviation failure req inv :=
  (respond 500 (headers req !! js "origin") ∅ (js "INTERNAL_SERVER_ERROR")
     (js "An unexpected error occurred. Please try again later.") None (isoNow inv)).
Local Abbreviation limited req inv w :=
  (fst (RateLimiter.isRateLimited (getClientIp (headers req)) (now inv) (requests w))).

(** The handler on a POST request, path by path. *)
Lemma handler_post (inv : Invocation) (req : HttpRequest) (w : World) :
  method req = js "POST" ->
  let origin := headers req !! js "origin" in
  let w0 := log INFO (js "Contact form request received") w in
  let '(limited, rq) :=
    RateLimiter.isRateLimited (getClientIp (headers req)) (now inv) (requests w) in
  let w1 := {| requests := rq; sent := sent w0; logged := logged w0 |} in
  handler inv req w =
    if limited then (tooMany req inv, log WARN (js "Rate limit exceeded") w1)
    else
      match validateContactForm isEmail purify (body req) with
      | Throw _ =>
          (failure req inv, log ERROR (js "Unexpected error in contact form function") w1)
      | Normal v =>
          match isValid v, sanitizedData v with
          | true, Some formData =>
              if isSpam (messageContent formData) then
                (accepted origin (requestId inv), log WARN (js "Spam detected") w1)
              else
                let w2 := {| requests := rq;
                             sent := sent w1 ++ [(formData, requestId inv)];
                             logged := logged w1 |} in
                match transport formData (requestId inv) with
                | Normal _ =>
                    (accepted origin (requestId inv),
                     log INFO (js "Contact form processed successfully")
                       (log INFO (js "Contact email sent successfully") w2))
                | Throw _ =>
                    (failure req inv,
                     log ERROR (js "Unexpected error in contact form function")
                       (log ERROR (js "Failed to send contact email") w2))
                end
          | _, _ =>
              (respond 400 origin ∅ (js "VALIDATION_ERROR") (js "Invalid input data")
                 (errors v) (isoNow inv),
               log WARN (js "Validation failed") w1)
          end
      end.
Proof.
  intros Hm origin w0.
  unfold contactFormFunction, pipeline. rewrite Hm.
  change (JS.eqb (js "POST") (js "OPTIONS")) with false.
  change (JS.eqb (js "POST") (js "POST")) with true. cbv iota beta. cbn [negb].
  unfold mbind, Eff_bind, rateLimiter_isRateLimited. cbn [requests log].
  destruct (RateLimiter.isRateLimited _ _ _) as [[|] rq]; [reflexivity|].
  unfold lift. destruct (validateContactForm _ _ _) as [v|e]; [|reflexivity].
  destruct (isValid v), (sanitizedData v) as [fd|]; try reflexivity.
  destruct (isSpam _); [reflexivity|].
  unfold sendContactEmail, try_catch, mbind, Eff_bind, lift.
  destruct (transport _ _); reflexivity.
Qed.

(** A request that is not a POST is answered without touching the
    limiter or the mail collaborator. *)
Lemma handler_not_post (inv : Invocation) (req : HttpRequest) (w : World) :
  method req <> js "POST" ->
  requests (snd (handler inv req w)) = requests w
  /\ sent (snd (handler inv req w)) = sent w
  /\ (status (fst (handler inv req w)) = 200 \/ status (fst (handler inv req w)) = 405).
Proof.
  intros Hm. unfold contactFormFunction, pipeline.
  destruct (JS.eqb (method req) (js "OPTIONS")); [by auto|].
  destruct (JS.eqb (method req) (js "POST")) eqn:E; [|by auto].
  by apply eqb_eq in E.
Qed.

(** A POST request is answered 429 exactly when the limiter rejects its
    client, and the handler changes the limiter only through that call. *)
Lemma handler_rate_limit (inv : Invocation) (req : HttpRequest) (w : World) :
  method req = js "POST" ->
  requests (snd (handler inv req w))
    = snd (RateLimiter.isRateLimited (getClientIp (headers req)) (now inv) (requests w))
  /\ (if limited req inv w
      then fst (handler inv req w) = tooMany req inv
      else status (fst (handler inv req w)) <> 429).
Proof.
  intros Hm. pose proof (handler_post inv req w Hm) as H. cbv zeta in H.
  destruct (RateLimiter.isRateLimited _ _ _) as [[|] rq]; rewrite H; [done|].
  destruct (validateContactForm _ _ _) as [v|e]; [|done].
  destruct (isValid v), (sanitizedData v) as [fd|]; try done.
  destruct (isSpam _); [done|].
  by destruct (transport _ _).
Qed.

(** One request makes at most one call of [sendContactEmail]. *)
Lemma handler_sends_once (inv : Invocation) (req : HttpRequest) (w : World) :
  sent (snd (handler inv req w)) = sent w
  \/ exists formData, sent (snd (handler inv req w)) = sent w ++ [(formData, requestId inv)].
Proof.
  destruct (decide (method req = js "POST")) as [Hm|Hm];
    [|left; by apply handler_not_post].
  pose proof (handler_post inv req w Hm) as H. cbv zeta in H.
  destruct (RateLimiter.isRateLimited _ _ _) as [[|] rq]; rewrite H; [by left|].
  destruct (validateContactForm _ _ _) as [v|e]; [|by left].
  destruct (isValid v), (sanitizedData v) as [fd|]; try (by left).
  destruct (isSpam _); [by left|].
  right. exists fd. by destruct (transport _ _).
Qed.

Lemma serve_length (reqs : list (Invocation * HttpRequest)) (w : World) :
  length (fst (served reqs w)) = length reqs.
Proof.
  revert w. induction reqs as [|[inv req] reqs IH]; intros w; [done|].
  simpl. destruct (contactFormFunction _ _ _ _ _ _ inv req w) as [res w1].
  specialize (IH w1). destruct (serve _ _ _ _ _ _ reqs w1). simpl in *. by rewrite IH.
Qed.

Lemma serve_rate_limit (client : jsstring) (reqs : list (Invocation * HttpRequest))
    (w : World) :
  Forall (fun r => method r.2 = js "POST" /\ getClientIp (headers r.2) = client) reqs ->
  requests (snd (served reqs w))
    = snd (isRateLimited_each client (map (fun r => now r.1) reqs) (requests w))
  /\ Forall2 (fun r b => if (b : bool) then r.2 = tooMany r.1.2 r.1.1
                         else status r.2 <> 429)
       (zip reqs (fst (served reqs w)))
       (fst (isRateLimited_each client (map (fun r => now r.1) reqs) (requests w))).
Proof.
  revert w. induction reqs as [|[inv req] reqs IH]; intros w Hall; [by split; constructor|].
  inversion Hall as [|? ? Hhd Hrest]; subst. destruct Hhd as [Hm Hc]. simpl in Hm, Hc.
  destruct (handler_rate_limit inv req w Hm) as [Hrq Hres].
  simpl. rewrite Hc in Hrq, Hres.
  destruct (contactFormFunction _ _ _ _ _ _ inv req w) as [res w1].
  destruct (RateLimiter.isRateLimited client (now inv) (requests w)) as [b rq1].
  simpl in Hrq, Hres. subst rq1.
  destruct (IH w1 Hrest) as [IHrq IHres].
  destruct (serve _ _ _ _ _ _ reqs w1) as [ress w2].
  destruct (isRateLimited_each client _ (requests w1)) as [bs rq2].
  simpl in *. split; [done|]. by constructor.
Qed.

(** C3: a call of [isRateLimited] keeps the identifier's timestamps
    newer than the window of 15 minutes, answers [true] and records
    nothing when five or more remain, and otherwise records the current
    time after them and answers [false]; so of six POST requests of one
    client without a record, pairwise less than 15 minutes apart, the
    first five pass the check and the sixth is answered 429 with the
    code RATE_LIMIT_EXCEEDED. *)
Theorem sixth_request_rate_limited (client : jsstring)
    (reqs : list (Invocation * HttpRequest)) (w : World) :
  length reqs = 6%nat ->
  Forall (fun r => method r.2 = js "POST" /\ getClientIp (headers r.2) = client) reqs ->
  default [] (requests w !! client) = [] ->
  Forall (fun r => Forall (fun r' => now r.1 - now r'.1 < 15 * 60 * 1000) reqs) reqs ->
  (forall identifier t rq,
     let kept := filter (fun time => t - 15 * 60 * 1000 < time)
                   (default [] (rq !! identifier)) in
     RateLimiter.isRateLimited identifier t rq =
       if 5 <=? Z.of_nat (length kept) then (true, rq)
       else (false, <[identifier := kept ++ [t]]> rq))
  /\ fst (isRateLimited_each client (map (fun r => now r.1) reqs) (requests w))
     = [false; false; false; false; false; true]
  /\ exists r1 r2 r3 r4 r5 r6 last,
       fst (served reqs w) = [r1; r2; r3; r4; r5; r6]
       /\ reqs !! 5%nat = Some last
       /\ Forall (fun r => status r <> 429) [r1; r2; r3; r4; r5]
       /\ status r6 = 429
       /\ resBody r6 = BodyError (ApiError.mk (js "RATE_LIMIT_EXCEEDED")
                                    (js "Too many requests. Please try again later.")
                                    None (isoNow last.1))
       /\ resHeaders r6 !! js "Retry-After" = Some (js "900").
Proof.
  intros Hlen Hall Hfresh Hwin.
  assert (Hsix : fst (isRateLimited_each client (map (fun r => now r.1) reqs) (requests w))
                 = [false; false; false; false; false; true]).
  { apply six_calls; [by rewrite length_map|done|].
    apply Forall_map. eapply Forall_impl; [exact Hwin|]. intros r Hr.
    by apply Forall_map. }
  split; [done|]. split; [done|].
  destruct (serve_rate_limit client reqs w Hall) as [_ HF]. rewrite Hsix in HF.
  pose proof (serve_length reqs w) as Hl. rewrite Hlen in Hl.
  destruct (fst (served reqs w)) as [|r1 [|r2 [|r3 [|r4 [|r5 [|r6 [|]]]]]]]; try done.
  destruct reqs as [|q1 [|q2 [|q3 [|q4 [|q5 [|q6 [|]]]]]]]; try done.
  simpl in HF.
  repeat match goal with H : Forall2 _ (_ :: _) (_ :: _) |- _ =>
    apply Forall2_cons in H as [? H] end.
  simpl in *. exists r1, r2, r3, r4, r5, r6, q6. subst r6.
  repeat split; try done.
  - by repeat constructor.
  - unfold errorResponse, spread. cbn [resHeaders].
    apply lookup_union_Some_l, lookup_singleton_eq.
Qed.

(** C5: a POST request that passes the limiter and validates to a
    submission whose content is classified spam is answered 200 with the
    success body, and [sendContactEmail] is not called; the answer is
    the one a submission that is accepted and mailed gets (for the same
    origin and request identifier). A message with the text of the
    specification's example is classified spam whatever the name and
    the subject. *)
Theorem spam_answered_as_accepted (inv : Invocation) (req : HttpRequest) (w : World)
    (v : Validation) (formData : ContactFormRequest.t) :
  method req = js "POST" ->
  limited req inv w = false ->
  validateContactForm isEmail purify (body req) = Normal v ->
  isValid v = true ->
  sanitizedData v = Some formData ->
  isSpam (messageContent formData) = true ->
  status (fst (handler inv req w)) = 200
  /\ resBody (fst (handler inv req w))
     = BodySuccess (ContactFormResponse.mk true thanks (Some (requestId inv)))
  /\ sent (snd (handler inv req w)) = sent w
  /\ (forall req' w' v' formData',
        method req' = js "POST" ->
        limited req' inv w' = false ->
        validateContactForm isEmail purify (body req') = Normal v' ->
        isValid v' = true ->
        sanitizedData v' = Some formData' ->
        isSpam (messageContent formData') = false ->
        transport formData' (requestId inv) = Normal tt ->
        headers req' !! js "origin" = headers req !! js "origin" ->
        fst (handler inv req' w') = fst (handler inv req w)
        /\ sent (snd (handler inv req' w')) = sent w' ++ [(formData', requestId inv)])
  /\ (forall fd,
        ContactFormRequest.message fd = js "Click here for free money and casino winnings!" ->
        isSpam (messageContent fd) = true).
Proof.
  intros Hm Hlim Hv Hval Hsd Hspam.
  pose proof (handler_post inv req w Hm) as H. cbv zeta in H.
  destruct (RateLimiter.isRateLimited _ _ _) as [b rq]. simpl in Hlim. subst b.
  rewrite Hv, Hval, Hsd, Hspam in H. rewrite H.
  split; [done|]. split; [done|]. split; [done|]. split.
  - intros req' w' v' fd' Hm' Hlim' Hv' Hval' Hsd' Hspam' Hok Ho. split.
    + pose proof (handler_post inv req' w' Hm') as H'. cbv zeta in H'.
      destruct (RateLimiter.isRateLimited _ _ _) as [b' rq']. simpl in Hlim'. subst b'.
      rewrite Hv', Hval', Hsd', Hspam', Hok in H'. rewrite H'. simpl. by rewrite Ho.
    + pose proof (handler_post inv req' w' Hm') as H'. cbv zeta in H'.
      destruct (RateLimiter.isRateLimited _ _ _) as [b' rq']. simpl in Hlim'. subst b'.
      rewrite Hv', Hval', Hsd', Hspam', Hok in H'. by rewrite H'.
  - apply click_here_is_spam.
Qed.

(** C8: whatever the pipeline throws, the handler answers 500 with the
    code INTERNAL_SERVER_ERROR and a body of the fixed message and the
    time, in which nothing of the exception appears; this is what
    happens when the validator throws and when sending the mail fails.
    One request calls [sendContactEmail] at most once. *)
Theorem exceptions_answered_500 (inv : Invocation) (req : HttpRequest) (w : World) :
  let out := handler inv req w in
  let internal :=
    {| status := 500;
       resHeaders := spread (jsonHeaders SECURITY_HEADERS getCorsHeaders
                               (headers req !! js "origin")) ∅;
       resBody := BodyError
         (ApiError.mk (js "INTERNAL_SERVER_ERROR")
            (js "An unexpected error occurred. Please try again later.")
            None (isoNow inv)) |} in
  (forall e w',
     pipeline isEmail purify SECURITY_HEADERS getCorsHeaders getClientIp transport
       inv req (log INFO (js "Contact form request received") w) = (Throw e, w') ->
     out = (internal, log ERROR (js "Unexpected error in contact form function") w'))
  /\ (forall e,
        method req = js "POST" -> limited req inv w = false ->
        validateContactForm isEmail purify (body req) = Throw e ->
        fst out = internal /\ sent (snd out) = sent w)
  /\ (forall v formData e,
        method req = js "POST" -> limited req inv w = false ->
        validateContactForm isEmail purify (body req) = Normal v ->
        isValid v = true -> sanitizedData v = Some formData ->
        isSpam (messageContent formData) = false ->
        transport formData (requestId inv) = Throw e ->
        fst out = internal /\ sent (snd out) = sent w ++ [(formData, requestId inv)])
  /\ (length (sent (snd out)) <= S (length (sent w)))%nat.
Proof.
  intros out internal. subst out. split; [|split; [|split]].
  - intros e w' Hp. unfold contactFormFunction. by rewrite Hp.
  - intros e Hm Hlim Hv.
    pose proof (handler_post inv req w Hm) as H. cbv zeta in H.
    destruct (RateLimiter.isRateLimited _ _ _) as [b rq]. simpl in Hlim. subst b.
    rewrite Hv in H. by rewrite H.
  - intros v fd e Hm Hlim Hv Hval Hsd Hspam Hfail.
    pose proof (handler_post inv req w Hm) as H. cbv zeta in H.
    destruct (RateLimiter.isRateLimited _ _ _) as [b rq]. simpl in Hlim. subst b.
    rewrite Hv, Hval, Hsd, Hspam, Hfail in H. by rewrite H.
  - destruct (handler_sends_once inv req w) as [->|[fd ->]]; [lia|].
    rewrite length_app. simpl. lia.
Qed.

End HandlerFacts.

(** Six submissions of one client, one a minute, to a fresh process. *)
Lemma sixth_request_rate_limited_witness :
  length Sample.six = 6%nat
  /\ default [] (requests initial !! js "203.0.113.7") = []
  /\ fst (isRateLimited_each (js "203.0.113.7") (map (fun r => now r.1) Sample.six)
            (requests initial))
     = [false; false; false; false; false; true].
Proof.
  split; [reflexivity|]. split; [reflexivity|].
  apply (sixth_request_rate_limited Sample.isEmail DOMPurify.sanitize
           Sample.SECURITY_HEADERS Sample.getCorsHeaders Sample.getClientIp Sample.delivers
           (js "203.0.113.7") Sample.six initial).
  - reflexivity.
  - repeat constructor; vm_compute; reflexivity.
  - reflexivity.
  - repeat constructor; vm_compute; reflexivity.
Defined.

(** The specification's spam example, sent to a fresh process. *)
Lemma spam_answered_as_accepted_witness :
  let formData :=
    ContactFormRequest.mk (js "John Doe") (js "john@example.com") None
      (js "Click here for free money and casino winnings!") in
  validateContactForm Sample.isEmail DOMPurify.sanitize (body Sample.spam)
    = Normal {| isValid := true; sanitizedData := Some formData; errors := None |}
  /\ isSpam (messageContent formData) = true
  /\ status (fst (Sample.handler (Sample.at_time 0) Sample.spam initial)) = 200
  /\ sent (snd (Sample.handler (Sample.at_time 0) Sample.spam initial)) = [].
Proof.
  intros formData.
  assert (Hv : validateContactForm Sample.isEmail DOMPurify.sanitize (body Sample.spam)
               = Normal {| isValid := true; sanitizedData := Some formData; errors := None |})
    by (vm_compute; reflexivity).
  assert (Hs : isSpam (messageContent formData) = true) by (vm_compute; reflexivity).
  split; [exact Hv|]. split; [exact Hs|].
  destruct (spam_answered_as_accepted Sample.isEmail DOMPurify.sanitize
              Sample.SECURITY_HEADERS Sample.getCorsHeaders Sample.getClientIp
              Sample.delivers (Sample.at_time 0) Sample.spam initial _ formData
              ltac:(reflexivity) ltac:(vm_compute; reflexivity) Hv ltac:(reflexivity)
              ltac:(reflexivity) Hs)
    as (Hstatus & _ & Hsent & _).
  split; [exact Hstatus|exact Hsent].
Defined.

(** A POST without a body is answered 500, through the validator's
    exception; so is a valid submission whose mail cannot be sent. *)
Example exceptions_in_practice :
  status (fst (Sample.handler (Sample.at_time 0) (Sample.post JUndefined) initial)) = 500
  /\ status (fst (contactFormFunction Sample.isEmail DOMPurify.sanitize
                    Sample.SECURITY_HEADERS Sample.getCorsHeaders Sample.getClientIp
                    Sample.fails (Sample.at_time 0)
                    (Sample.post (Sample.form "John Doe" "john@example.com"
                                    "This is a test message."))
                    initial)) = 500
  /\ status (fst (Sample.handler (Sample.at_time 0)
                    (Sample.post (Sample.form "John Doe" "john@example.com"
                                    "This is a test message."))
                    initial)) = 200
  /\ status (fst (Sample.handler (Sample.at_time 0)
                    (Sample.post (Sample.form "" "bad" "short")) initial)) = 400.
Proof. vm_compute. repeat split; reflexivity. Qed.

(** The six sample submissions, served in turn by a fresh process. *)
Example six_requests_in_practice :
  map status (fst (serve Sample.isEmail DOMPurify.sanitize Sample.SECURITY_HEADERS
                     Sample.getCorsHeaders Sample.getClientIp Sample.delivers
                     Sample.six initial))
  = [200; 200; 200; 200; 200; 429].
Proof. vm_compute. reflexivity. Qed.

(** ** Patterns and the matcher *)

Section MatcherFacts.

Import Regex Matches.

Lemma mstate_eta (st : mstate) : MState (before st) (after st) (caps st) = st.
Proof. by destruct st. Qed.

Lemma cap_clear_nil (cs : list (nat * jsstring)) : cap_clear [] cs = cs.
Proof.
  unfold cap_clear. induction cs as [|c cs IH]; [done|]. simpl in *. by f_equal.
Qed.

Lemma groups_plain (r : regex) : plain r = true -> groups r = [].
Proof.
  induction r; simpl; intros H; try done.
  - apply andb_true_iff in H as [H1 H2]. by rewrite IHr1, IHr2.
  - apply andb_true_iff in H as [H1 H2]. by rewrite IHr1, IHr2.
  - apply andb_true_iff in H as [H1 _]. auto.
Qed.

Lemma accepts_rep (icase : bool) (lo : nat) (hi : option nat) (r : regex)
    (b u a : jsstring) :
  accepts icase (Rep lo hi r) b u a <->
  exists us, u = concat us
    /\ (lo <= length us)%nat
    /\ (forall h, hi = Some h -> (length us <= h)%nat)
    /\ Forall (fun p => p <> []) (drop lo us)
    /\ pieces icase r b us a.
Proof.
  assert (Hp : forall us b',
    (fix pieces (b : jsstring) (us : list jsstring) : Prop :=
       match us with
       | [] => True
       | p :: ps => accepts icase r b p (concat ps ++ a) /\ pieces (rev p ++ b) ps
       end) b' us <-> pieces icase r b' us a).
  { induction us as [|p ps IH]; intros b'; [done|]. simpl. by rewrite IH. }
  simpl. split; intros (us & H1 & H2 & H3 & H4 & H5); exists us;
    repeat split; try done; by apply Hp.
Qed.

(** The quantifier, given what its atom matches. *)
Lemma repeat_match_spec (icase : bool) (r : regex) :
  (forall st k,
     rmatch icase r st k = true <->
     exists u a, after st = u ++ a /\ accepts icase r (before st) u a
       /\ k (MState (rev u ++ before st) a (caps st)) = true) ->
  forall (budget lo : nat) (hi : option nat) (st : mstate) (k : mstate -> bool),
    (forall h, hi = Some h -> (lo <= h)%nat) ->
    (lo + length (after st) < budget)%nat ->
    repeat_match budget [] (rmatch icase r) lo hi st k = true <->
    exists us a, after st = concat us ++ a
      /\ (lo <= length us)%nat
      /\ (forall h, hi = Some h -> (length us <= h)%nat)
      /\ Forall (fun p => p <> []) (drop lo us)
      /\ pieces icase r (before st) us a
      /\ k (MState (rev (concat us) ++ before st) a (caps st)) = true.
Proof.
  intros Hm. induction budget as [|budget IH]; intros lo hi st k Hwf Hb; [lia|].
  cbn [repeat_match]. rewrite cap_clear_nil, mstate_eta.
  assert (Hnil : k st = true ->
    exists a, after st = concat [] ++ a
      /\ k (MState (rev (concat []) ++ before st) a (caps st)) = true).
  { intros Hk. exists (after st). simpl. by rewrite mstate_eta. }
  assert (Hstep : forall (lo' : nat) (hi' : option nat),
    (forall h, hi' = Some h -> (lo' <= h)%nat) ->
    (forall st', (length (after st') < length (after st))%nat \/ (0 < lo)%nat ->
       (length (after st') <= length (after st))%nat ->
       (lo' + length (after st') < budget)%nat) ->
    forall cond,
    (cond = (Nat.eqb lo 0)) ->
    rmatch icase r st
      (fun st' =>
         if cond && Nat.eqb (length (after st')) (length (after st)) then false
         else repeat_match budget [] (rmatch icase r) lo' hi' st' k) = true <->
    exists u1 us' a, after st = u1 ++ concat us' ++ a
      /\ (lo = 0%nat -> u1 <> [])
      /\ accepts icase r (before st) u1 (concat us' ++ a)
      /\ (lo' <= length us')%nat
      /\ (forall h, hi' = Some h -> (length us' <= h)%nat)
      /\ Forall (fun p => p <> []) (drop lo' us')
      /\ pieces icase r (rev u1 ++ before st) us' a
      /\ k (MState (rev (concat us') ++ rev u1 ++ before st) a (caps st)) = true).
  { intros lo' hi' Hwf' Hbud cond ->. rewrite Hm. split.
    - intros (u1 & a1 & Ha & Hacc & Hk). cbn [after before caps] in Hk.
      assert (Hlen : length (after st) = (length u1 + length a1)%nat)
        by (by rewrite Ha, length_app).
      destruct (Nat.eqb lo 0 && Nat.eqb (length a1) (length (after st))) eqn:Hc;
        [done|].
      assert (Hne : lo = 0%nat -> u1 <> []).
      { intros -> ->. simpl in *. by rewrite Hlen, Nat.eqb_refl in Hc. }
      apply IH in Hk as (us' & a & Ha1 & H1 & H2 & H3 & H4 & H5); [|done|].
      + cbn [after before caps] in *. subst a1. exists u1, us', a. repeat split; done.
      + cbn [after].
        apply (Hbud (MState (rev u1 ++ before st) a1 (caps st))); cbn [after]; [|lia].
        destruct (Nat.eq_dec lo 0%nat) as [E|E]; [|right; lia].
        left. specialize (Hne E). destruct u1; [done|]. simpl in Hlen. lia.
    - intros (u1 & us' & a & Ha & Hne & Hacc & H1 & H2 & H3 & H4 & H5).
      exists u1, (concat us' ++ a). repeat split; [done..|].
      cbn [after before caps].
      assert (Hlen : length (after st) = (length u1 + length (concat us' ++ a))%nat)
        by (by rewrite Ha, length_app).
      replace (Nat.eqb lo 0 && Nat.eqb (length (concat us' ++ a)) (length (after st)))
        with false.
      + apply IH; [done| |].
        * cbn [after].
          apply (Hbud (MState (rev u1 ++ before st) (concat us' ++ a) (caps st)));
            cbn [after]; [|lia].
          destruct (Nat.eq_dec lo 0%nat) as [E|E]; [|right; lia].
          left. specialize (Hne E). destruct u1; [done|]. simpl in Hlen. lia.
        * exists us', a. cbn [after before caps]. repeat split; done.
      + symmetry. apply andb_false_iff.
        destruct (Nat.eq_dec lo 0%nat) as [E|E].
        * right. apply Nat.eqb_neq. specialize (Hne E).
          destruct u1; [done|]. simpl in Hlen. lia.
        * left. by apply Nat.eqb_neq. }
  assert (Hcons : forall u1 us',
    rev (concat us') ++ rev u1 ++ before st = rev (concat (u1 :: us')) ++ before st).
  { intros. simpl. by rewrite rev_app_distr, <- app_assoc. }
  assert (Hhi : hi <> Some 0%nat -> forall us' : list jsstring,
    (forall h, Nat.pred <$> hi = Some h -> (length us' <= h)%nat)
    <-> (forall h, hi = Some h -> (S (length us') <= h)%nat)).
  { intros Hz us'. destruct hi as [[|h0]|]; [done| |done].
    split; intros H h [= <-]; specialize (H _ eq_refl); simpl in *; lia. }
  assert (Hmore : hi <> Some 0%nat ->
    rmatch icase r st
      (fun st' =>
         if Nat.eqb lo 0 && Nat.eqb (length (after st')) (length (after st)) then false
         else repeat_match budget [] (rmatch icase r) (Nat.pred lo) (Nat.pred <$> hi) st' k)
      = true <->
    exists us a, us <> [] /\ after st = concat us ++ a
      /\ (lo <= length us)%nat
      /\ (forall h, hi = Some h -> (length us <= h)%nat)
      /\ Forall (fun p => p <> []) (drop lo us)
      /\ pieces icase r (before st) us a
      /\ k (MState (rev (concat us) ++ before st) a (caps st)) = true).
  { intros Hz. rewrite Hstep; [| |intros; simpl in *; lia|done].
    - split.
      + intros (u1 & us' & a & Ha & Hne & Hacc & H1 & H2 & H3 & H4 & H5).
        exists (u1 :: us'), a. rewrite <- Hcons. simpl. rewrite <- app_assoc.
        pose proof (proj1 (Hhi Hz us') H2) as H2'.
        split; [done|]. split; [done|]. split; [lia|]. split; [exact H2'|].
        split; [|done].
        destruct lo as [|lo]; [|done]. constructor; auto.
      + intros (us & a & Hnn & Ha & Hlo & Hb' & Hne & Hp & Hk).
        destruct us as [|u1 us']; [done|].
        simpl in Ha, Hp, Hlo. rewrite <- app_assoc in Ha. destruct Hp as [Hacc Hp].
        exists u1, us', a. rewrite Hcons.
        split; [done|]. split.
        { intros ->. by inversion Hne. }
        split; [done|]. split; [lia|]. split; [apply (proj2 (Hhi Hz us')); intros h Hh; exact (Hb' h Hh)|].
        split; [|done].
        destruct lo as [|lo]; [|done]. by inversion Hne.
    - intros h Hh. destruct hi as [[|h0]|]; try done. injection Hh as <-.
      specialize (Hwf _ eq_refl). simpl. lia. }
  destruct (decide (hi = Some 0%nat)) as [->|Hz].
  - (* at most zero repetitions *)
    assert (lo = 0%nat) as -> by (specialize (Hwf 0%nat eq_refl); lia).
    split.
    + intros Hk. destruct (Hnil Hk) as (a & Ha & Hk'). exists [], a.
      split; [done|]. split; [done|]. split; [by intros h [= <-]|]. done.
    + intros (us & a & Ha & _ & Hb' & _ & _ & Hk).
      specialize (Hb' 0%nat eq_refl). destruct us; [|simpl in Hb'; lia].
      simpl in *. subst a. by rewrite mstate_eta in Hk.
  - assert (Hgoal :
      (match lo with
       | S _ => rmatch icase r st
           (fun st' =>
              if Nat.eqb lo 0 && Nat.eqb (length (after st')) (length (after st))
              then false
              else repeat_match budget [] (rmatch icase r) (Nat.pred lo)
                     (Nat.pred <$> hi) st' k)
       | O => rmatch icase r st
           (fun st' =>
              if Nat.eqb lo 0 && Nat.eqb (length (after st')) (length (after st))
              then false
              else repeat_match budget [] (rmatch icase r) (Nat.pred lo)
                     (Nat.pred <$> hi) st' k) || k st
       end) = true <->
      exists us a, after st = concat us ++ a
        /\ (lo <= length us)%nat
        /\ (forall h, hi = Some h -> (length us <= h)%nat)
        /\ Forall (fun p => p <> []) (drop lo us)
        /\ pieces icase r (before st) us a
        /\ k (MState (rev (concat us) ++ before st) a (caps st)) = true).
    { destruct lo as [|lo].
      - rewrite orb_true_iff, (Hmore Hz). split.
        + intros [(us & a & _ & H)|Hk]; [by exists us, a|].
          destruct (Hnil Hk) as (a & Ha & Hk'). exists [], a.
          split; [done|]. split; [done|]. split; [intros; simpl; lia|]. done.
        + intros (us & a & Ha & H). destruct us as [|u1 us'].
          * right. destruct H as (_ & _ & _ & _ & Hk). simpl in *. subst a.
            by rewrite mstate_eta in Hk.
          * left. by exists (u1 :: us'), a.
      - rewrite (Hmore Hz). split.
        + intros (us & a & _ & H). by exists us, a.
        + intros (us & a & Ha & Hlo & H). exists us, a.
          split; [|done]. intros ->. simpl in Hlo. lia. }
    destruct hi as [[|h0]|]; [done|exact Hgoal|exact Hgoal].
Qed.

Lemma advance_one (st : mstate) (x : N) (rest : jsstring) :
  after st = x :: rest -> advance 1 st = MState (x :: before st) rest (caps st).
Proof. intros H. cbn [advance]. by rewrite H. Qed.

(** One unit is consumed when it passes the test, nothing otherwise. *)
Lemma unit_spec (st : mstate) (k : mstate -> bool) (ok : N -> bool) :
  match after st with
  | x :: _ => if ok x then k (advance 1 st) else false
  | [] => false
  end = true <->
  exists u a, after st = u ++ a /\ (exists x, u = [x] /\ ok x = true)
    /\ k (MState (rev u ++ before st) a (caps st)) = true.
Proof.
  destruct (after st) as [|x rest] eqn:E.
  - split; [done|]. by intros (u & a & Ha & (y & -> & _) & _).
  - rewrite (advance_one st x rest E). split.
    + destruct (ok x) eqn:Hx; [|done]. intros Hk. exists [x], rest.
      split; [done|]. split; [by exists x|done].
    + intros (u & a & Ha & (y & -> & Hy) & Hk). simpl in Ha. injection Ha as <- <-.
      by rewrite Hy.
Qed.

(** The matcher decides what the pattern matches: [rmatch] succeeds
    exactly when some accepted units lead to a state the continuation
    accepts. *)
Lemma rmatch_spec (icase : bool) (r : regex) :
  plain r = true ->
  forall st k,
    rmatch icase r st k = true <->
    exists u a, after st = u ++ a /\ accepts icase r (before st) u a
      /\ k (MState (rev u ++ before st) a (caps st)) = true.
Proof.
  induction r as [|c|negated items| |r1 IH1 r2 IH2|r1 IH1 r2 IH2|lo hi r' IH|i r' IH|i| | |];
    intros Hp st k; cbn [plain] in Hp; try discriminate.
  - (* Eps *) cbn [rmatch accepts]. split.
    + intros Hk. exists [], (after st). cbn [rev app]. by rewrite mstate_eta.
    + intros (u & a & Ha & -> & Hk). simpl in *. subst a. by rewrite mstate_eta in Hk.
  - (* Chr *) cbn [rmatch accepts]. apply (unit_spec st k (fun x => unit_eq icase x c)).
  - (* Cls *) cbn [rmatch accepts].
    apply (unit_spec st k (fun x => xorb negated (cls_mem icase items x))).
  - (* Any *) cbn [rmatch accepts].
    etrans; [|etrans; [apply (unit_spec st k (fun x => negb (JS.is_line_terminator x)))|]].
    + destruct (after st) as [|x rest]; [done|]. by destruct (JS.is_line_terminator x).
    + split; intros (u & a & Ha & (x & -> & Hx) & Hk); exists [x], a;
        (split; [done|]); (split; [|done]); exists x; (split; [done|]);
        by destruct (JS.is_line_terminator x).
  - (* Seq *) apply andb_true_iff in Hp as [Hp1 Hp2].
    cbn [rmatch accepts]. rewrite (IH1 Hp1). split.
    + intros (u1 & a1 & Ha & Hacc1 & Hk). apply (IH2 Hp2) in Hk as (u2 & a & Ha1 & Hacc2 & Hk).
      cbn [after before caps] in *. subst a1.
      exists (u1 ++ u2), a. rewrite <- app_assoc. split; [done|].
      split; [by exists u1, u2|]. by rewrite rev_app_distr, <- app_assoc.
    + intros (u & a & Ha & (u1 & u2 & -> & Hacc1 & Hacc2) & Hk).
      exists u1, (u2 ++ a). rewrite <- app_assoc in Ha. split; [done|]. split; [done|].
      apply (IH2 Hp2). exists u2, a. cbn [after before caps].
      split; [done|]. split; [done|]. by rewrite rev_app_distr, <- app_assoc in Hk.
  - (* Alt *) apply andb_true_iff in Hp as [Hp1 Hp2].
    cbn [rmatch accepts]. rewrite orb_true_iff, (IH1 Hp1), (IH2 Hp2). split.
    + intros [(u & a & Ha & Hacc & Hk)|(u & a & Ha & Hacc & Hk)]; exists u, a; auto.
    + intros (u & a & Ha & [Hacc|Hacc] & Hk); [left|right]; by exists u, a.
  - (* Rep *) apply andb_true_iff in Hp as [Hp1 Hp2].
    cbn [rmatch]. rewrite (groups_plain r' Hp1).
    rewrite (repeat_match_spec icase r' (IH Hp1)).
    + split.
      * intros (us & a & Ha & H1 & H2 & H3 & H4 & Hk). exists (concat us), a.
        split; [done|]. split; [|done]. apply accepts_rep. by exists us.
      * intros (u & a & Ha & Hacc & Hk). apply accepts_rep in Hacc
          as (us & -> & H1 & H2 & H3 & H4). by exists us, a.
    + intros h ->. by apply Nat.leb_le.
    + lia.
  - (* Bol *) cbn [rmatch accepts]. destruct (before st) as [|y b] eqn:E.
    + split.
      * intros Hk. exists [], (after st). simpl. rewrite <- E, mstate_eta. done.
      * intros (u & a & Ha & [-> _] & Hk). simpl in *. subst a.
        by rewrite <- E, mstate_eta in Hk.
    + split; [done|]. by intros (u & a & _ & [_ ?] & _).
  - (* Eol *) cbn [rmatch accepts]. destruct (after st) as [|y rest] eqn:E.
    + split.
      * intros Hk. exists [], []. simpl. rewrite <- E, mstate_eta. done.
      * intros (u & a & Ha & [-> ->] & Hk). simpl in *. by rewrite <- E, mstate_eta in Hk.
    + split; [done|]. intros (u & a & Ha & [-> ->] & _). done.
  - (* WordB *) cbn [rmatch accepts]. split.
    + destruct (xorb _ _) eqn:E; [|done]. intros Hk. exists [], (after st).
      simpl. by rewrite mstate_eta.
    + intros (u & a & Ha & [-> Hx] & Hk). simpl in *. subst a.
      rewrite Hx. by rewrite mstate_eta in Hk.
Qed.

(** The search finds a match exactly when there is one at some
    position it reaches. *)
Lemma search_spec (icase : bool) (r : regex) :
  plain r = true ->
  forall (fuel : nat) (st : mstate),
    search fuel icase r st = true <->
    exists p u a, after st = p ++ u ++ a /\ (length p <= fuel)%nat
      /\ accepts icase r (rev p ++ before st) u a.
Proof.
  intros Hp. induction fuel as [|fuel IH]; intros st.
  - cbn [search]. rewrite orb_false_r, (rmatch_spec icase r Hp). split.
    + intros (u & a & Ha & Hacc & _). exists [], u, a. by split.
    + intros (p & u & a & Ha & Hl & Hacc). destruct p; [|simpl in Hl; lia].
      by exists u, a.
  - cbn [search]. rewrite orb_true_iff, (rmatch_spec icase r Hp). split.
    + intros [(u & a & Ha & Hacc & _)|H].
      * exists [], u, a. split; [done|]. split; [simpl; lia|done].
      * destruct (after st) as [|x rest] eqn:E; [done|].
        rewrite (advance_one st x rest E) in H.
        apply IH in H as (p & u & a & Ha & Hl & Hacc). cbn [after before] in *.
        exists (x :: p), u, a. subst rest. split; [done|]. split; [simpl; lia|].
        simpl. by rewrite <- app_assoc.
    + intros (p & u & a & Ha & Hl & Hacc). destruct p as [|x p].
      * left. by exists u, a.
      * right. simpl in Ha. rewrite Ha. rewrite (advance_one st x _ Ha).
        apply IH. exists p, u, a. cbn [after before]. split; [done|].
        split; [simpl in Hl; lia|]. simpl in Hacc. by rewrite <- app_assoc in Hacc.
Qed.

(** [test] answers whether the string holds a match. *)
Lemma test_spec (re : RegExp) (s : jsstring) :
  plain (source re) = true -> (test re s = true <-> found re s).
Proof.
  intros Hp. unfold test, found. rewrite (search_spec _ _ Hp). cbn [after before].
  split.
  - intros (p & u & a & -> & _ & Hacc). exists p, u, a. by rewrite app_nil_r in Hacc.
  - intros (p & u & a & -> & Hacc). exists p, u, a. rewrite app_nil_r.
    split; [done|]. split; [|done]. rewrite length_app. lia.
Qed.

End MatcherFacts.
(** ** More on the rate limiter *)

Section LimiterMore.

Implicit Types (identifier other : jsstring) (requests : gmap jsstring (list Z)).

Lemma call_step_other requests (c : call) other :
  call_identifier c <> other -> call_step requests c !! other = requests !! other.
Proof.
  intros Hne. destruct c as [identifier now|identifier now]; simpl in *; [|done].
  unfold RateLimiter.isRateLimited. destruct (_ <=? _); [done|].
  simpl. by apply lookup_insert_ne.
Qed.

(** X1: The limiter keeps one record per identifier: whatever calls are made
    for other identifiers, in any number and at any times, the record of
    this one is left as it was, and so are the answers it will get. *)
Theorem limiter_clients_independent (cs : list call) other requests :
  Forall (fun c => call_identifier c <> other) cs ->
  calls cs requests !! other = requests !! other
  /\ forall now,
       fst (RateLimiter.isRateLimited other now (calls cs requests))
       = fst (RateLimiter.isRateLimited other now requests)
       /\ fst (RateLimiter.getRemainingRequests other now (calls cs requests))
          = fst (RateLimiter.getRemainingRequests other now requests).
Proof.
  intros Hall.
  assert (H : calls cs requests !! other = requests !! other).
  { revert requests. induction Hall as [|c cs Hc _ IH]; intros requests; [done|].
    unfold calls in *. simpl. rewrite IH. by apply call_step_other. }
  split; [done|]. intros now.
  unfold RateLimiter.isRateLimited, RateLimiter.getRemainingRequests. rewrite H.
  split; [|done]. by destruct (_ <=? _).
Qed.

Lemma filter_expired (now : Z) (times : list Z) :
  Forall (fun time => time + RateLimiter.windowMs <= now) times ->
  filter (fun time => now - RateLimiter.windowMs < time) times = [].
Proof.
  induction 1 as [|t ts Ht _ IH]; [done|].
  rewrite filter_cons_False; [done|lia].
Qed.

(** X2: A client whose recorded requests are all 15 minutes old or older is
    admitted again with the full allowance: five requests remain before
    the call, the call is admitted, and the record is replaced by the
    current time alone. *)
Theorem limiter_recovers_after_window identifier (now : Z) requests :
  Forall (fun time => time + 15 * 60 * 1000 <= now) (default [] (requests !! identifier)) ->
  fst (RateLimiter.getRemainingRequests identifier now requests) = 5
  /\ RateLimiter.isRateLimited identifier now requests
     = (false, <[identifier := [now]]> requests).
Proof.
  intros Hold. unfold RateLimiter.getRemainingRequests, RateLimiter.isRateLimited.
  rewrite (filter_expired now _ Hold). done.
Qed.

(** X3: The two methods agree: a call of [isRateLimited] is rejected exactly
    when [getRemainingRequests] reports that nothing remains. *)
Theorem limited_iff_nothing_remains identifier (now : Z) requests :
  fst (RateLimiter.isRateLimited identifier now requests) = true
  <-> fst (RateLimiter.getRemainingRequests identifier now requests) = 0.
Proof.
  unfold RateLimiter.isRateLimited, RateLimiter.getRemainingRequests,
    RateLimiter.maxRequests.
  destruct (5 <=? _) eqn:E; simpl.
  - apply Z.leb_le in E. split; [lia|done].
  - apply Z.leb_gt in E. split; [done|lia].
Qed.

Lemma filter_valid_again (now : Z) (times : list Z) :
  filter (fun time => now - RateLimiter.windowMs < time)
    (filter (fun time => now - RateLimiter.windowMs < time) times ++ [now])
  = filter (fun time => now - RateLimiter.windowMs < time) times ++ [now].
Proof.
  rewrite filter_app, list_filter_filter.
  rewrite filter_cons_True by (unfold RateLimiter.windowMs; lia).
  f_equal. apply list_filter_iff. intros t. tauto.
Qed.

Lemma remaining_after_admitted identifier (now : Z) requests :
  fst (RateLimiter.isRateLimited identifier now requests) = false ->
  fst (RateLimiter.getRemainingRequests identifier now
         (snd (RateLimiter.isRateLimited identifier now requests)))
  = fst (RateLimiter.getRemainingRequests identifier now requests) - 1
  /\ 1 <= fst (RateLimiter.getRemainingRequests identifier now requests) <= 5.
Proof.
  unfold RateLimiter.isRateLimited, RateLimiter.getRemainingRequests,
    RateLimiter.maxRequests.
  destruct (5 <=? _) eqn:E; [done|]. intros _. apply Z.leb_gt in E. simpl.
  rewrite lookup_insert_eq. simpl. rewrite filter_valid_again, length_app. simpl.
  lia.
Qed.

(** X4: An admitted call uses up exactly one request of the allowance:
    asked at the same time, the number of remaining requests is one
    less after the call than before it, and it was at least one. *)
Theorem admitted_call_uses_one identifier (now : Z) requests :
  fst (RateLimiter.isRateLimited identifier now requests) = false ->
  let after := snd (RateLimiter.isRateLimited identifier now requests) in
  fst (RateLimiter.getRemainingRequests identifier now after)
  = fst (RateLimiter.getRemainingRequests identifier now requests) - 1
  /\ 1 <= fst (RateLimiter.getRemainingRequests identifier now requests) <= 5.
Proof. apply remaining_after_admitted. Qed.

End LimiterMore.

(** Calls for two other clients leave the record of a third as it is. *)
Lemma limiter_clients_independent_witness :
  calls [IsRateLimited (js "a") 0; GetRemainingRequests (js "c") 5; IsRateLimited (js "a") 7]
        {[ js "b" := [1; 2] ]} !! js "b" = Some [1; 2].
Proof.
  destruct (limiter_clients_independent
              [IsRateLimited (js "a") 0; GetRemainingRequests (js "c") 5;
               IsRateLimited (js "a") 7]
              (js "b") {[ js "b" := [1; 2] ]}) as [H _].
  - repeat constructor; discriminate.
  - rewrite H. reflexivity.
Defined.

(** Five requests recorded in the first minute, asked about an hour
    later. *)
Lemma limiter_recovers_after_window_witness :
  RateLimiter.isRateLimited (js "a") 3600000 {[ js "a" := [0; 1; 2; 3; 4] ]}
  = (false, <[js "a" := [3600000]]> {[ js "a" := [0; 1; 2; 3; 4] ]}).
Proof.
  apply (limiter_recovers_after_window (js "a") 3600000 {[ js "a" := [0; 1; 2; 3; 4] ]}).
  rewrite lookup_singleton_eq. simpl. repeat constructor; lia.
Defined.

(** The third request of a client inside the window. *)
Lemma admitted_call_uses_one_witness :
  fst (RateLimiter.getRemainingRequests (js "a") 10
         (snd (RateLimiter.isRateLimited (js "a") 10 {[ js "a" := [0; 5] ]})))
  = fst (RateLimiter.getRemainingRequests (js "a") 10 {[ js "a" := [0; 5] ]}) - 1.
Proof.
  apply (admitted_call_uses_one (js "a") 10 {[ js "a" := [0; 5] ]}).
  unfold RateLimiter.isRateLimited. rewrite lookup_singleton_eq. reflexivity.
Defined.
(** ** More on the request handler *)

Section HandlerMore.

Variable isEmail : jsstring -> bool.
Variable purify : DOMPurify.Config -> jsstring -> jsstring.
Variable SECURITY_HEADERS : Headers.
Variable getCorsHeaders : option jsstring -> Headers.
Variable getClientIp : Headers -> jsstring.
Variable transport : ContactFormRequest.t -> jsstring -> completion unit.

Local Abbreviation handler :=
  (contactFormFunction isEmail purify SECURITY_HEADERS getCorsHeaders getClientIp transport).
Local Abbreviation served :=
  (serve isEmail purify SECURITY_HEADERS getCorsHeaders getClientIp transport).
Local Abbreviation respond := (errorResponse SECURITY_HEADERS getCorsHeaders).
Local Abbreviation accepted := (successResponse SECURITY_HEADERS getCorsHeaders).
Local Abbreviation limited req inv w :=
  (fst (RateLimiter.isRateLimited (getClientIp (headers req)) (now inv) (requests w))).

(** What the validator returns when it reports failure: a list of at
    least one error. *)
Lemma validateContactForm_errors (data : JSValue) (v : Validation) :
  validateContactForm isEmail purify data = Normal v ->
  (isValid v = true /\ exists fd, sanitizedData v = Some fd)
  \/ (isValid v = false /\ exists e es, errors v = Some (e :: es)).
Proof.
  intros Hv. assert (Hd : data <> JUndefined) by (intros ->; discriminate).
  destruct (validateContactForm_defined isEmail purify data Hd)
    as (v' & Hv' & [(H1 & _ & H2)|(H1 & _ & H2)]);
    rewrite Hv in Hv'; injection Hv' as <-; auto.
Qed.

(** The handler on a request that is not a POST. *)
Lemma handler_other_method (inv : Invocation) (req : HttpRequest) (w : World) :
  method req <> js "POST" ->
  handler inv req w =
    (if JS.eqb (method req) (js "OPTIONS")
     then {| status := 200;
             resHeaders := spread SECURITY_HEADERS (getCorsHeaders (headers req !! js "origin"));
             resBody := BodyNull |}
     else respond 405 (headers req !! js "origin") ∅ (js "METHOD_NOT_ALLOWED")
            (js "Only POST requests are allowed") None (isoNow inv),
     log INFO (js "Contact form request received") w).
Proof.
  intros Hm. unfold contactFormFunction, pipeline.
  destruct (JS.eqb (method req) (js "OPTIONS")); [done|].
  destruct (JS.eqb (method req) (js "POST")) eqn:E; [|done].
  by apply eqb_eq in E.
Qed.

(** The handler's responses, shape by shape. *)
Lemma handler_shapes (inv : Invocation) (req : HttpRequest) (w : World) :
  let res := fst (handler inv req w) in
  let origin := headers req !! js "origin" in
  (method req = js "OPTIONS"
   /\ res = {| status := 200;
               resHeaders := spread SECURITY_HEADERS (getCorsHeaders origin);
               resBody := BodyNull |})
  \/ (method req = js "POST"
      /\ res = {| status := 200;
                  resHeaders := jsonHeaders SECURITY_HEADERS getCorsHeaders origin;
                  resBody := BodySuccess
                    (ContactFormResponse.mk true thanks (Some (requestId inv))) |})
  \/ (method req = js "POST"
      /\ exists e es,
           res = respond 400 origin ∅ (js "VALIDATION_ERROR") (js "Invalid input data")
                   (Some (e :: es)) (isoNow inv))
  \/ (method req <> js "POST" /\ method req <> js "OPTIONS"
      /\ res = respond 405 origin ∅ (js "METHOD_NOT_ALLOWED")
                 (js "Only POST requests are allowed") None (isoNow inv))
  \/ (method req = js "POST"
      /\ res = respond 429 origin {[ js "Retry-After" := js "900" ]}
                 (js "RATE_LIMIT_EXCEEDED") (js "Too many requests. Please try again later.")
                 None (isoNow inv))
  \/ (method req = js "POST"
      /\ res = respond 500 origin ∅ (js "INTERNAL_SERVER_ERROR")
                 (js "An unexpected error occurred. Please try again later.") None
                 (isoNow inv)).
Proof.
  intros res origin. subst res origin.
  destruct (decide (method req = js "POST")) as [Hm|Hm].
  - pose proof (handler_post isEmail purify SECURITY_HEADERS getCorsHeaders getClientIp
                  transport inv req w Hm) as H. cbv zeta in H.
    destruct (RateLimiter.isRateLimited _ _ _) as [[|] rq]; rewrite H; clear H.
    { do 4 right. left. done. }
    destruct (validateContactForm _ _ _) as [v|e] eqn:Hv; [|by do 5 right].
    destruct (validateContactForm_errors _ _ Hv) as [[-> [fd ->]]|[-> (e & es & He)]].
    + destruct (isSpam _); [by right; left|].
      destruct (transport _ _); [by right; left|by do 5 right].
    + do 2 right. left. split; [done|]. exists e, es. rewrite <- He.
      by destruct (sanitizedData v).
  - rewrite (handler_other_method inv req w Hm).
    destruct (JS.eqb (method req) (js "OPTIONS")) eqn:E.
    + left. apply eqb_eq in E. done.
    + do 3 right. left. split; [done|]. split; [|done].
      intros E'. rewrite E' in E. discriminate.
Qed.

(** X5: Every response has one of six shapes, fixed by the status: the
    preflight answer (200, no body), the success answer (200, carrying
    the request identifier), 400 with a list of at least one validation
    error, 405, 429 with [Retry-After: 900], or 500; an error body
    carries its code, its fixed message and the time, and nothing else. *)
Theorem response_shapes (inv : Invocation) (req : HttpRequest) (w : World) :
  let res := fst (handler inv req w) in
  let origin := headers req !! js "origin" in
  (method req = js "OPTIONS"
   /\ res = {| status := 200;
               resHeaders := spread SECURITY_HEADERS (getCorsHeaders origin);
               resBody := BodyNull |})
  \/ (method req = js "POST"
      /\ res = {| status := 200;
                  resHeaders := jsonHeaders SECURITY_HEADERS getCorsHeaders origin;
                  resBody := BodySuccess
                    (ContactFormResponse.mk true thanks (Some (requestId inv))) |})
  \/ (method req = js "POST"
      /\ exists e es,
           res = respond 400 origin ∅ (js "VALIDATION_ERROR") (js "Invalid input data")
                   (Some (e :: es)) (isoNow inv))
  \/ (method req <> js "POST" /\ method req <> js "OPTIONS"
      /\ res = respond 405 origin ∅ (js "METHOD_NOT_ALLOWED")
                 (js "Only POST requests are allowed") None (isoNow inv))
  \/ (method req = js "POST"
      /\ res = respond 429 origin {[ js "Retry-After" := js "900" ]}
                 (js "RATE_LIMIT_EXCEEDED") (js "Too many requests. Please try again later.")
                 None (isoNow inv))
  \/ (method req = js "POST"
      /\ res = respond 500 origin ∅ (js "INTERNAL_SERVER_ERROR")
                 (js "An unexpected error occurred. Please try again later.") None
                 (isoNow inv)).
Proof. apply handler_shapes. Qed.


Lemma isRateLimited_local (identifier : jsstring) (t : Z)
    (rq rq' : gmap jsstring (list Z)) :
  rq !! identifier = rq' !! identifier ->
  fst (RateLimiter.isRateLimited identifier t rq)
  = fst (RateLimiter.isRateLimited identifier t rq').
Proof.
  intros H. unfold RateLimiter.isRateLimited. rewrite H. by destruct (_ <=? _).
Qed.

(** The response depends on the process state only through the record
    the limiter keeps for the request's client. *)
Lemma handler_response_local (inv : Invocation) (req : HttpRequest) (w w' : World) :
  requests w !! getClientIp (headers req) = requests w' !! getClientIp (headers req) ->
  fst (handler inv req w) = fst (handler inv req w').
Proof.
  intros Hrq. destruct (decide (method req = js "POST")) as [Hm|Hm];
    [|by rewrite !(handler_other_method inv req _ Hm)].
  pose proof (handler_post isEmail purify SECURITY_HEADERS getCorsHeaders getClientIp
                transport inv req w Hm) as H. cbv zeta in H.
  pose proof (handler_post isEmail purify SECURITY_HEADERS getCorsHeaders getClientIp
                transport inv req w' Hm) as H'. cbv zeta in H'.
  pose proof (isRateLimited_local _ (now inv) _ _ Hrq) as Hb.
  destruct (RateLimiter.isRateLimited _ _ (requests w)) as [b rq].
  destruct (RateLimiter.isRateLimited _ _ (requests w')) as [b' rq'].
  simpl in Hb. subst b'. rewrite H, H'. destruct b; [done|].
  destruct (validateContactForm _ _ _) as [v|e]; [|done].
  destruct (isValid v), (sanitizedData v) as [fd|]; try done.
  destruct (isSpam _); [done|]. by destruct (transport _ _).
Qed.

(** A request changes the limiter's record of its own client only. *)
Lemma handler_requests_other (inv : Invocation) (req : HttpRequest) (w : World)
    (client : jsstring) :
  getClientIp (headers req) <> client ->
  requests (snd (handler inv req w)) !! client = requests w !! client.
Proof.
  intros Hne. destruct (decide (method req = js "POST")) as [Hm|Hm];
    [|by rewrite (handler_other_method inv req w Hm)].
  destruct (handler_rate_limit isEmail purify SECURITY_HEADERS getCorsHeaders getClientIp
              transport inv req w Hm) as [-> _].
  unfold RateLimiter.isRateLimited. destruct (_ <=? _); [done|].
  simpl. by apply lookup_insert_ne.
Qed.

(** X8: Every POST that the limiter admits counts against the client's
    allowance, whatever becomes of it: after a POST answered with
    anything but 429 (accepted, invalid, spam, or failed), one request
    less remains for the client than before. *)
Theorem every_admitted_post_counts (inv : Invocation) (req : HttpRequest) (w : World) :
  method req = js "POST" ->
  status (fst (handler inv req w)) <> 429 ->
  let client := getClientIp (headers req) in
  fst (RateLimiter.getRemainingRequests client (now inv)
         (requests (snd (handler inv req w))))
  = fst (RateLimiter.getRemainingRequests client (now inv) (requests w)) - 1.
Proof.
  intros Hm Hs client.
  destruct (handler_rate_limit isEmail purify SECURITY_HEADERS getCorsHeaders getClientIp
              transport inv req w Hm) as [-> Hres].
  destruct (limited req inv w) eqn:Hl.
  - rewrite Hres in Hs. done.
  - by apply remaining_after_admitted.
Qed.

(** X9: Every response carries the security headers and the CORS headers for
    the request's origin, the latter taking precedence; every response
    but the preflight answer is declared as JSON. *)
Theorem every_response_carries_headers (inv : Invocation) (req : HttpRequest) (w : World) :
  let res := fst (handler inv req w) in
  let cors := getCorsHeaders (headers req !! js "origin") in
  dom SECURITY_HEADERS ∪ dom cors ⊆ dom (resHeaders res)
  /\ (method req = js "OPTIONS"
      \/ resHeaders res !! js "Content-Type" = Some (js "application/json"))
  /\ (forall k v, cors !! k = Some v -> k <> js "Content-Type" -> k <> js "Retry-After" ->
        resHeaders res !! k = Some v).
Proof.
  intros res cors. subst res cors.
  set (cors := getCorsHeaders (headers req !! js "origin")).
  assert (Hbase : dom SECURITY_HEADERS ∪ dom cors ⊆ dom (spread SECURITY_HEADERS cors)).
  { unfold spread, Headers. rewrite dom_union_L.
    intros k. rewrite !elem_of_union. tauto. }
  assert (Hjson : forall extra,
             dom SECURITY_HEADERS ∪ dom cors
               ⊆ dom (spread (jsonHeaders SECURITY_HEADERS getCorsHeaders
                                (headers req !! js "origin")) extra)).
  { intros extra. unfold spread, jsonHeaders, spread, Headers. fold cors.
    rewrite dom_union_L, dom_insert_L, dom_union_L.
    intros k. rewrite !elem_of_union. tauto. }
  assert (Hct : forall extra, extra !! js "Content-Type" = None ->
             spread (jsonHeaders SECURITY_HEADERS getCorsHeaders
                       (headers req !! js "origin")) extra !! js "Content-Type"
             = Some (js "application/json")).
  { intros extra He. unfold spread, jsonHeaders, Headers in *.
    rewrite lookup_union_r by done. by rewrite lookup_insert_eq. }
  assert (Hcors : forall extra k v, cors !! k = Some v -> k <> js "Content-Type" ->
             extra !! k = None ->
             spread (jsonHeaders SECURITY_HEADERS getCorsHeaders
                       (headers req !! js "origin")) extra !! k = Some v).
  { intros extra k v Hk Hne He. unfold spread, jsonHeaders, Headers in *.
    rewrite lookup_union_r by done. rewrite lookup_insert_ne by done.
    by apply lookup_union_Some_l. }
  assert (Hjson0 := Hjson ∅). assert (Hct0 := Hct ∅ (lookup_empty _)).
  assert (Hra : ({[ js "Retry-After" := js "900" ]} : Headers) !! js "Content-Type" = None)
    by done.
  destruct (handler_shapes inv req w)
    as [(Hm & ->)|[(Hm & ->)|[(Hm & e & es & ->)|[(Hm & Hm' & ->)|[(Hm & ->)|(Hm & ->)]]]]];
    cbn [resHeaders errorResponse successResponse].
  - split; [done|]. split; [by left|]. intros k v Hk _ _.
    unfold spread. by apply lookup_union_Some_l.
  - replace (jsonHeaders _ _ _) with
      (spread (jsonHeaders SECURITY_HEADERS getCorsHeaders (headers req !! js "origin")) ∅)
      by (unfold spread at 1; by rewrite (left_id_L ∅ (∪))).
    split; [done|]. split; [by right|]. intros k v Hk Hne _. by apply Hcors.
  - split; [done|]. split; [by right|]. intros k v Hk Hne _. by apply Hcors.
  - split; [done|]. split; [by right|]. intros k v Hk Hne _. by apply Hcors.
  - split; [apply Hjson|]. split; [right; by apply Hct|]. intros k v Hk Hne Hne'.
    apply Hcors; [done|done|]. by apply lookup_singleton_ne.
  - split; [done|]. split; [by right|]. intros k v Hk Hne _. by apply Hcors.
Qed.




End HandlerMore.

(** Requests of other clients leave the limiter's record of a client as
    it is, whatever the mail service answered to them. *)
Lemma served_requests_other (isEmail : jsstring -> bool)
    (purify : DOMPurify.Config -> jsstring -> jsstring)
    (SECURITY_HEADERS : Headers) (getCorsHeaders : option jsstring -> Headers)
    (getClientIp : Headers -> jsstring)
    (others : list (Invocation * HttpRequest
                    * (ContactFormRequest.t -> jsstring -> completion unit)))
    (client : jsstring) (w : World) :
  Forall (fun r => getClientIp (headers r.1.2) <> client) others ->
  requests (snd (serveEach isEmail purify SECURITY_HEADERS getCorsHeaders getClientIp
                   others w)) !! client
  = requests w !! client.
Proof.
  intros Hall. revert w.
  induction Hall as [|[[inv' req'] transport'] others Hne _ IH]; intros w; [done|].
  cbn [serveEach fst snd] in *.
  pose proof (handler_requests_other isEmail purify SECURITY_HEADERS getCorsHeaders
                getClientIp transport' inv' req' w _ Hne) as Hstep.
  destruct (contactFormFunction _ _ _ _ _ transport' inv' req' w) as [res w1].
  specialize (IH w1). destruct (serveEach _ _ _ _ _ others w1) as [ress w2].
  cbn [fst snd] in *. by rewrite IH.
Qed.

(** X7: Clients interfere through the mail service only. Requests of other
    clients, of any kind and number and whatever the mail service
    answered to each of them, leave the response to a request as it is,
    given what the mail service answers to that request: the limiter
    keeps one record per client, and validation and the spam check keep
    no state. The mail service is shared by all requests; its answer is
    the parameter [transport]. *)
Theorem other_clients_do_not_interfere (isEmail : jsstring -> bool)
    (purify : DOMPurify.Config -> jsstring -> jsstring)
    (SECURITY_HEADERS : Headers) (getCorsHeaders : option jsstring -> Headers)
    (getClientIp : Headers -> jsstring)
    (others : list (Invocation * HttpRequest
                    * (ContactFormRequest.t -> jsstring -> completion unit)))
    (transport : ContactFormRequest.t -> jsstring -> completion unit)
    (inv : Invocation) (req : HttpRequest) (w : World) :
  Forall (fun r => getClientIp (headers r.1.2) <> getClientIp (headers req)) others ->
  fst (contactFormFunction isEmail purify SECURITY_HEADERS getCorsHeaders getClientIp
         transport inv req
         (snd (serveEach isEmail purify SECURITY_HEADERS getCorsHeaders getClientIp
                 others w)))
  = fst (contactFormFunction isEmail purify SECURITY_HEADERS getCorsHeaders getClientIp
           transport inv req w).
Proof.
  intros Hall. apply handler_response_local. by apply served_requests_other.
Qed.

(** A submission of one client, served after a submission of another
    client whose mail failed, and served first. *)
Lemma other_clients_do_not_interfere_witness :
  let other :=
    {| method := js "POST";
       headers := {[ js "x-forwarded-for" := js "198.51.100.9" ]};
       body := Sample.form "Jane Roe" "jane@example.com" "Another test message." |} in
  let req := Sample.post (Sample.form "John Doe" "john@example.com" "This is a test message.") in
  fst (Sample.handler (Sample.at_time 60000) req
         (snd (serveEach Sample.isEmail DOMPurify.sanitize Sample.SECURITY_HEADERS
                 Sample.getCorsHeaders Sample.getClientIp
                 [(Sample.at_time 0, other, Sample.fails)] initial)))
  = fst (Sample.handler (Sample.at_time 60000) req initial).
Proof.
  intros other req.
  apply (other_clients_do_not_interfere Sample.isEmail DOMPurify.sanitize
           Sample.SECURITY_HEADERS Sample.getCorsHeaders Sample.getClientIp
           [(Sample.at_time 0, other, Sample.fails)] Sample.delivers
           (Sample.at_time 60000) req initial).
  repeat constructor. intros H. vm_compute in H. discriminate.
Defined.

(** A submission that fails validation is answered 400 and leaves its
    client four of the five requests. *)
Lemma every_admitted_post_counts_witness :
  let req := Sample.post (Sample.form "" "bad" "short") in
  status (fst (Sample.handler (Sample.at_time 0) req initial)) = 400
  /\ fst (RateLimiter.getRemainingRequests (js "203.0.113.7") 0
            (requests (snd (Sample.handler (Sample.at_time 0) req initial)))) = 4.
Proof.
  intros req.
  assert (Hs : status (fst (Sample.handler (Sample.at_time 0) req initial)) = 400)
    by (vm_compute; reflexivity).
  split; [exact Hs|].
  pose proof (every_admitted_post_counts Sample.isEmail DOMPurify.sanitize
                Sample.SECURITY_HEADERS Sample.getCorsHeaders Sample.getClientIp
                Sample.delivers (Sample.at_time 0) req initial) as H.
  cbv zeta in H. change (Sample.getClientIp (headers req)) with (js "203.0.113.7") in H.
  change (now (Sample.at_time 0)) with 0 in H.
  unfold Sample.handler. rewrite H; [reflexivity|reflexivity|].
  fold Sample.handler. rewrite Hs. discriminate.
Defined.

(** ** What the patterns of the sources accept *)

Section PatternFacts.

Import Regex Matches.

Implicit Types (icase : bool) (r : regex) (b u a s : jsstring).

(** A pattern that starts with [^] matches at the start only. *)
Lemma found_from_start (re : RegExp) r s :
  source re = Seq Bol r ->
  found re s <-> exists u a, s = u ++ a /\ accepts (ignoreCase re) r [] u a.
Proof.
  intros Hs. unfold found. rewrite Hs. cbn [accepts]. split.
  - intros (p & u & a & -> & u1 & u2 & -> & [-> Hp] & Hacc).
    assert (p = []) as -> by (by destruct p using rev_ind; [|rewrite rev_app_distr in Hp]).
    simpl in *. by exists u2, a.
  - intros (u & a & -> & Hacc). exists [], u, a. split; [done|].
    exists [], u. done.
Qed.

Lemma accepts_up_to_end icase r b u a :
  accepts icase (Seq r Eol) b u a <-> a = [] /\ accepts icase r b u [].
Proof.
  cbn [accepts]. split.
  - intros (u1 & u2 & -> & Hacc & -> & ->). rewrite app_nil_r. by simpl in Hacc.
  - intros [-> Hacc]. exists u, []. rewrite app_nil_r. done.
Qed.

(** A pattern [^r$] matches the whole string or nothing. *)
Lemma found_whole (re : RegExp) r s :
  source re = Seq Bol (Seq r Eol) ->
  found re s <-> accepts (ignoreCase re) r [] s [].
Proof.
  intros Hs. rewrite (found_from_start re _ s Hs). split.
  - intros (u & a & -> & Hacc). apply accepts_up_to_end in Hacc as [-> Hacc].
    by rewrite app_nil_r.
  - intros Hacc. exists s, []. rewrite app_nil_r. split; [done|].
    by apply accepts_up_to_end.
Qed.

(** Pieces of a pattern that matches single units, whatever is around
    them. *)
Lemma pieces_units icase r (ok : N -> bool) :
  (forall b u a, accepts icase r b u a <-> exists x, u = [x] /\ ok x = true) ->
  forall us b a,
    pieces icase r b us a <->
    us = map (fun x => [x]) (concat us) /\ Forall (fun x => ok x = true) (concat us).
Proof.
  intros Hr. induction us as [|p us IH]; intros b a; cbn [pieces].
  - split; [by split|done].
  - rewrite Hr, IH. split.
    + intros [(x & -> & Hx) [Hus Hall]]. simpl. split; [by f_equal|by constructor].
    + intros [Hus Hall]. simpl in Hus. rewrite map_app in Hus.
      destruct p as [|x [|y p]]; simpl in Hus.
      * destruct (concat us); simpl in Hus; discriminate.
      * injection Hus as Hus. simpl in Hall. inversion Hall; subst.
        split; [by exists x|]. done.
      * discriminate.
Qed.

(** A quantified single-unit pattern matches the runs of such units of
    an allowed length. *)
Lemma accepts_run icase r (ok : N -> bool) (lo : nat) (hi : option nat) b u a :
  (forall b u a, accepts icase r b u a <-> exists x, u = [x] /\ ok x = true) ->
  accepts icase (Rep lo hi r) b u a <->
  (lo <= length u)%nat /\ (forall h, hi = Some h -> (length u <= h)%nat)
  /\ Forall (fun x => ok x = true) u.
Proof.
  intros Hr. rewrite accepts_rep. split.
  - intros (us & -> & Hlo & Hhi & _ & Hp). apply (pieces_units icase r ok Hr) in Hp as [Hus Hall].
    assert (Hlen : length (concat us) = length us).
    { rewrite Hus at 2. by rewrite length_map. }
    rewrite Hlen. done.
  - intros (Hlo & Hhi & Hall). exists (map (fun x => [x]) u).
    assert (Hc : concat (map (fun x : N => [x]) u) = u).
    { clear. induction u as [|x u IH]; [done|]. simpl. by rewrite IH. }
    rewrite Hc, length_map. split; [done|]. split; [done|]. split; [done|]. split.
    + apply Forall_drop. clear. induction u; by constructor.
    + apply (pieces_units icase r ok Hr). by rewrite Hc.
Qed.

Lemma name_class (x : N) :
  cls_mem false [IRange 97 122; IRange 65 90; ISpace; IUnit 45; IUnit 39; IUnit 46] x
  = name_unit x.
Proof.
  unfold cls_mem, name_unit, JS.is_alpha, JS.is_upper, JS.is_lower.
  cbn [existsb item_mem andb]. rewrite !orb_false_r.
  by destruct (JS.in_range 97 122 x), (JS.in_range 65 90 x), (JS.is_space x),
    (x =? 45)%N, (x =? 39)%N.
Qed.

(** What the name pattern accepts. *)
Lemma namePattern_units (s : jsstring) :
  test namePattern s = true <-> s <> [] /\ Forall (fun c => name_unit c = true) s.
Proof.
  rewrite (test_spec namePattern s eq_refl), (found_whole namePattern _ s eq_refl).
  rewrite (accepts_run _ _ (fun x => name_unit x)).
  - split.
    + intros (Hlen & _ & Hall). split; [|done]. intros ->. simpl in Hlen. lia.
    + intros [Hne Hall]. split; [|by split]. destruct s; [done|simpl; lia].
  - intros b u a. cbn [accepts xorb]. by setoid_rewrite name_class.
Qed.

(** X11: The name rule of the schema, [/^[a-zA-Z\s\-'\.]+$/]: a string passes
    exactly when it is not empty and each of its units is a letter of
    the English alphabet, white space, a hyphen, an apostrophe or a full
    stop. *)
Theorem name_rule (s : jsstring) :
  test namePattern s = true <-> s <> [] /\ Forall (fun c => name_unit c = true) s.
Proof. apply namePattern_units. Qed.

(** Pieces of a pattern whose matches do not depend on what is around
    them. *)
Lemma pieces_free icase r (P : jsstring -> Prop) :
  (forall b u a, accepts icase r b u a <-> P u) ->
  forall us b a, pieces icase r b us a <-> Forall P us.
Proof.
  intros Hr. induction us as [|p us IH]; intros b a; cbn [pieces].
  - split; [by constructor|done].
  - rewrite Hr, IH. split; [by intros []; constructor|by inversion 1].
Qed.

Lemma accepts_rep_free icase r (P : jsstring -> Prop) (lo : nat) (hi : option nat) b u a :
  (forall b u a, accepts icase r b u a <-> P u) ->
  accepts icase (Rep lo hi r) b u a <->
  exists us, u = concat us /\ (lo <= length us)%nat
    /\ (forall h, hi = Some h -> (length us <= h)%nat)
    /\ Forall (fun p => p <> []) (drop lo us) /\ Forall P us.
Proof.
  intros Hr. rewrite accepts_rep.
  split; intros (us & H1 & H2 & H3 & H4 & H5); exists us;
    (split; [done|]); (split; [done|]); (split; [done|]); (split; [done|]);
    by apply (pieces_free icase r P Hr us b a).
Qed.

Lemma cls_mem_sensitive (items : list citem) (x : N) :
  cls_mem false items x = existsb (fun it => item_mem it x) items.
Proof.
  unfold cls_mem. induction items as [|it items IH]; [done|].
  cbn [existsb]. rewrite IH. cbn [andb]. by rewrite orb_false_r.
Qed.

Lemma alnum_class (x : N) : cls_mem false Address.alnum x = is_alnum x.
Proof.
  rewrite cls_mem_sensitive. unfold is_alnum, JS.is_alpha, JS.is_upper, JS.is_lower,
    JS.is_digit. simpl.
  by destruct (JS.in_range 97 122 x), (JS.in_range 65 90 x), (JS.in_range 48 57 x).
Qed.

Lemma units_class (cs : list N) (x : N) :
  existsb (fun it => item_mem it x) (map IUnit cs) = existsb (N.eqb x) cs.
Proof. induction cs as [|c cs IH]; [done|]. simpl. by rewrite IH. Qed.

Lemma class_app (items items' : list citem) (x : N) :
  cls_mem false (items ++ items') x = cls_mem false items x || cls_mem false items' x.
Proof. by rewrite !cls_mem_sensitive, existsb_app. Qed.

Local Abbreviation hyphenated := (fun x : N => is_alnum x || (x =? 45)%N).

(** The tail of a label: letters, digits and hyphens, at most 61, and
    then a letter or a digit. *)
Lemma label_tail (b u a : jsstring) :
  accepts false
    (Seq (Rep 0 (Some 61%nat) (Cls false (Address.alnum ++ [IUnit 45])))
         (Cls false Address.alnum)) b u a
  <-> exists mid z, u = mid ++ [z] /\ (length mid <= 61)%nat
        /\ Forall (fun x => hyphenated x = true) mid /\ is_alnum z = true.
Proof.
  cbn [accepts]. split.
  - intros (u1 & u2 & -> & H1 & z & -> & Hz).
    change (accepts false (Rep 0 (Some 61%nat) (Cls false (Address.alnum ++ [IUnit 45]))) b u1
              ([z] ++ a)) in H1.
    apply (accepts_run false _ hyphenated) in H1 as (_ & Hhi & Hall).
    + exists u1, z. rewrite xorb_false_l, alnum_class in Hz. split; [done|].
      split; [by apply Hhi|]. done.
    + intros b' u' a'. cbn [accepts]. setoid_rewrite xorb_false_l.
      setoid_rewrite class_app. setoid_rewrite alnum_class.
      setoid_rewrite cls_mem_sensitive. simpl. by setoid_rewrite orb_false_r.
  - intros (mid & z & -> & Hlen & Hall & Hz). exists mid, [z]. split; [done|]. split.
    + change (accepts false (Rep 0 (Some 61%nat) (Cls false (Address.alnum ++ [IUnit 45])))
                b mid ([z] ++ a)).
      apply (accepts_run false _ hyphenated).
      * intros b' u' a'. cbn [accepts]. setoid_rewrite xorb_false_l.
        setoid_rewrite class_app. setoid_rewrite alnum_class.
        setoid_rewrite cls_mem_sensitive. simpl. by setoid_rewrite orb_false_r.
      * split; [lia|]. split; [by intros h [= <-]|done].
    + exists z. by rewrite xorb_false_l, alnum_class.
Qed.

Local Abbreviation label_tail_rx :=
  (Seq (Rep 0 (Some 61%nat) (Cls false (Address.alnum ++ [IUnit 45])))
       (Cls false Address.alnum)).
Local Abbreviation label_rx :=
  (Seq (Cls false Address.alnum) (Rep 0 (Some 1%nat) label_tail_rx)).

(** A label of the domain. *)
Lemma label_spec (b u a : jsstring) :
  accepts false label_rx b u a <-> domain_label u = true.
Proof.
  assert (Htail : forall b u a,
             accepts false label_tail_rx b u a <->
             (fun u => exists mid z, u = mid ++ [z] /\ (length mid <= 61)%nat
                /\ Forall (fun x => hyphenated x = true) mid /\ is_alnum z = true) u)
    by apply label_tail.
  change (accepts false label_rx b u a)
    with (exists u1 u2, u = u1 ++ u2
            /\ (exists x, u1 = [x] /\ xorb false (cls_mem false Address.alnum x) = true)
            /\ accepts false (Rep 0 (Some 1%nat) label_tail_rx) (rev u1 ++ b) u2 a).
  split.
  - intros (u1 & u2 & -> & (x & -> & Hx) & Hrep).
    rewrite xorb_false_l, alnum_class in Hx.
    apply (accepts_rep_free false _ _ 0 (Some 1%nat) _ _ _ Htail) in Hrep
      as (us & -> & _ & Hhi & Hne & Hall).
    specialize (Hhi 1%nat eq_refl). simpl. rewrite Hx. simpl.
    destruct us as [|t [|t' us]]; [done| |simpl in Hhi; lia].
    inversion Hall as [|? ? (mid & z & -> & Hlen & Hmid & Hz) _]; subst.
    simpl. rewrite app_nil_r, length_app, last_snoc, Hz. simpl.
    rewrite andb_true_r. apply andb_true_iff. split.
    + apply Nat.leb_le. lia.
    + apply forallb_forall. intros y Hy. apply in_app_or in Hy as [Hy|[<-|[]]].
      * rewrite Forall_forall in Hmid. apply Hmid. by apply list_elem_of_In.
      * by rewrite Hz.
  - destruct u as [|x rest]; [done|].
    intros H. cbn [domain_label] in H. apply andb_true_iff in H as [H Hlast].
    apply andb_true_iff in H as [H Hall]. apply andb_true_iff in H as [Hx Hlen].
    apply Nat.leb_le in Hlen. exists [x], rest. split; [done|]. split.
    { exists x. by rewrite xorb_false_l, alnum_class. }
    apply (accepts_rep_free false _ _ 0 (Some 1%nat) _ _ _ Htail).
    destruct rest as [|y rest' _] using rev_ind.
    + exists []. split; [done|]. split; [simpl; lia|].
      split; [intros h [= <-]; simpl; lia|]. split; by constructor.
    + exists [rest' ++ [y]]. simpl. rewrite app_nil_r. split; [done|].
      split; [lia|]. split; [by intros h [= <-]|].
      split; [constructor; [by destruct rest'|by constructor]|].
      constructor; [|by constructor]. exists rest', y. split; [done|].
      rewrite last_snoc in Hlast. rewrite length_app in Hlen. simpl in Hlen.
      split; [lia|]. split; [|done].
      apply Forall_forall. intros z Hz. rewrite forallb_forall in Hall.
      apply Hall, in_or_app. left. by apply list_elem_of_In.
Qed.

Lemma accepts_seq icase (r1 r2 : regex) b u a :
  accepts icase (Seq r1 r2) b u a <->
  exists u1 u2, u = u1 ++ u2 /\ accepts icase r1 b u1 (u2 ++ a)
    /\ accepts icase r2 (rev u1 ++ b) u2 a.
Proof. done. Qed.

Lemma accepts_chr icase (c : N) b u a :
  accepts icase (Chr c) b u a <-> exists x, u = [x] /\ unit_eq icase x c = true.
Proof. done. Qed.

Lemma join_cons (sep p : jsstring) (ps : list jsstring) :
  JS.join sep (p :: ps) = p ++ concat (map (app sep) ps).
Proof.
  revert p. induction ps as [|q ps IH]; intros p; [by rewrite app_nil_r|].
  change (JS.join sep (p :: q :: ps)) with (p ++ sep ++ JS.join sep (q :: ps)).
  rewrite IH. simpl. by rewrite <- app_assoc.
Qed.

Lemma local_class (x : N) :
  cls_mem false
    (Address.alnum ++ map IUnit [46; 33; 35; 36; 37; 38; 39; 42; 43; 47; 61; 63; 94; 95;
                                 96; 123; 124; 125; 126; 45]%N) x
  = local_unit x.
Proof. by rewrite class_app, alnum_class, cls_mem_sensitive, units_class. Qed.

(** A dot and a label. *)
Lemma dot_label (b u a : jsstring) :
  accepts false (Seq (Chr 46) label_rx) b u a
  <-> exists l, u = js "." ++ l /\ domain_label l = true.
Proof.
  rewrite accepts_seq. split.
  - intros (u1 & u2 & -> & (x & -> & Hx) & Hl). apply label_spec in Hl.
    apply N.eqb_eq in Hx as ->. by exists u2.
  - intros (l & -> & Hl). exists [46%N], l. split; [done|]. split; [by exists 46%N|].
    by apply label_spec.
Qed.

Lemma dotted_labels (us : list jsstring) :
  Forall (fun u => exists l, u = js "." ++ l /\ domain_label l = true) us <->
  exists ls, us = map (app (js ".")) ls /\ Forall (fun l => domain_label l = true) ls.
Proof.
  split.
  - induction 1 as [|u us (l & -> & Hl) _ (ls & -> & Hls)]; [by exists []|].
    exists (l :: ls). split; [done|by constructor].
  - intros (ls & -> & Hls). induction Hls as [|l ls Hl _ IH]; constructor; [|done].
    by exists l.
Qed.

(** X12: [isValidEmail] accepts exactly the strings made of a local part, an
    [@] and a domain, where the local part is one or more letters,
    digits and the signs [.!#$%&'*+/=?^_`{|}~-], and the domain is one
    or more labels separated by dots, each of 1 to 63 letters, digits
    and hyphens that neither starts nor ends with a hyphen. *)
Theorem isValidEmail_spec (email : jsstring) :
  isValidEmail email = true <->
  exists (local : jsstring) (labels : list jsstring),
    email = local ++ js "@" ++ JS.join (js ".") labels
    /\ local <> [] /\ Forall (fun c => local_unit c = true) local
    /\ labels <> [] /\ Forall (fun l => domain_label l = true) labels.
Proof.
  unfold isValidEmail.
  rewrite (test_spec emailRegex email eq_refl), (found_from_start emailRegex _ email eq_refl).
  assert (Hlocal : forall b u a,
             accepts false (Cls false (Address.alnum ++ map IUnit
               [46; 33; 35; 36; 37; 38; 39; 42; 43; 47; 61; 63; 94; 95; 96; 123; 124; 125;
                126; 45]%N)) b u a
             <-> exists x, u = [x] /\ local_unit x = true).
  { intros b u a. cbn [accepts]. setoid_rewrite xorb_false_l.
    by setoid_rewrite local_class. }
  split.
  - intros (u & a & -> & Hacc).
    apply accepts_seq in Hacc as (local & u1 & -> & Hloc & Hacc).
    apply (accepts_run false _ _ 1 None _ _ _ Hlocal) in Hloc as (Hlen & _ & Hloc).
    apply accepts_seq in Hacc as (at_ & u2 & -> & (x & -> & Hx) & Hacc).
    apply N.eqb_eq in Hx as ->.
    apply accepts_seq in Hacc as (l0 & u3 & -> & Hl0 & Hacc).
    apply label_spec in Hl0.
    apply accepts_up_to_end in Hacc as [-> Hacc].
    apply (accepts_rep_free false _ _ 0 None _ _ _ dot_label) in Hacc
      as (us & -> & _ & _ & _ & Hus).
    apply dotted_labels in Hus as (ls & -> & Hls).
    exists local, (l0 :: ls). rewrite join_cons, !app_nil_r.
    split; [done|]. split; [intros ->; simpl in Hlen; lia|].
    split; [done|]. split; [done|]. by constructor.
  - intros (local & labels & -> & Hne & Hloc & Hlne & Hls).
    destruct labels as [|l0 ls]; [done|]. inversion Hls as [|? ? Hl0 Hls']; subst.
    rewrite join_cons.
    exists (local ++ js "@" ++ l0 ++ concat (map (app (js ".")) ls)), [].
    rewrite app_nil_r. split; [done|].
    apply accepts_seq. exists local, (js "@" ++ l0 ++ concat (map (app (js ".")) ls)).
    split; [done|]. split.
    { apply (accepts_run false _ _ 1 None _ _ _ Hlocal). split; [|by split].
      destruct local; [done|simpl; lia]. }
    apply accepts_seq. exists (js "@"), (l0 ++ concat (map (app (js ".")) ls)).
    split; [done|]. split; [by exists 64%N|].
    apply accepts_seq. exists l0, (concat (map (app (js ".")) ls)).
    split; [done|]. split; [by apply label_spec|].
    apply accepts_up_to_end. split; [done|].
    apply (accepts_rep_free false _ _ 0 None _ _ _ dot_label).
    exists (map (app (js ".")) ls). split; [done|]. split; [lia|]. split; [done|].
    split.
    + simpl. clear. induction ls; by constructor.
    + apply dotted_labels. by exists ls.
Qed.

(** *** The spam patterns *)

(** A literal matches its units, up to case under the [i] flag. *)
Lemma accepts_lit icase (w : jsstring) b u a :
  accepts icase (lit w) b u a <-> Forall2 (fun x c => unit_eq icase x c = true) u w.
Proof.
  revert b u a. induction w as [|c w IH]; intros b u a.
  - simpl. split; [by intros ->; constructor|by inversion 1].
  - destruct w as [|c' w].
    + simpl. split.
      * intros (x & -> & Hx). by repeat constructor.
      * inversion 1 as [|x ? u' ? Hx Hu']; subst. inversion Hu'; subst. by exists x.
    + change (lit (c :: c' :: w)) with (Seq (Chr c) (lit (c' :: w))).
      rewrite accepts_seq. split.
      * intros (u1 & u2 & -> & (x & -> & Hx) & Hw). apply IH in Hw. by constructor.
      * inversion 1 as [|x ? u' ? Hx Hu']; subst. exists [x], u'. split; [done|].
        split; [by exists x|]. by apply IH.
Qed.

Lemma accepts_alts icase (rs : list regex) b u a :
  rs <> [] ->
  accepts icase (alts rs) b u a <-> Exists (fun r => accepts icase r b u a) rs.
Proof.
  induction rs as [|r rs IH]; [done|]. intros _. destruct rs as [|r' rs].
  - simpl. split; [by left|]. inversion 1 as [|? ? H']; [done|inversion H'].
  - change (alts (r :: r' :: rs)) with (Alt r (alts (r' :: rs))).
    cbn [accepts]. rewrite IH by done. split.
    + intros [H|H]; [by left|by right].
    + inversion 1; [by left|by right].
Qed.

Lemma upper_unit_inj (x c : N) :
  JS.is_upper x = false -> JS.is_upper c = false ->
  JS.upper_unit x = JS.upper_unit c -> x = c.
Proof.
  unfold JS.upper_unit, JS.is_upper, JS.is_lower, JS.in_range.
  repeat match goal with
         | |- context [(?n <=? ?m)%N] => destruct (N.leb_spec n m)
         end; simpl; intros; try discriminate; lia.
Qed.

(** In a string without capital letters, a match of a literal without
    capital letters is the literal itself. *)
Lemma lowered_lit (u w : jsstring) :
  Forall (fun x => JS.is_upper x = false) u ->
  Forall (fun x => JS.is_upper x = false) w ->
  Forall2 (fun x c => unit_eq true x c = true) u w <-> u = w.
Proof.
  intros Hu Hw. split.
  - intros H. induction H as [|x c u w Hx _ IH]; [done|].
    inversion Hu; inversion Hw; subst. f_equal; [|by apply IH].
    apply upper_unit_inj; [done|done|]. by apply N.eqb_eq.
  - intros <-. clear. induction u as [|x u IH]; constructor; [|done].
    apply N.eqb_refl.
Qed.

Lemma lower_unit_not_upper (x : N) : JS.is_upper (JS.lower_unit x) = false.
Proof.
  unfold JS.lower_unit. destruct (JS.is_upper x) eqn:E; [|done].
  revert E. unfold JS.is_upper, JS.in_range.
  repeat match goal with
         | |- context [(?n <=? ?m)%N] => destruct (N.leb_spec n m)
         end; simpl; try done; lia.
Qed.

Lemma toLowerCase_lowered (s : jsstring) :
  Forall (fun x => JS.is_upper x = false) (JS.toLowerCase s).
Proof. apply Forall_map, Forall_true. intros x. apply lower_unit_not_upper. Qed.

Lemma at_word_app (w a : jsstring) : at_word w = true -> at_word (w ++ a) = true.
Proof. by destruct w. Qed.

Lemma Forall_app_inv {A : Type} (P : A -> Prop) (l1 l2 : list A) :
  Forall P (l1 ++ l2) -> Forall P l1 /\ Forall P l2.
Proof. apply Forall_app. Qed.

Lemma exists_literal (P : regex -> Prop) (words : list string) :
  Exists P (map (fun w => lit (js w)) words) <-> exists w, In w words /\ P (lit (js w)).
Proof.
  induction words as [|w words IH]; simpl.
  - split; [inversion 1|by intros (? & [] & _)].
  - split.
    + inversion 1 as [? ? H'|? ? H']; subst; [by exists w; auto|].
      apply IH in H' as (w' & Hin & Hw'). exists w'. auto.
    + intros (w' & [<-|Hin] & Hw'); [by left|]. right. apply IH. by exists w'.
Qed.

(** A pattern [/\b(?:w1|w2|...)\b/i] on a string without capital
    letters: it matches where one of the words stands with no word
    character next to it on either side. *)
Lemma word_pattern (words : list string) (c : jsstring) :
  words <> [] ->
  Forall (fun w => Forall (fun x => JS.is_upper x = false) (js w)
                   /\ at_word (js w) = true /\ at_word (rev (js w)) = true) words ->
  Forall (fun x => JS.is_upper x = false) c ->
  found {| source := Seq WordB (Seq (alts (map (fun w => lit (js w)) words)) WordB);
           ignoreCase := true |} c
  <-> exists p w a, c = p ++ js w ++ a /\ In w words
        /\ at_word (rev p) = false /\ at_word a = false.
Proof.
  intros Hne Hwords Hc. unfold found. cbn [source ignoreCase].
  assert (Hne' : map (fun w => lit (js w)) words <> []) by (by destruct words).
  rewrite Forall_forall in Hwords. split.
  - intros (p & u & a & -> & Hacc).
    apply accepts_seq in Hacc as (u1 & u2 & -> & [-> Hb1] & Hacc).
    apply accepts_seq in Hacc as (u3 & u4 & -> & Halt & [-> Hb2]).
    apply (accepts_alts true _ _ _ _ Hne'), exists_literal in Halt as (w & Hin & Hw).
    destruct (Hwords w (proj2 (list_elem_of_In _ _) Hin)) as (Hlow & Hstart & Hend).
    apply accepts_lit in Hw.
    apply Forall_app_inv in Hc as [_ Hc]. simpl in Hc.
    apply Forall_app_inv in Hc as [Hc _]. apply Forall_app_inv in Hc as [Hc _].
    apply (lowered_lit u3 (js w) Hc Hlow) in Hw as ->.
    exists p, w, a. simpl in *. rewrite app_nil_r in *. split; [done|]. split; [done|].
    rewrite (at_word_app _ _ Hstart) in Hb1. rewrite (at_word_app _ _ Hend) in Hb2.
    split; [by destruct (at_word (rev p))|by destruct (at_word a)].
  - intros (p & w & a & -> & Hin & Hp & Ha).
    destruct (Hwords w (proj2 (list_elem_of_In _ _) Hin)) as (Hlow & Hstart & Hend).
    exists p, (js w), a. split; [done|].
    apply accepts_seq. exists [], (js w). split; [done|]. split.
    { split; [done|]. simpl. by rewrite (at_word_app _ _ Hstart), Hp. }
    apply accepts_seq. exists (js w), []. split; [by rewrite app_nil_r|]. split.
    + apply (accepts_alts true _ _ _ _ Hne'), exists_literal. exists w. split; [done|].
      apply accepts_lit. by apply lowered_lit.
    + split; [done|]. simpl. by rewrite (at_word_app _ _ Hend), Ha.
Qed.

Lemma is_space_letters (y : N) : (65 <= y <= 122)%N -> JS.is_space y = false.
Proof.
  intros Hy. unfold JS.is_space, JS.in_range.
  repeat match goal with
         | |- (_ || _) = false => apply orb_false_intro
         | |- (_ =? _)%N = false => apply N.eqb_neq; lia
         | |- ((_ <=? _)%N && (_ <=? _)%N) = false =>
             apply andb_false_iff;
             first [left; apply N.leb_gt; lia | right; apply N.leb_gt; lia]
         end.
Qed.

(** Under the [i] flag [\s] still matches the white space only. *)
Lemma space_class (x : N) : cls_mem true [ISpace] x = JS.is_space x.
Proof.
  unfold cls_mem. cbn [existsb item_mem andb]. rewrite orb_false_r.
  destruct (JS.is_space x) eqn:E; [done|]. simpl.
  unfold JS.upper_unit, JS.lower_unit.
  destruct (JS.is_lower x) eqn:El, (JS.is_upper x) eqn:Eu; rewrite ?E; simpl;
    unfold JS.is_lower, JS.is_upper, JS.in_range in El, Eu;
    rewrite ?is_space_letters; try done;
    repeat match goal with
           | H : context [(?n <=? ?m)%N] |- _ => destruct (N.leb_spec n m)
           end; simpl in *; try done; lia.
Qed.

Local Abbreviation url_rx :=
  (Seq (lit (js "http"))
     (Seq (Rep 0 (Some 1%nat) (Chr 115))
        (Seq (lit (js "://")) (Rep 1 None (Cls true [ISpace]))))).


Local Abbreviation same_letters := (Forall2 (fun x c : N => unit_eq true x c = true)).
Local Abbreviation url_ci := (fun u : jsstring =>
  exists h s sep rest, u = h ++ s ++ sep ++ rest
    /\ same_letters h (js "http")
    /\ (length s <= 1)%nat /\ Forall (fun x => unit_eq true x 115 = true) s
    /\ same_letters sep (js "://")
    /\ (1 <= length rest)%nat /\ Forall (fun x => JS.is_space x = false) rest).

(** One URL of the third spam pattern, whatever is around it. *)
Lemma url_piece (b u a : jsstring) : accepts true url_rx b u a <-> url_ci u.
Proof.
  assert (Hs : forall b u a, accepts true (Chr 115) b u a
                 <-> exists x, u = [x] /\ unit_eq true x 115 = true) by done.
  assert (Hn : forall b u a, accepts true (Cls true [ISpace]) b u a
                 <-> exists x, u = [x] /\ negb (JS.is_space x) = true).
  { intros b' u' a'. cbn [accepts]. setoid_rewrite xorb_true_l.
    by setoid_rewrite space_class. }
  split.
  - intros Hacc. apply accepts_seq in Hacc as (h & u1 & -> & Hh & Hacc).
    apply accepts_lit in Hh.
    apply accepts_seq in Hacc as (s' & u2 & -> & Hs' & Hacc).
    apply (accepts_run true _ _ 0 (Some 1%nat) _ _ _ Hs) in Hs' as (_ & Hlen & Hs').
    apply accepts_seq in Hacc as (sep & rest & -> & Hsep & Hrest).
    apply accepts_lit in Hsep.
    apply (accepts_run true _ _ 1 None _ _ _ Hn) in Hrest as (Hlen' & _ & Hrest).
    exists h, s', sep, rest. split; [done|]. split; [done|]. split; [by apply Hlen|].
    split; [done|]. split; [done|]. split; [done|].
    eapply Forall_impl; [exact Hrest|]. intros x Hx. by apply negb_true_iff.
  - intros (h & s' & sep & rest & -> & Hh & Hlen & Hs' & Hsep & Hlen' & Hrest).
    apply accepts_seq. exists h, (s' ++ sep ++ rest). split; [done|].
    split; [by apply accepts_lit|].
    apply accepts_seq. exists s', (sep ++ rest). split; [done|]. split.
    { apply (accepts_run true _ _ 0 (Some 1%nat) _ _ _ Hs). split; [lia|].
      split; [by intros ? [= <-]|done]. }
    apply accepts_seq. exists sep, rest. split; [done|].
    split; [by apply accepts_lit|].
    apply (accepts_run true _ _ 1 None _ _ _ Hn). split; [done|]. split; [done|].
    eapply Forall_impl; [exact Hrest|]. intros x Hx. by apply negb_true_iff.
Qed.

Lemma url_lowered (u : jsstring) :
  Forall (fun x => JS.is_upper x = false) u -> url_ci u <-> url u.
Proof.
  intros Hu. unfold url. split.
  - intros (h & s' & sep & rest & -> & Hh & Hlen & Hs' & Hsep & Hlen' & Hrest).
    apply Forall_app_inv in Hu as [Hu1 Hu]. apply Forall_app_inv in Hu as [Hu2 Hu].
    apply Forall_app_inv in Hu as [Hu3 _].
    apply lowered_lit in Hh as ->; [|done|by repeat constructor].
    apply lowered_lit in Hsep as ->; [|done|by repeat constructor].
    exists rest. split; [|split; [intros ->; simpl in Hlen'; lia|done]].
    destruct s' as [|x [|y s']]; [by left| |simpl in Hlen; lia].
    right. inversion Hs' as [|? ? Hx _]; subst. inversion Hu2; subst.
    apply N.eqb_eq, upper_unit_inj in Hx as ->; done.
  - intros (rest & [->| ->] & Hne & Hrest).
    + exists (js "http"), [], (js "://"), rest. split; [done|].
      split; [by repeat constructor|]. split; [simpl; lia|]. split; [done|].
      split; [by repeat constructor|]. split; [|done]. destruct rest; [done|simpl; lia].
    + exists (js "http"), [115%N], (js "://"), rest. split; [done|].
      split; [by repeat constructor|]. split; [simpl; lia|].
      split; [by repeat constructor|].
      split; [by repeat constructor|]. split; [|done]. destruct rest; [done|simpl; lia].
Qed.

(** The third spam pattern, [/(?:https?:\/\/[^\s]+){3,}/i], on a string
    without capital letters: it matches where three URLs stand one
    directly after the other. *)
Lemma url_pattern (c : jsstring) :
  Forall (fun x => JS.is_upper x = false) c ->
  found {| source := Rep 3 None url_rx; ignoreCase := true |} c
  <-> exists p u1 u2 u3 a, c = p ++ u1 ++ u2 ++ u3 ++ a /\ url u1 /\ url u2 /\ url u3.
Proof.
  intros Hc. unfold found. cbn [source ignoreCase]. split.
  - intros (p & u & a & -> & Hacc).
    apply (accepts_rep_free true _ _ 3 None _ _ _ url_piece) in Hacc
      as (us & -> & Hlen & _ & _ & Hus).
    destruct us as [|u1 [|u2 [|u3 us]]]; try (simpl in Hlen; lia).
    apply Forall_app_inv in Hc as [_ Hc]. apply Forall_app_inv in Hc as [Hc _].
    simpl in Hc. apply Forall_app_inv in Hc as [Hc1 Hc].
    apply Forall_app_inv in Hc as [Hc2 Hc]. apply Forall_app_inv in Hc as [Hc3 _].
    inversion Hus as [|? ? H1 Hus1]; subst. inversion Hus1 as [|? ? H2 Hus2]; subst.
    inversion Hus2 as [|? ? H3 _]; subst.
    exists p, u1, u2, u3, (concat us ++ a). simpl. rewrite <- !app_assoc.
    split; [done|]. split; [by apply url_lowered|].
    split; by apply url_lowered.
  - intros (p & u1 & u2 & u3 & a & -> & H1 & H2 & H3).
    apply Forall_app_inv in Hc as [_ Hc]. apply Forall_app_inv in Hc as [Hc1 Hc].
    apply Forall_app_inv in Hc as [Hc2 Hc]. apply Forall_app_inv in Hc as [Hc3 _].
    exists p, (u1 ++ u2 ++ u3), a. rewrite <- !app_assoc. split; [done|].
    apply (accepts_rep_free true _ _ 3 None _ _ _ url_piece). exists [u1; u2; u3].
    simpl. rewrite app_nil_r. split; [done|]. split; [lia|]. split; [done|].
    split; [by constructor|]. repeat constructor; by apply url_lowered.
Qed.

(** The search tries the positions from left to right, for any
    pattern. *)
Lemma search_iff icase r (fuel : nat) (st : mstate) :
  search fuel icase r st = true <->
  exists p rest, after st = p ++ rest /\ (length p <= fuel)%nat
    /\ rmatch icase r (MState (rev p ++ before st) rest (caps st)) (fun _ => true) = true.
Proof.
  revert st. induction fuel as [|fuel IH]; intros st.
  - cbn [search]. rewrite orb_false_r. split.
    + intros H. exists [], (after st). simpl. by rewrite mstate_eta.
    + intros (p & rest & Ha & Hl & H). destruct p; [|simpl in Hl; lia].
      simpl in *. subst rest. by rewrite mstate_eta in H.
  - cbn [search]. rewrite orb_true_iff. split.
    + intros [H|H].
      * exists [], (after st). simpl. rewrite mstate_eta. split; [done|]. split; [lia|done].
      * destruct (after st) as [|x rest] eqn:E; [done|].
        rewrite (advance_one st x rest E) in H.
        apply IH in H as (p & rest' & Ha & Hl & H). cbn [after before caps] in *.
        exists (x :: p), rest'. subst rest. split; [done|]. split; [simpl; lia|].
        simpl. by rewrite <- app_assoc.
    + intros (p & rest & Ha & Hl & H). destruct p as [|x p].
      * left. simpl in *. subst rest. by rewrite mstate_eta in H.
      * right. simpl in Ha. rewrite Ha, (advance_one st x _ Ha).
        apply IH. exists p, rest. cbn [after before caps]. split; [done|].
        split; [simpl in Hl; lia|]. simpl in H. by rewrite <- app_assoc in H.
Qed.

Lemma test_iff (re : RegExp) s :
  test re s = true <->
  exists p rest, s = p ++ rest
    /\ rmatch (ignoreCase re) (source re) (MState (rev p) rest []) (fun _ => true) = true.
Proof.
  unfold test. rewrite search_iff. cbn [after before caps]. split.
  - intros (p & rest & -> & _ & H). exists p, rest. by rewrite app_nil_r in H.
  - intros (p & rest & -> & H). exists p, rest. rewrite app_nil_r.
    split; [done|]. split; [|done]. rewrite length_app. lia.
Qed.

(** Repetitions of a backreference to a captured unit. *)
Lemma repeat_ref (x : N) (budget lo : nat) (st : mstate) :
  cap_get 1 (caps st) = Some [x] ->
  (lo + length (after st) < budget)%nat ->
  repeat_match budget [] (rmatch false (Ref 1)) lo None st (fun _ => true) = true
  <-> exists rest, after st = replicate lo x ++ rest.
Proof.
  revert lo st. induction budget as [|budget IH]; intros lo st Hcap Hb; [lia|].
  cbn [repeat_match]. rewrite cap_clear_nil, mstate_eta. destruct lo as [|lo].
  - rewrite orb_true_r. split; [|done]. intros _. by exists (after st).
  - cbn [rmatch]. rewrite Hcap. destruct (after st) as [|y rest] eqn:E.
    { split; [done|]. by intros (? & ?). }
    cbn [prefix_eq unit_eq]. rewrite andb_true_r.
    destruct (N.eqb_spec x y) as [<-|Hne].
    + cbn [length]. rewrite (advance_one st x rest E). cbn [Nat.eqb andb Nat.pred fmap].
      change (Nat.pred <$> None) with (@None nat).
      rewrite IH; [|done|simpl in *; lia]. cbn [after]. split.
      * intros (rest' & ->). by exists rest'.
      * intros (rest' & Hr). simpl in Hr. injection Hr as ->. by exists rest'.
    + split; [done|]. intros (rest' & Hr). simpl in Hr. by injection Hr as <-.
Qed.

(** The fourth spam pattern, [/(.)\1{10,}/]: a unit that is not a line
    terminator, eleven times in a row. *)
Lemma repeated_pattern (s : jsstring) :
  test {| source := Seq (Grp 1 Any) (Rep 10 None (Ref 1)); ignoreCase := false |} s = true
  <-> exists p x a, s = p ++ replicate 11 x ++ a /\ JS.is_line_terminator x = false.
Proof.
  rewrite test_iff. cbn [source ignoreCase].
  assert (Hat : forall b rest,
             rmatch false (Seq (Grp 1 Any) (Rep 10 None (Ref 1))) (MState b rest [])
               (fun _ => true) = true
             <-> exists x a, rest = replicate 11 x ++ a /\ JS.is_line_terminator x = false).
  { intros b rest. cbn [rmatch after before caps]. destruct rest as [|x rest].
    { split; [done|]. by intros (? & ? & ? & _). }
    destruct (JS.is_line_terminator x) eqn:Hx.
    { split; [done|]. intros (y & a & Hr & Hy). simpl in Hr. injection Hr as <- _.
      by rewrite Hx in Hy. }
    cbn [advance after before caps groups length].
    replace (S (length rest) - length rest)%nat with 1%nat by lia.
    cbn [take]. rewrite repeat_ref with (x := x); [|done|cbn [after]; lia].
    cbn [after]. split.
    - intros (a & ->). by exists x, a.
    - intros (y & a & Hr & _). simpl in Hr. injection Hr as <- ->. by exists a. }
  split.
  - intros (p & rest & -> & H). apply Hat in H as (x & a & -> & Hx). by exists p, x, a.
  - intros (p & x & a & -> & Hx). exists p, (replicate 11 x ++ a). split; [done|].
    apply Hat. by exists x, a.
Qed.

(** The fifth spam pattern, [/[^\x00-\x7F]{20,}/]: twenty units above
    U+007F in a row. *)
Lemma non_ascii_pattern (c : jsstring) :
  found {| source := Rep 20 None (Cls true [IRange 0 127]); ignoreCase := false |} c
  <-> exists p u a, c = p ++ u ++ a /\ (20 <= length u)%nat
        /\ Forall (fun x => (127 < x)%N) u.
Proof.
  assert (Hn : forall b u a, accepts false (Cls true [IRange 0 127]) b u a
                 <-> exists x, u = [x] /\ (127 <? x)%N = true).
  { intros b u a. cbn [accepts]. setoid_rewrite xorb_true_l.
    setoid_rewrite cls_mem_sensitive. cbn [existsb item_mem].
    split; intros (x & -> & Hx); exists x; (split; [done|]); revert Hx;
      unfold JS.in_range; destruct (N.leb_spec 0 x), (N.leb_spec x 127), (N.ltb_spec 127 x);
      simpl; try done; lia. }
  unfold found. cbn [source ignoreCase]. split.
  - intros (p & u & a & -> & Hacc).
    apply (accepts_run false _ _ 20 None _ _ _ Hn) in Hacc as (Hlen & _ & Hall).
    exists p, u, a. split; [done|]. split; [done|].
    eapply Forall_impl; [exact Hall|]. intros x Hx. by apply N.ltb_lt.
  - intros (p & u & a & -> & Hlen & Hall). exists p, u, a. split; [done|].
    apply (accepts_run false _ _ 20 None _ _ _ Hn). split; [done|]. split; [done|].
    eapply Forall_impl; [exact Hall|]. intros x Hx. by apply N.ltb_lt.
Qed.

(** The patterns of [isSpam] on the content as [JS.toLowerCase] leaves
    it, pattern by pattern. *)
Lemma isSpam_patterns (content : jsstring) :
  let c := JS.toLowerCase content in
  isSpam content = true <->
  (exists p w a, c = p ++ w ++ a /\ In w spam_words
     /\ at_word (rev p) = false /\ at_word a = false)
  \/ (exists p u1 u2 u3 a, c = p ++ u1 ++ u2 ++ u3 ++ a /\ url u1 /\ url u2 /\ url u3)
  \/ (exists p x a, c = p ++ replicate 11 x ++ a /\ JS.is_line_terminator x = false)
  \/ (exists p u a, c = p ++ u ++ a /\ (20 <= length u)%nat
        /\ Forall (fun x => (127 < x)%N) u).
Proof.
  intros c. unfold isSpam. fold c. unfold spamPatterns. cbn [existsb].
  rewrite orb_false_r, !orb_true_iff.
  pose proof (toLowerCase_lowered content) as Hc. fold c in Hc.
  rewrite (repeated_pattern c).
  repeat match goal with
         | |- context [test ?re c] => rewrite (test_spec re c eq_refl)
         end.
  rewrite (word_pattern _ c), (word_pattern _ c), (url_pattern c Hc), non_ascii_pattern;
    try done; try (repeat constructor; done).
  assert (Hw : spam_words
               = map js (app ["viagra"; "cialis"; "casino"; "poker"; "lottery"; "winner";
                              "congratulations"]%string
                             ["click here"; "free money"; "make money fast";
                              "work from home"]%string)) by reflexivity.
  rewrite Hw. split.
  - intros [(p & w & a & -> & Hin & H)|[(p & w & a & -> & Hin & H)|H]]; [| |by right].
    + left. exists p, (js w), a. split; [done|]. split; [|done].
      apply in_map, in_or_app. by left.
    + left. exists p, (js w), a. split; [done|]. split; [|done].
      apply in_map, in_or_app. by right.
  - intros [(p & w & a & -> & Hin & H)|H]; [|by right; right].
    apply in_map_iff in Hin as (w' & <- & Hin).
    apply in_app_or in Hin as [Hin|Hin]; [left|right; left]; by exists p, w', a.
Qed.


(** Lower-casing keeps ASCII content ASCII. *)
Lemma toLowerCase_ascii (s : jsstring) :
  forallb (fun x => (x <=? 127)%N) s = true ->
  Forall (fun x => (x <= 127)%N) (JS.toLowerCase s).
Proof.
  unfold JS.toLowerCase. induction s as [|x s IH]; [by constructor|].
  cbn [forallb map]. intros [Hx Hs]%andb_true_iff. constructor; [|by apply IH].
  apply N.leb_le in Hx. unfold JS.lower_unit, JS.is_upper, JS.in_range.
  destruct (N.leb_spec 65 x), (N.leb_spec x 90); simpl; lia.
Qed.

(** X13: [isSpam] on content of ASCII units, where lower-casing is the mapping
    of [A]-[Z] to [a]-[z]: the content is classified as spam exactly when,
    lower-cased, it holds one of the eleven words and phrases as a whole
    word, or three URLs one directly after the other, or a unit that is
    not a line terminator eleven times in a row. The fifth pattern, twenty
    units above U+007F in a row, matches no such content. *)
Theorem isSpam_spec (content : jsstring) :
  forallb (fun x => (x <=? 127)%N) content = true ->
  let c := JS.toLowerCase content in
  isSpam content = true <->
  (exists p w a, c = p ++ w ++ a /\ In w spam_words
     /\ at_word (rev p) = false /\ at_word a = false)
  \/ (exists p u1 u2 u3 a, c = p ++ u1 ++ u2 ++ u3 ++ a /\ url u1 /\ url u2 /\ url u3)
  \/ (exists p x a, c = p ++ replicate 11 x ++ a /\ JS.is_line_terminator x = false).
Proof.
  intros Hascii c. pose proof (toLowerCase_ascii content Hascii) as Hc. fold c in Hc.
  rewrite (isSpam_patterns content). fold c. split.
  - intros [H|[H|[H|(p & u & a & E & Hlen & Hu)]]]; [by left|by right; left|by right; right|].
    exfalso. rewrite E in Hc. apply Forall_app in Hc as [_ [Hc _]%Forall_app].
    destruct u as [|x u]; [simpl in Hlen; lia|].
    inversion Hc; subst. inversion Hu; subst. lia.
  - intros [H|[H|H]]; [by left|by right; left|by right; right; left].
Qed.

End PatternFacts.

(** An ASCII message with one of the words in capitals. *)
Lemma isSpam_spec_witness :
  forallb (fun x => (x <=? 127)%N) (js "You are a WINNER today") = true
  /\ ((exists p w a, JS.toLowerCase (js "You are a WINNER today") = p ++ w ++ a
         /\ In w spam_words /\ Regex.at_word (rev p) = false /\ Regex.at_word a = false)
      \/ (exists p u1 u2 u3 a,
            JS.toLowerCase (js "You are a WINNER today") = p ++ u1 ++ u2 ++ u3 ++ a
            /\ url u1 /\ url u2 /\ url u3)
      \/ (exists p x a,
            JS.toLowerCase (js "You are a WINNER today") = p ++ replicate 11 x ++ a
            /\ JS.is_line_terminator x = false)).
Proof.
  split; [vm_compute; reflexivity|].
  apply (proj1 (isSpam_spec (js "You are a WINNER today") eq_refl)).
  vm_compute. reflexivity.
Defined.
(** ** More on the validator *)

Section ValidationMore.

Variable isEmail : jsstring -> bool.
Variable purify : DOMPurify.Config -> jsstring -> jsstring.

Local Abbreviation validated key sch props :=
  (Joi.validateString isEmail (js key) sch (getProp props (js key))).

(** The validator on an object, from the answers of the four keys. *)
Lemma validateContactForm_object (props : list (jsstring * JSValue)) :
  validateContactForm isEmail purify (JObject props) =
    let n := validated "name" nameSchema props in
    let e := validated "email" emailSchema props in
    let s := validated "subject" subjectSchema props in
    let m := validated "message" messageSchema props in
    match n.1 ++ e.1 ++ s.1 ++ m.1 with
    | [] =>
        Normal {| isValid := true;
                  sanitizedData := Some
                    (ContactFormRequest.mk
                       (sanitizeValue purify n.2) (sanitizeValue purify e.2)
                       (match s.2 with
                        | Some (c :: t) => Some (purify DOMPurify.no_config (c :: t))
                        | _ => None
                        end)
                       (sanitizeValue purify m.2));
                  errors := None |}
    | details =>
        Normal {| isValid := false; sanitizedData := None;
                  errors := Some (map (fun detail =>
                    ValidationError.mk (JS.join (js ".") (Joi.path detail))
                      (Joi.message detail)) details) |}
    end.
Proof.
  unfold validateContactForm. rewrite validate_object. cbv zeta.
  cbn [Joi.error Joi.value].
  destruct (Joi.validateString _ (js "name") _ _) as [e1 o1];
  destruct (Joi.validateString _ (js "email") _ _) as [e2 o2];
  destruct (Joi.validateString _ (js "subject") _ _) as [e3 o3];
  destruct (Joi.validateString _ (js "message") _ _) as [e4 o4].
  cbn [fst snd]. destruct (e1 ++ e2 ++ e3 ++ e4); [|done].
  by destruct o1, o2, o3, o4.
Qed.

(** X14: Properties the schema does not name are ignored: the answer depends
    on the object only through its [name], [email], [subject] and
    [message], whatever else it carries. *)
Theorem unknown_properties_ignored (props props' : list (jsstring * JSValue)) :
  Forall (fun key => getProp props key = getProp props' key)
    [js "name"; js "email"; js "subject"; js "message"] ->
  validateContactForm isEmail purify (JObject props)
  = validateContactForm isEmail purify (JObject props').
Proof.
  intros H. rewrite !validateContactForm_object.
  inversion H as [|? ? H1 H']; subst. inversion H' as [|? ? H2 H'']; subst.
  inversion H'' as [|? ? H3 H''']; subst. inversion H''' as [|? ? H4 _]; subst.
  by rewrite H1, H2, H3, H4.
Qed.

Lemma name_accepted (raw : jsstring) :
  JS.trim raw <> [] -> JS.length (JS.trim raw) <= 100 ->
  Regex.test namePattern (JS.trim raw) = true ->
  Joi.validateString isEmail (js "name") nameSchema (JString raw) = ([], Some (JS.trim raw)).
Proof.
  intros Hne Hlen Hp. unfold Joi.validateString.
  change (Joi.has_trim nameSchema) with true. cbv iota.
  change (Joi.allowed nameSchema) with (@nil jsstring). cbn [existsb].
  destruct (JS.trim raw) as [|c t] eqn:E; [done|].
  cbn [flat_map Joi.rules nameSchema Joi.check app]. rewrite Hp.
  destruct (Z.ltb_spec (JS.length (c :: t)) 1) as [H|_].
  { unfold JS.length in H. simpl in H. lia. }
  destruct (Z.ltb_spec 100 (JS.length (c :: t))) as [H|_]; [lia|done].
Qed.

Lemma email_accepted (raw : jsstring) :
  raw <> [] -> isEmail raw = true -> JS.length raw <= 254 ->
  Joi.validateString isEmail (js "email") emailSchema (JString raw) = ([], Some raw).
Proof.
  intros Hne He Hlen. unfold Joi.validateString.
  change (Joi.has_trim emailSchema) with false. cbv iota.
  change (Joi.allowed emailSchema) with (@nil jsstring). cbn [existsb].
  destruct raw as [|c t]; [done|].
  cbn [flat_map Joi.rules emailSchema Joi.check app]. rewrite He.
  destruct (Z.ltb_spec 254 (JS.length (c :: t))) as [H|_]; [lia|done].
Qed.

Lemma message_accepted (raw : jsstring) :
  10 <= JS.length (JS.trim raw) <= 5000 ->
  Joi.validateString isEmail (js "message") messageSchema (JString raw)
  = ([], Some (JS.trim raw)).
Proof.
  intros Hlen. unfold Joi.validateString.
  change (Joi.has_trim messageSchema) with true. cbv iota.
  change (Joi.allowed messageSchema) with (@nil jsstring). cbn [existsb].
  destruct (JS.trim raw) as [|c t] eqn:E; [unfold JS.length in Hlen; simpl in Hlen; lia|].
  cbn [flat_map Joi.rules messageSchema Joi.check app].
  destruct (Z.ltb_spec (JS.length (c :: t)) 10) as [H|_]; [lia|].
  destruct (Z.ltb_spec 5000 (JS.length (c :: t))) as [H|_]; [lia|done].
Qed.

Lemma subject_accepted (raw : jsstring) :
  JS.length (JS.trim raw) <= 200 ->
  Joi.validateString isEmail (js "subject") subjectSchema (JString raw)
  = ([], Some (JS.trim raw)).
Proof.
  intros Hlen. unfold Joi.validateString.
  change (Joi.has_trim subjectSchema) with true. cbv iota.
  change (Joi.allowed subjectSchema) with [@nil N]. cbn [existsb].
  destruct (JS.trim raw) as [|c t] eqn:E; [done|]. cbn [JS.eqb orb].
  cbn [flat_map Joi.rules subjectSchema Joi.check app].
  destruct (Z.ltb_spec 200 (JS.length (c :: t))) as [H|_]; [lia|done].
Qed.

(** X15: The schema is complete: an object whose name, email and message are
    strings within the rules (the name and the message after trimming),
    and whose subject is absent or a string of at most 200 units after
    trimming, is accepted, and the submission returned is made of the
    sanitizer's output on the trimmed name, the email as submitted, the
    trimmed subject unless it is absent or empty, and the trimmed
    message. *)
Theorem well_formed_submission_accepted (props : list (jsstring * JSValue))
    (name email message : jsstring) (subject : option jsstring) :
  getProp props (js "name") = JString name ->
  getProp props (js "email") = JString email ->
  getProp props (js "subject")
    = match subject with Some s => JString s | None => JUndefined end ->
  getProp props (js "message") = JString message ->
  JS.trim name <> [] /\ JS.length (JS.trim name) <= 100
    /\ Forall (fun c => name_unit c = true) (JS.trim name) ->
  email <> [] /\ isEmail email = true /\ JS.length email <= 254 ->
  (forall s, subject = Some s -> JS.length (JS.trim s) <= 200) ->
  10 <= JS.length (JS.trim message) <= 5000 ->
  validateContactForm isEmail purify (JObject props)
  = Normal {| isValid := true;
              sanitizedData := Some
                {| ContactFormRequest.name := purify DOMPurify.no_config (JS.trim name);
                   ContactFormRequest.email := purify DOMPurify.no_config email;
                   ContactFormRequest.subject :=
                     match subject with
                     | Some s =>
                         match JS.trim s with
                         | [] => None
                         | c :: t => Some (purify DOMPurify.no_config (c :: t))
                         end
                     | None => None
                     end;
                   ContactFormRequest.message :=
                     purify DOMPurify.no_config (JS.trim message) |};
              errors := None |}.
Proof.
  intros Hn He Hs Hm (Hn1 & Hn2 & Hn3) (He1 & He2 & He3) Hsub Hmsg.
  rewrite validateContactForm_object. cbv zeta. rewrite Hn, He, Hs, Hm.
  rewrite (name_accepted name Hn1 Hn2), (email_accepted email He1 He2 He3),
    (message_accepted message Hmsg); [|by apply namePattern_units].
  destruct subject as [s|].
  - rewrite (subject_accepted s (Hsub s eq_refl)). done.
  - done.
Qed.

(** Every error of a key is reported under that key. *)
Lemma details_path (key : jsstring) (sch : Joi.StringSchema) (item : JSValue) :
  Forall (fun d => Joi.path d = [key]) (Joi.validateString isEmail key sch item).1.
Proof.
  unfold Joi.validateString. destruct item as [| | | |s| |];
    try (cbn [fst]; by repeat constructor).
  - destruct (Joi.presence sch); cbn [fst]; by repeat constructor.
  - destruct (existsb _ _); [by constructor|].
    destruct (if Joi.has_trim sch then JS.trim s else s) as [|c t].
    + destruct (Joi.has_min0 sch); cbn [fst]; by repeat constructor.
    + cbn [fst]. induction (Joi.rules sch) as [|r rs IH]; [by constructor|].
      cbn [flat_map]. apply Forall_app. split; [|done].
      destruct r; cbn [Joi.check]; try (by constructor);
        match goal with |- context [if ?c then _ else _] => destruct c end;
        by repeat constructor.
Qed.

(** The errors reported for one field, among those of a key. *)
Lemma errors_of_field (key k : jsstring) (ds : list Joi.Detail) :
  Forall (fun d => Joi.path d = [k]) ds ->
  List.filter (fun e => JS.eqb (ValidationError.field e) key)
    (map (fun detail => ValidationError.mk (JS.join (js ".") (Joi.path detail))
                          (Joi.message detail)) ds)
  = if JS.eqb k key
    then map (fun detail => ValidationError.mk (JS.join (js ".") (Joi.path detail))
                              (Joi.message detail)) ds
    else [].
Proof.
  induction 1 as [|d ds Hd _ IH]; [by destruct (JS.eqb k key)|].
  cbn [map List.filter ValidationError.field]. rewrite IH, Hd.
  change (JS.join (js ".") [k]) with k. by destruct (JS.eqb k key).
Qed.

(** X16: A required property that is missing is reported once, with the
    validator's own message, ["key" is required]: it is the only error
    of that field, so none of the messages the schema sets (such as
    [Name is required], which belongs to the empty string) is given for
    a missing property. *)
Theorem missing_property_message (props : list (jsstring * JSValue)) (key : jsstring) :
  In key [js "name"; js "email"; js "message"] ->
  getProp props key = JUndefined ->
  exists errs,
    validateContactForm isEmail purify (JObject props)
    = Normal {| isValid := false; sanitizedData := None; errors := Some errs |}
    /\ List.filter (fun e => JS.eqb (ValidationError.field e) key) errs
       = [ValidationError.mk key (dquote :: key ++ dquote :: js " is required")].
Proof.
  intros Hkey Hu. rewrite validateContactForm_object. cbv zeta.
  pose proof (details_path (js "name") nameSchema (getProp props (js "name"))) as P1.
  pose proof (details_path (js "email") emailSchema (getProp props (js "email"))) as P2.
  pose proof (details_path (js "subject") subjectSchema (getProp props (js "subject"))) as P3.
  pose proof (details_path (js "message") messageSchema (getProp props (js "message"))) as P4.
  destruct (validated "name" nameSchema props) as [e1 o1] eqn:E1.
  destruct (validated "email" emailSchema props) as [e2 o2] eqn:E2.
  destruct (validated "subject" subjectSchema props) as [e3 o3] eqn:E3.
  destruct (validated "message" messageSchema props) as [e4 o4] eqn:E4.
  cbn [fst snd] in *.
  assert (Hf : List.filter (fun e => JS.eqb (ValidationError.field e) key)
                 (map (fun detail => ValidationError.mk (JS.join (js ".") (Joi.path detail))
                                       (Joi.message detail)) (e1 ++ e2 ++ e3 ++ e4))
               = [ValidationError.mk key (dquote :: key ++ dquote :: js " is required")]).
  { rewrite !map_app, !List.filter_app,
      (errors_of_field key _ e1 P1), (errors_of_field key _ e2 P2),
      (errors_of_field key _ e3 P3), (errors_of_field key _ e4 P4).
    destruct Hkey as [<-|[<-|[<-|[]]]]; rewrite Hu in *;
      repeat match goal with
             | |- context [JS.eqb (js ?a) (js ?b)] =>
                 let v := eval vm_compute in (JS.eqb (js a) (js b)) in
                 change (JS.eqb (js a) (js b)) with v
             end; cbv iota; cbn [app]; rewrite ?app_nil_r.
    - by injection E1 as <- <-.
    - by injection E2 as <- <-.
    - by injection E4 as <- <-. }
  destruct (e1 ++ e2 ++ e3 ++ e4) as [|d ds] eqn:E; [done|].
  eexists. split; [done|exact Hf].
Qed.

Lemma includes_unit (c : N) (s : jsstring) :
  Forall (fun x => x <> c) s -> JS.includes [c] s = false.
Proof.
  induction 1 as [|x s Hx _ IH]; [done|].
  cbn [JS.includes JS.startsWith]. rewrite IH, andb_true_r, orb_false_r.
  apply N.eqb_neq. congruence.
Qed.

End ValidationMore.

(** X17: The name of an accepted submission is the submitted name with the
    white space at its ends removed: the units the name rule allows
    hold no markup, and the sanitizer returns such a string as it is. *)
Theorem accepted_name_is_as_submitted (isEmail : jsstring -> bool) (data : JSValue)
    (v : Validation) :
  validateContactForm isEmail DOMPurify.sanitize data = Normal v ->
  isValid v = true ->
  exists props raw formData,
    data = JObject props
    /\ getProp props (js "name") = JString raw
    /\ sanitizedData v = Some formData
    /\ ContactFormRequest.name formData = JS.trim raw
    /\ JS.trim raw <> []
    /\ Forall (fun c => name_unit c = true) (JS.trim raw).
Proof.
  intros Hv Hvalid. destruct data as [| | | | | |props];
    try (injection Hv as <-; discriminate); try discriminate.
  revert Hv. rewrite (validateContactForm_object isEmail DOMPurify.sanitize). cbv zeta.
  destruct (Joi.validateString isEmail (js "name") _ _) as [e1 o1] eqn:E1.
  destruct (Joi.validateString isEmail (js "email") _ _) as [e2 o2] eqn:E2.
  destruct (Joi.validateString isEmail (js "subject") _ _) as [e3 o3] eqn:E3.
  destruct (Joi.validateString isEmail (js "message") _ _) as [e4 o4] eqn:E4.
  cbn [fst snd]. destruct (e1 ++ e2 ++ e3 ++ e4) eqn:E;
    [|intros [= <-]; discriminate].
  apply app_eq_nil in E as [-> _].
  apply name_passes in E1 as (raw & Hraw & -> & _ & Hp).
  apply namePattern_units in Hp as [Hne Hall].
  intros [= <-]. eexists props, raw, _. split; [done|]. split; [done|].
  split; [done|]. split; [|done]. cbn [ContactFormRequest.name sanitizeValue].
  apply sanitize_plain, includes_unit.
  eapply Forall_impl; [exact Hall|]. intros x Hx ->. discriminate.
Qed.


(** A submission that carries a property the schema does not name. *)
Lemma unknown_properties_ignored_witness :
  validateContactForm Sample.isEmail DOMPurify.sanitize
    (JObject [ (js "website", JString (js "http://spam.example"));
               (js "name", JString (js "John Doe"));
               (js "email", JString (js "john@example.com"));
               (js "message", JString (js "This is a test message.")) ])
  = validateContactForm Sample.isEmail DOMPurify.sanitize
      (Sample.form "John Doe" "john@example.com" "This is a test message.").
Proof.
  apply (unknown_properties_ignored Sample.isEmail DOMPurify.sanitize).
  repeat constructor.
Defined.

(** A submission whose name and message need trimming. *)
Lemma well_formed_submission_accepted_witness :
  validateContactForm Sample.isEmail DOMPurify.sanitize
    (Sample.form "  John Doe " "john@example.com" " This is a test message. ")
  = Normal {| isValid := true;
              sanitizedData := Some
                {| ContactFormRequest.name :=
                     DOMPurify.sanitize DOMPurify.no_config (JS.trim (js "  John Doe "));
                   ContactFormRequest.email :=
                     DOMPurify.sanitize DOMPurify.no_config (js "john@example.com");
                   ContactFormRequest.subject := None;
                   ContactFormRequest.message :=
                     DOMPurify.sanitize DOMPurify.no_config
                       (JS.trim (js " This is a test message. ")) |};
              errors := None |}.
Proof.
  apply (well_formed_submission_accepted Sample.isEmail DOMPurify.sanitize _
           (js "  John Doe ") (js "john@example.com") (js " This is a test message. ") None);
    try reflexivity.
  - split; [by vm_compute|]. split; [by vm_compute|]. vm_compute. repeat constructor.
  - split; [done|]. split; [vm_compute; reflexivity|by vm_compute].
  - discriminate.
  - by vm_compute.
Defined.

(** A submission without an email. *)
Lemma missing_property_message_witness :
  exists errs,
    validateContactForm Sample.isEmail DOMPurify.sanitize
      (JObject [ (js "name", JString (js "John Doe"));
                 (js "message", JString (js "This is a test message.")) ])
    = Normal {| isValid := false; sanitizedData := None; errors := Some errs |}
    /\ List.filter (fun e => JS.eqb (ValidationError.field e) (js "email")) errs
       = [ValidationError.mk (js "email")
            (dquote :: js "email" ++ dquote :: js " is required")].
Proof.
  apply (missing_property_message Sample.isEmail DOMPurify.sanitize).
  - right. by left.
  - reflexivity.
Defined.

(** A submission whose name needs trimming. *)
Lemma accepted_name_is_as_submitted_witness :
  exists props raw formData,
    Sample.form "  John Doe " "john@example.com" "This is a test message." = JObject props
    /\ getProp props (js "name") = JString raw
    /\ sanitizedData
         {| isValid := true;
            sanitizedData := Some (ContactFormRequest.mk (js "John Doe")
                                     (js "john@example.com") None
                                     (js "This is a test message."));
            errors := None |} = Some formData
    /\ ContactFormRequest.name formData = JS.trim raw
    /\ JS.trim raw <> []
    /\ Forall (fun c => name_unit c = true) (JS.trim raw).
Proof.
  apply (accepted_name_is_as_submitted Sample.isEmail
           (Sample.form "  John Doe " "john@example.com" "This is a test message.")).
  - vm_compute. reflexivity.
  - reflexivity.
Defined.

(** ** More on the sanitizer *)

Lemma htmlConfig_attributes (tag : jsstring) (attrs : list (jsstring * jsstring)) :
  forallb (fun a => Regex.test DOMPurify.DATA_ATTR (JS.toLowerCase (fst a))
                    || Regex.test DOMPurify.ARIA_ATTR (JS.toLowerCase (fst a)))
    (DOMPurify.sanitizeAttributes htmlConfig tag attrs) = true.
Proof.
  unfold DOMPurify.sanitizeAttributes. induction attrs as [|[name value] attrs IH]; [done|].
  cbn [flat_map fst snd]. rewrite forallb_app, IH, andb_true_r.
  destruct (JS.includes _ _); [done|].
  unfold DOMPurify.isValidAttribute.
  destruct (Regex.test DOMPurify.DATA_ATTR (JS.toLowerCase name)) eqn:Ed.
  { simpl. by rewrite Ed. }
  destruct (Regex.test DOMPurify.ARIA_ATTR (JS.toLowerCase name)) eqn:Ea.
  { simpl. by rewrite Ed, Ea. }
  done.
Qed.

(** What [sanitizeHtml]'s configuration leaves of a node. *)
Lemma sanitizeNode_formatting_only (n : HTML.node) :
  forallb formatting_only (DOMPurify.sanitizeNode htmlConfig n) = true.
Proof.
  revert n. fix IH 1. intros [s|s|tag attrs kids]; [done|done|].
  cbn [DOMPurify.sanitizeNode]. destruct (DOMPurify.mutation_suspect tag kids); [done|].
  assert (Hkids : forallb formatting_only
                    (flat_map (DOMPurify.sanitizeNode htmlConfig) kids) = true).
  { induction kids as [|k kids IHk]; [done|].
    cbn [flat_map]. by rewrite forallb_app, (IH k), IHk. }
  change (DOMPurify.allowed_tags htmlConfig)
    with (map js ["p"; "br"; "strong"; "em"; "u"]%string).
  destruct (HTML.mem tag (map js ["p"; "br"; "strong"; "em"; "u"]%string)) eqn:Et.
  - cbn [forallb formatting_only]. by rewrite Et, htmlConfig_attributes, Hkids.
  - by destruct (HTML.mem tag DOMPurify.FORBID_CONTENTS).
Qed.

(** X18: [sanitizeHtml] returns input without a [<] as it is; of any other
    input it returns the serialization of a tree in which every element
    is a [p], [br], [strong], [em] or [u], no element carries an
    attribute other than [data-*] and [aria-*] ones, and no comment is
    left. *)
Theorem sanitizeHtml_formatting_only (html : jsstring) :
  (JS.includes [HTML.LT] html = false /\ sanitizeHtml DOMPurify.sanitize html = html)
  \/ exists nodes,
       sanitizeHtml DOMPurify.sanitize html
       = DOMPurify.leading_whitespace html ++ HTML.serialize nodes
       /\ forallb formatting_only nodes = true.
Proof.
  unfold sanitizeHtml, DOMPurify.sanitize. destruct html as [|c html]; [by left|].
  destruct (JS.includes [HTML.LT] (c :: html)) eqn:E; [|by left].
  right. cbn [negb]. eexists. split; [done|].
  induction (HTML.parse (c :: html)) as [|n ns IHn]; [done|].
  cbn [flat_map]. by rewrite forallb_app, sanitizeNode_formatting_only, IHn.
Qed.

(** The attributes [sanitizeHtml] keeps: a [data-*] attribute stays, a
    [class] and an event handler go. *)
Example sanitizeHtml_keeps_data_attributes :
  sanitizeHtml DOMPurify.sanitize
    (js "<p data-id=" ++ [dquote] ++ js "7" ++ [dquote] ++ js " class=" ++ [dquote]
     ++ js "x" ++ [dquote] ++ js " onclick=" ++ [dquote] ++ js "f()" ++ [dquote]
     ++ js ">hi</p>")
  = js "<p data-id=" ++ [dquote] ++ js "7" ++ [dquote] ++ js ">hi</p>".
Proof. vm_compute. reflexivity. Qed.
(** ** The mail service *)

Section EmailServiceFacts.

Import EmailService.

Variable generateEmailTemplate : ContactFormRequest.t -> jsstring -> EmailTemplate.t.

Local Abbreviation sendContactEmail' o := (sendContactEmail o generateEmailTemplate).
Local Abbreviation mailOptions' := (mailOptionsOf generateEmailTemplate).

Local Ltac svc :=
  unfold mbind, Svc_bind, mret, Svc_ret, try_catch, lift, logger, set_config,
    set_transporter, set_secretClient, throw, send in *.

(** The fields of the object that a method leaves alone. *)
Local Abbreviation same_client s s' :=
  (secretClient s' = secretClient s /\ outbox s' = outbox s).

(** [loadEmailConfig], outcome by outcome. *)
Lemma loadEmailConfig_outcome (o : Outside) (s : State) :
  match loadEmailConfig o s with
  | (Normal c, s') =>
      config s' = Some c /\ transporter s' = transporter s /\ same_client s s'
      /\ (config s = Some c
          \/ config s = None
             /\ exists secrets, c = configOf secrets
                  /\ KeyVaultSecrets.emailSmtpUser secrets <> []
                  /\ KeyVaultSecrets.emailSmtpPassword secrets <> []
                  /\ KeyVaultSecrets.recipientEmailAddress secrets <> [])
  | (Throw e, s') =>
      config s = None /\ config s' = None /\ transporter s' = transporter s
      /\ same_client s s'
      /\ (e = Error (js "Email configuration unavailable")
          \/ e = Error (js "Missing required email configuration"))
  end.
Proof.
  unfold loadEmailConfig. destruct (config s) as [c|] eqn:Ec; [by auto 10|].
  unfold loadSecrets. svc. destruct (secretClient s) as [client|] eqn:Ecl.
  - destruct (getSecret o client (js "email-smtp-user")) as [u|]; [|by auto 10].
    destruct (getSecret o client (js "email-smtp-password")) as [p|]; [|by auto 10].
    destruct (getSecret o client (js "recipient-email-address")) as [r|]; [|by auto 10].
    cbn [KeyVaultSecrets.emailSmtpUser KeyVaultSecrets.emailSmtpPassword
         KeyVaultSecrets.recipientEmailAddress].
    destruct (or_empty u) eqn:Eu; [by auto 10|].
    destruct (or_empty p) eqn:Ep; [by auto 10|].
    destruct (or_empty r) eqn:Er; [by auto 10|].
    simpl. repeat split; try done. right. split; [done|]. eexists. split; [done|]. done.
  - cbn [KeyVaultSecrets.emailSmtpUser KeyVaultSecrets.emailSmtpPassword
         KeyVaultSecrets.recipientEmailAddress].
    destruct (or_empty (env o (js "EMAIL_SMTP_USER"))) eqn:Eu; [by auto 10|].
    destruct (or_empty (env o (js "EMAIL_SMTP_PASSWORD"))) eqn:Ep; [by auto 10|].
    destruct (or_empty (env o (js "RECIPIENT_EMAIL_ADDRESS"))) eqn:Er; [by auto 10|].
    simpl. repeat split; try done. right. split; [done|]. eexists. split; [done|]. done.
Qed.

(** [getTransporter], outcome by outcome. *)
Lemma getTransporter_outcome (o : Outside) (s : State) :
  match getTransporter o s with
  | (Normal t, s') =>
      transporter s' = Some t /\ same_client s s'
      /\ (transporter s = Some t /\ s' = s
          \/ transporter s = None
             /\ exists c s1, loadEmailConfig o s = (Normal c, s1) /\ config s' = Some c
                  /\ t = optionsOf c
                  /\ createTransporter o t = Normal tt /\ verify o t = Normal tt)
  | (Throw e, s') =>
      transporter s = None /\ same_client s s'
      /\ ((exists s1, loadEmailConfig o s = (Throw e, s1)
             /\ config s' = None /\ transporter s' = None)
          \/ exists c s1, loadEmailConfig o s = (Normal c, s1) /\ config s' = Some c
               /\ (createTransporter o (optionsOf c) = Throw e /\ transporter s' = None
                   \/ createTransporter o (optionsOf c) = Normal tt
                      /\ (exists e', verify o (optionsOf c) = Throw e')
                      /\ transporter s' = Some (optionsOf c)
                      /\ e = Error (js "Failed to verify SMTP connection")))
  end.
Proof.
  unfold getTransporter. destruct (transporter s) as [t|] eqn:Et; [by auto 10|].
  pose proof (loadEmailConfig_outcome o s) as Hload. svc.
  destruct (loadEmailConfig o s) as [[c|e] s1].
  - destruct Hload as (Hc & Ht & [Hcl Hout] & _). rewrite Et in Ht.
    destruct (createTransporter o (optionsOf c)) as [[]|e] eqn:Ecreate.
    + destruct (verify o (optionsOf c)) as [[]|e] eqn:Everify; cbn.
      * split; [done|]. split; [done|]. right. split; [done|]. exists c, s1. auto 10.
      * split; [done|]. split; [done|]. right. exists c, s1. split; [done|].
        split; [done|]. right. split; [done|]. split; [by exists e|]. done.
    + cbn. split; [done|]. split; [done|]. right. exists c, s1. auto 10.
  - destruct Hload as (_ & Hc & Ht & [Hcl Hout] & _). rewrite Et in Ht.
    split; [done|]. split; [done|]. left. by exists s1.
Qed.

Lemma complete_same (s s' : State) :
  config s' = config s -> transporter s' = transporter s -> complete s -> complete s'.
Proof. unfold complete. by intros -> ->. Qed.

Lemma loadEmailConfig_complete (o : Outside) (s : State) :
  complete s -> complete (snd (loadEmailConfig o s)).
Proof.
  intros Hs. pose proof (loadEmailConfig_outcome o s) as H.
  destruct (loadEmailConfig o s) as [[c|e] s1]; cbn [snd].
  - destruct H as (Hc & Ht & _ & [Hold|[Hnone Hnew]]).
    + apply (complete_same s); [congruence|done|done].
    + split.
      * intros c' Hc'. rewrite Hc in Hc'. by injection Hc' as <-.
      * intros t Ht'. rewrite Ht in Ht'. destruct Hs as [_ Hs].
        destruct (Hs t Ht') as (c' & Hc' & _). congruence.
  - destruct H as (Hn & Hn' & Ht & _). apply (complete_same s); [congruence|done|done].
Qed.

(** A transporter that is returned was made from the stored
    configuration. *)
Lemma getTransporter_ready (o : Outside) (s s1 : State) (t : TransportOptions) :
  complete s -> getTransporter o s = (Normal t, s1) ->
  exists c, config s1 = Some c /\ t = optionsOf c /\ transporter s1 = Some t
    /\ same_client s s1 /\ complete s1.
Proof.
  intros Hs Hg. pose proof (getTransporter_outcome o s) as H. rewrite Hg in H.
  destruct H as (Ht & Hsame & [[Hold ->]|(Hnone & c & s0 & Hload & Hc & -> & _)]).
  - destruct Hs as [Hs1 Hs2]. destruct (Hs2 t Hold) as (c & Hc & ->).
    exists c. by repeat split.
  - exists c. split; [done|]. split; [done|]. split; [done|]. split; [done|].
    pose proof (loadEmailConfig_outcome o s) as Hl. rewrite Hload in Hl.
    destruct Hl as (_ & _ & _ & [Hold|[_ Hnew]]).
    + destruct Hs as [Hs1 _]. split.
      * intros c' Hc'. rewrite Hc in Hc'. injection Hc' as <-. by apply Hs1.
      * intros t' Ht'. rewrite Ht in Ht'. injection Ht' as <-. by exists c.
    + split.
      * intros c' Hc'. rewrite Hc in Hc'. by injection Hc' as <-.
      * intros t' Ht'. rewrite Ht in Ht'. injection Ht' as <-. by exists c.
Qed.

Lemma getTransporter_failed (o : Outside) (s s1 : State) (e : JsError) :
  complete s -> getTransporter o s = (Throw e, s1) ->
  same_client s s1 /\ complete s1.
Proof.
  intros Hs Hg. pose proof (getTransporter_outcome o s) as H. rewrite Hg in H.
  destruct H as (Hnone & Hsame & H). split; [done|].
  destruct H as [(s0 & Hload & Hc & Ht)|(c & s0 & Hload & Hc & H)].
  - split; intros ? H'; congruence.
  - pose proof (loadEmailConfig_outcome o s) as Hl. rewrite Hload in Hl.
    assert (Hcfg : exists secrets, c = configOf secrets
                     /\ KeyVaultSecrets.emailSmtpUser secrets <> []
                     /\ KeyVaultSecrets.emailSmtpPassword secrets <> []
                     /\ KeyVaultSecrets.recipientEmailAddress secrets <> []).
    { destruct Hl as (_ & _ & _ & [Hold|[_ Hnew]]); [|done]. by apply Hs. }
    split.
    + intros c' Hc'. rewrite Hc in Hc'. by injection Hc' as <-.
    + intros t' Ht'. destruct H as [[_ Ht]|(_ & _ & Ht & _)]; [congruence|].
      rewrite Ht in Ht'. injection Ht' as <-. by exists c.
Qed.

(** [sendContactEmail], outcome by outcome, on an object in order. *)
Lemma sendContactEmail_outcome (o : Outside) (formData : ContactFormRequest.t)
    (requestId : jsstring) (s s' : State) (r : completion unit) :
  complete s ->
  sendContactEmail' o formData requestId s = (r, s') ->
  complete s' /\ secretClient s' = secretClient s
  /\ ((r = Normal tt
       /\ exists c, config s' = Some c
            /\ outbox s' = outbox s ++ [(optionsOf c, mailOptions' c formData requestId)]
            /\ sendMail o (optionsOf c) (mailOptions' c formData requestId) = Normal tt)
      \/ (r = Throw (Error (js "Failed to send email"))
          /\ (outbox s' = outbox s
              \/ exists c e,
                   outbox s' = outbox s ++ [(optionsOf c, mailOptions' c formData requestId)]
                   /\ sendMail o (optionsOf c) (mailOptions' c formData requestId)
                      = Throw e))).
Proof.
  intros Hs Heq. unfold sendContactEmail, try_catch, mbind, Svc_bind in Heq.
  destruct (getTransporter o s) as [[t|e] s1] eqn:Hg.
  - destruct (getTransporter_ready o s s1 t Hs Hg) as (c & Hc & -> & Ht & [Hcl Hout] & Hs1).
    unfold loadEmailConfig in Heq. rewrite Hc in Heq. unfold send, logger, throw in Heq.
    destruct (sendMail o (optionsOf c) _) as [[]|e] eqn:Esend; injection Heq as <- <-; cbn.
    + split; [by apply (complete_same s1)|]. split; [done|]. left. split; [done|].
      exists c. by rewrite Hout.
    + split; [by apply (complete_same s1)|]. split; [done|]. right. split; [done|].
      right. exists c, e. by rewrite Hout.
  - destruct (getTransporter_failed o s s1 e Hs Hg) as ([Hcl Hout] & Hs1).
    unfold logger, throw in Heq. injection Heq as <- <-. cbn.
    split; [by apply (complete_same s1)|]. split; [done|]. right. split; [done|].
    by left.
Qed.

Lemma testConfiguration_complete (o : Outside) (s s' : State) (r : completion bool) :
  complete s ->
  testConfiguration o s = (r, s') ->
  complete s' /\ secretClient s' = secretClient s /\ outbox s' = outbox s.
Proof.
  intros Hs Heq. unfold testConfiguration, try_catch, mbind, Svc_bind in Heq.
  destruct (getTransporter o s) as [[t|e] s1] eqn:Hg.
  - destruct (getTransporter_ready o s s1 t Hs Hg) as (c & _ & _ & _ & [Hcl Hout] & Hs1).
    unfold mret, Svc_ret in Heq. by injection Heq as <- <-.
  - destruct (getTransporter_failed o s s1 e Hs Hg) as ([Hcl Hout] & Hs1).
    unfold logger, mret, Svc_ret in Heq. injection Heq as <- <-. cbn.
    split; [by apply (complete_same s1)|]. done.
Qed.

Lemma create_complete (o : Outside) : complete (create o).
Proof.
  assert (H : config (create o) = None /\ transporter (create o) = None).
  { unfold create, initializeKeyVaultClient. svc.
    destruct (env o (js "AZURE_KEYVAULT_URL")) as [[|c url]|]; try done.
    by destruct (newSecretClient o (c :: url)) as [[]|]. }
  destruct H as [Hc Ht]. split; intros ? H; congruence.
Qed.

Lemma step_complete (s : State) (oc : Outside * call) :
  complete s ->
  complete (step generateEmailTemplate s oc)
  /\ secretClient (step generateEmailTemplate s oc) = secretClient s.
Proof.
  intros Hs. destruct oc as [o [formData requestId|]]; unfold step; cbn [fst snd].
  - destruct (sendContactEmail' o formData requestId s) as [r s'] eqn:E.
    by destruct (sendContactEmail_outcome o formData requestId s s' r Hs E) as (H1 & H2 & _).
  - destruct (testConfiguration o s) as [r s'] eqn:E.
    by destruct (testConfiguration_complete o s s' r Hs E) as (H1 & H2 & _).
Qed.

Lemma run_complete (calls : list (Outside * call)) (s : State) :
  complete s ->
  complete (run generateEmailTemplate calls s)
  /\ secretClient (run generateEmailTemplate calls s) = secretClient s.
Proof.
  revert s. induction calls as [|oc calls IH]; intros s Hs; [done|].
  unfold run. cbn [fold_left]. destruct (step_complete s oc Hs) as [H1 H2].
  destruct (IH _ H1) as [H3 H4]. split; [done|]. unfold run in H4. by rewrite H4.
Qed.

(** X19: Whatever is called, in whatever surroundings, the object never holds
    an incomplete configuration: a stored configuration has a user, a
    password and a recipient that are not empty, the fixed host
    [mail.proton.me] with port 587 and the user as the sender's address;
    and a stored transporter was made from the stored configuration. *)
Theorem service_configuration_complete (o : Outside) (calls : list (Outside * call)) :
  let s := run generateEmailTemplate calls (create o) in
  (forall c, config s = Some c ->
     Smtp.user (EmailConfig.smtp c) <> [] /\ Smtp.password (EmailConfig.smtp c) <> []
     /\ Recipient.email (EmailConfig.to c) <> []
     /\ Smtp.host (EmailConfig.smtp c) = js "mail.proton.me"
     /\ Smtp.port (EmailConfig.smtp c) = 587
     /\ Smtp.secure (EmailConfig.smtp c) = false
     /\ EmailConfig.from c = Sender.mk (js "Contact Form") (Smtp.user (EmailConfig.smtp c)))
  /\ (forall t, transporter s = Some t -> exists c, config s = Some c /\ t = optionsOf c).
Proof.
  intros s. destruct (run_complete calls (create o) (create_complete o)) as [[H1 H2] _].
  split; [|done]. intros c Hc. destruct (H1 c Hc) as (secrets & -> & Hu & Hp & Hr). done.
Qed.

(** X20: A failure of [sendContactEmail] is always the same exception,
    [Error('Failed to send email')], whatever went wrong (the secrets,
    the transporter, the verification, the sending); when it returns,
    exactly one message was handed to [sendMail], through the
    transporter of the stored configuration, and [sendMail] accepted
    it; when it throws, at most one message was handed over. *)
Theorem sendContactEmail_outcomes (o0 : Outside) (calls : list (Outside * call))
    (o : Outside) (formData : ContactFormRequest.t) (requestId : jsstring) :
  let s := run generateEmailTemplate calls (create o0) in
  let out := sendContactEmail' o formData requestId s in
  (fst out = Normal tt
   /\ exists c, config (snd out) = Some c
        /\ outbox (snd out) = outbox s ++ [(optionsOf c, mailOptions' c formData requestId)]
        /\ sendMail o (optionsOf c) (mailOptions' c formData requestId) = Normal tt)
  \/ (fst out = Throw (Error (js "Failed to send email"))
      /\ (outbox (snd out) = outbox s
          \/ exists c e,
               outbox (snd out)
               = outbox s ++ [(optionsOf c, mailOptions' c formData requestId)]
               /\ sendMail o (optionsOf c) (mailOptions' c formData requestId) = Throw e)).
Proof.
  intros s out. subst out.
  destruct (run_complete calls (create o0) (create_complete o0)) as [Hs _]. fold s in Hs.
  destruct (sendContactEmail' o formData requestId s) as [r s'] eqn:E.
  by destruct (sendContactEmail_outcome o formData requestId s s' r Hs E) as (_ & _ & H).
Qed.

(** X21: The transporter is stored before its connection is verified, and a
    stored transporter is never verified again: when a first
    [testEmailConfiguration] fails on the verification, it answers
    [false], and every later call answers [true], whatever the SMTP
    server then does; and [sendContactEmail] hands its message to the
    unverified transporter. *)
Theorem failed_verification_is_forgotten (o : Outside) (s : State) (c : EmailConfig.t)
    (e : JsError) :
  transporter s = None ->
  fst (loadEmailConfig o s) = Normal c ->
  createTransporter o (optionsOf c) = Normal tt ->
  verify o (optionsOf c) = Throw e ->
  let s' := snd (testConfiguration o s) in
  fst (testConfiguration o s) = Normal false
  /\ forall o',
       testConfiguration o' s' = (Normal true, s')
       /\ forall formData requestId,
            outbox (snd (sendContactEmail' o' formData requestId s'))
            = outbox s' ++ [(optionsOf c, mailOptions' c formData requestId)].
Proof.
  intros Ht Hload Hcreate Hverify.
  pose proof (loadEmailConfig_outcome o s) as Hl.
  assert (Htest : exists s1,
             testConfiguration o s = (Normal false, s1)
             /\ transporter s1 = Some (optionsOf c) /\ config s1 = Some c).
  { unfold testConfiguration. svc. unfold getTransporter. rewrite Ht. svc.
    destruct (loadEmailConfig o s) as [[c'|e'] s0]; simpl in Hload; [|done].
    injection Hload as ->. destruct Hl as (Hc & _). rewrite Hcreate, Hverify. cbn.
    eexists. split; [done|]. by cbn. }
  destruct Htest as (s1 & -> & Ht1 & Hc1). cbn [fst snd]. split; [done|].
  intros o'. split.
  - unfold testConfiguration. svc. unfold getTransporter. by rewrite Ht1.
  - intros formData requestId. unfold sendContactEmail. svc.
    unfold getTransporter, loadEmailConfig. rewrite Ht1, Hc1.
    by destruct (sendMail o' _ _) as [[]|].
Qed.

(** X22: The secrets are read once: with a configuration and a transporter
    stored, [sendContactEmail] does the same in any two surroundings
    that treat the message alike, whatever the environment variables
    and the Key Vault then hold and whether or not the server would
    still pass the verification. *)
Theorem configuration_read_once (o o' : Outside) (s : State) (c : EmailConfig.t)
    (t : TransportOptions) (formData : ContactFormRequest.t) (requestId : jsstring) :
  config s = Some c ->
  transporter s = Some t ->
  sendMail o t (mailOptions' c formData requestId)
    = sendMail o' t (mailOptions' c formData requestId) ->
  sendContactEmail' o formData requestId s = sendContactEmail' o' formData requestId s.
Proof.
  intros Hc Ht Hsend. unfold sendContactEmail. svc.
  unfold getTransporter, loadEmailConfig. rewrite Ht, Hc. by rewrite Hsend.
Qed.

Local Abbreviation with_env o env' :=
  {| env := env'; newSecretClient := newSecretClient o; getSecret := getSecret o;
     createTransporter := createTransporter o; verify := verify o;
     sendMail := sendMail o |}.
Local Abbreviation with_vault o getSecret' :=
  {| env := env o; newSecretClient := newSecretClient o; getSecret := getSecret';
     createTransporter := createTransporter o; verify := verify o;
     sendMail := sendMail o |}.

(** Two surroundings that an object cannot tell apart: they differ only
    in the source of secrets that the object does not use. *)
Local Abbreviation alike o o' s :=
  (newSecretClient o' = newSecretClient o /\ createTransporter o' = createTransporter o
   /\ verify o' = verify o /\ sendMail o' = sendMail o
   /\ match secretClient s with
      | Some _ => getSecret o' = getSecret o
      | None => env o' = env o
      end).

Lemma loadEmailConfig_alike (o o' : Outside) (s : State) :
  alike o o' s -> loadEmailConfig o' s = loadEmailConfig o s.
Proof.
  intros (_ & _ & _ & _ & H). unfold loadEmailConfig. destruct (config s); [done|].
  svc. unfold loadSecrets. destruct (secretClient s); svc; by rewrite H.
Qed.

Lemma getTransporter_alike (o o' : Outside) (s : State) :
  alike o o' s -> getTransporter o' s = getTransporter o s.
Proof.
  intros H. unfold getTransporter. destruct (transporter s); [done|]. svc.
  rewrite (loadEmailConfig_alike o o' s H). destruct H as (_ & -> & -> & _). done.
Qed.

Lemma sendContactEmail_alike (o o' : Outside) (s : State)
    (formData : ContactFormRequest.t) (requestId : jsstring) :
  alike o o' s ->
  sendContactEmail' o' formData requestId s = sendContactEmail' o formData requestId s.
Proof.
  intros H. unfold sendContactEmail. svc. rewrite (getTransporter_alike o o' s H).
  pose proof (getTransporter_outcome o s) as Hg.
  destruct (getTransporter o s) as [[t|e] s1]; [|done].
  destruct Hg as (_ & [Hcl _] & _).
  rewrite (loadEmailConfig_alike o o' s1) by (by rewrite Hcl).
  destruct H as (_ & _ & _ & -> & _). done.
Qed.

(** X23: Where the secrets come from is settled when the object is made: an
    object with a Key Vault client never reads the credentials in the
    environment variables (there is no falling back on them when the
    vault fails or holds an empty secret), an object without one never
    asks a vault, and no call changes which of the two it is. *)
Theorem secrets_source_is_fixed (o : Outside) (s : State)
    (formData : ContactFormRequest.t) (requestId : jsstring) :
  (secretClient s = None \/
   forall env',
     sendContactEmail' (with_env o env') formData requestId s
     = sendContactEmail' o formData requestId s)
  /\ (secretClient s <> None \/
      forall getSecret',
        sendContactEmail' (with_vault o getSecret') formData requestId s
        = sendContactEmail' o formData requestId s)
  /\ (forall o0 calls,
        secretClient (run generateEmailTemplate calls (create o0))
        = secretClient (create o0)).
Proof.
  split; [|split].
  - destruct (secretClient s) as [url|] eqn:E; [right|by left]. intros env'.
    apply sendContactEmail_alike. rewrite E. by cbn.
  - destruct (secretClient s) as [url|] eqn:E; [by left|right]. intros getSecret'.
    apply sendContactEmail_alike. rewrite E. by cbn.
  - intros o0 calls. by destruct (run_complete calls (create o0) (create_complete o0)).
Qed.

End EmailServiceFacts.

(** A server whose verification fails, met by a fresh object. *)
Lemma failed_verification_is_forgotten_witness :
  let s := EmailService.create SampleMail.unverifiable in
  fst (EmailService.testConfiguration SampleMail.unverifiable s) = Normal false
  /\ fst (EmailService.testConfiguration SampleMail.unverifiable
            (snd (EmailService.testConfiguration SampleMail.unverifiable s)))
     = Normal true.
Proof.
  intros s.
  destruct (failed_verification_is_forgotten SampleMail.template SampleMail.unverifiable s
              (EmailService.configOf
                 (KeyVaultSecrets.mk (js "forms@proton.me") (js "secret")
                    (js "owner@example.com")))
              (Error (js "connect ETIMEDOUT"))) as [H1 H2]; try reflexivity.
  split; [exact H1|]. destruct (H2 SampleMail.unverifiable) as [-> _]. reflexivity.
Defined.

(** An object that has sent once, after the environment variables were
    cleared. *)
Lemma configuration_read_once_witness :
  let s := EmailService.run SampleMail.template
             [(SampleMail.working, EmailService.TestEmailConfiguration)]
             (EmailService.create SampleMail.working) in
  EmailService.sendContactEmail SampleMail.working SampleMail.template
    SampleMail.submission (js "req_1") s
  = EmailService.sendContactEmail SampleMail.cleared SampleMail.template
      SampleMail.submission (js "req_1") s.
Proof.
  intros s.
  apply (configuration_read_once SampleMail.template SampleMail.working SampleMail.cleared s
           (EmailService.configOf
              (KeyVaultSecrets.mk (js "forms@proton.me") (js "secret")
                 (js "owner@example.com")))
           (EmailService.optionsOf
              (EmailService.configOf
                 (KeyVaultSecrets.mk (js "forms@proton.me") (js "secret")
                    (js "owner@example.com")))));
    reflexivity.
Defined.
(** ** The validator's errors, and the limiter's records *)

Section Catalogue.

Variable isEmail : jsstring -> bool.
Variable purify : DOMPurify.Config -> jsstring -> jsstring.

Local Abbreviation as_error :=
  (fun detail => ValidationError.mk (JS.join (js ".") (Joi.path detail)) (Joi.message detail)).

Local Ltac listed := vm_compute; repeat first [left; reflexivity | right]; fail.

Local Ltac all_listed :=
  repeat match goal with
         | |- Forall _ [] => constructor
         | |- Forall _ (_ :: _) => constructor; [listed|]
         | |- Forall _ (map _ (_ ++ _)) => rewrite map_app
         | |- Forall _ (_ ++ _) => apply Forall_app; split
         | |- Forall _ (map _ []) => constructor
         | |- Forall _ (map _ [_]) => constructor; [listed|constructor]
         | |- Forall _ (map _ (if ?c then _ else _)) => destruct c
         end.

Lemma name_errors (item : JSValue) :
  Forall (fun e => In e error_catalogue)
    (map as_error (Joi.validateString isEmail (js "name") nameSchema item).1).
Proof.
  unfold Joi.validateString. destruct item as [| | | |s| |]; try (cbn; all_listed; fail).
  change (Joi.has_trim nameSchema) with true. cbv iota.
  change (Joi.allowed nameSchema) with (@nil jsstring). cbn [existsb].
  destruct (JS.trim s) as [|c t] eqn:E; [cbn; all_listed|].
  cbn [fst flat_map Joi.rules nameSchema Joi.check app].
  destruct (Z.ltb_spec (JS.length (c :: t)) 1) as [H|_].
  { unfold JS.length in H. simpl in H. lia. }
  cbn [app]. all_listed.
Qed.

Lemma email_errors (item : JSValue) :
  Forall (fun e => In e error_catalogue)
    (map as_error (Joi.validateString isEmail (js "email") emailSchema item).1).
Proof.
  unfold Joi.validateString. destruct item as [| | | |s| |]; try (cbn; all_listed; fail).
  change (Joi.has_trim emailSchema) with false. cbv iota.
  change (Joi.allowed emailSchema) with (@nil jsstring). cbn [existsb].
  destruct s as [|c t]; [cbn; all_listed|].
  cbn [fst flat_map Joi.rules emailSchema Joi.check app]. all_listed.
Qed.

Lemma subject_errors (item : JSValue) :
  Forall (fun e => In e error_catalogue)
    (map as_error (Joi.validateString isEmail (js "subject") subjectSchema item).1).
Proof.
  unfold Joi.validateString. destruct item as [| | | |s| |]; try (cbn; all_listed; fail).
  change (Joi.has_trim subjectSchema) with true. cbv iota.
  change (Joi.allowed subjectSchema) with [@nil N]. cbn [existsb].
  destruct (JS.trim s) as [|c t] eqn:E; [cbn; all_listed|]. cbn [JS.eqb orb].
  cbn [fst flat_map Joi.rules subjectSchema Joi.check app]. all_listed.
Qed.

Lemma message_errors (item : JSValue) :
  Forall (fun e => In e error_catalogue)
    (map as_error (Joi.validateString isEmail (js "message") messageSchema item).1).
Proof.
  unfold Joi.validateString. destruct item as [| | | |s| |]; try (cbn; all_listed; fail).
  change (Joi.has_trim messageSchema) with true. cbv iota.
  change (Joi.allowed messageSchema) with (@nil jsstring). cbn [existsb].
  destruct (JS.trim s) as [|c t] eqn:E; [cbn; all_listed|].
  cbn [fst flat_map Joi.rules messageSchema Joi.check app]. all_listed.
Qed.

(** X24: The errors the validator can return are the eighteen of the
    catalogue and no others; in particular the message the schema sets
    for a name shorter than one character, [Name must be at least 1
    character long], is never returned (an empty name is reported as
    [Name is required]). *)
Theorem errors_are_catalogued (data : JSValue) :
  match validateContactForm isEmail purify data with
  | Normal v => Forall (fun e => In e error_catalogue) (default [] (errors v))
  | Throw _ => data = JUndefined
  end
  /\ existsb (same_error (ValidationError.mk (js "name")
                            (js "Name must be at least 1 character long")))
       error_catalogue = false.
Proof.
  split; [|by vm_compute].
  destruct data as [| | | | | |props]; try (cbn; repeat constructor; fail).
  rewrite validateContactForm_object. cbv zeta.
  pose proof (name_errors (getProp props (js "name"))) as H1.
  pose proof (email_errors (getProp props (js "email"))) as H2.
  pose proof (subject_errors (getProp props (js "subject"))) as H3.
  pose proof (message_errors (getProp props (js "message"))) as H4.
  destruct (Joi.validateString isEmail (js "name") _ _) as [e1 o1].
  destruct (Joi.validateString isEmail (js "email") _ _) as [e2 o2].
  destruct (Joi.validateString isEmail (js "subject") _ _) as [e3 o3].
  destruct (Joi.validateString isEmail (js "message") _ _) as [e4 o4].
  cbn [fst snd] in *.
  destruct (e1 ++ e2 ++ e3 ++ e4) eqn:E; [by constructor|].
  rewrite <- E. cbn [errors default].
  rewrite !map_app. by repeat (apply Forall_app; split).
Qed.

End Catalogue.

(** X26: The limiter never forgets a client: no call removes an identifier's
    record, so the identifiers on record only grow in number for as
    long as the process lives. *)
Theorem limiter_never_forgets (cs : list call) (requests : gmap jsstring (list Z)) :
  dom requests ⊆ dom (calls cs requests).
Proof.
  revert requests. induction cs as [|c cs IH]; intros requests; [done|].
  unfold calls in *. cbn [fold_left]. etrans; [|apply IH].
  destruct c as [identifier now|identifier now]; cbn [call_step]; [|done].
  unfold RateLimiter.isRateLimited. destruct (_ <=? _); [done|].
  cbn [snd]. rewrite dom_insert_L. intros k Hk. apply elem_of_union. by right.
Qed.
(** ** The tree constructor and the sanitizer on its own output *)

Section ShapeFacts.

Import HTML Shape.















End ShapeFacts.

Section TokenFacts.

Import HTML Shape.








End TokenFacts.

Section SanitizerFacts.

Import HTML Shape DOMPurify Regex Matches.

Variable cfg : Config.











End SanitizerFacts.



(** The same in the mode of the contact-form fields: the link and the
    image stay, the event handler goes, and a second pass changes
    nothing. *)
Example sanitize_default_markup_stable :
  let s := js "<a href=https://example.com/>link</a><img src=x.png onerror=alert(1)>" in
  DOMPurify.sanitize DOMPurify.no_config s
  = js "<a href=" ++ [dquote] ++ js "https://example.com/" ++ [dquote] ++ js ">link</a>"
    ++ js "<img src=" ++ [dquote] ++ js "x.png" ++ [dquote] ++ js ">"
  /\ DOMPurify.sanitize DOMPurify.no_config (DOMPurify.sanitize DOMPurify.no_config s)
     = DOMPurify.sanitize DOMPurify.no_config s.
Proof. vm_compute. split; reflexivity. Qed.
